(** * bayes_streaks: the game-state pipeline, embedded and verified

    A shallow embedding of [app/game_state/utils.py],
    [app/game_state/processors.py], [app/game_state/services.py] and
    [app/game_event/models.py], followed by the properties of the
    derivation functions, the player registry and the event processors.

    Conventions of the embedding:
    - a timestamp is the number of whole seconds since the Unix epoch, in
      [Z] (the source computes with Python floats holding such numbers);
    - a Python exception is a value of [exn]; code that can raise returns
      a [result], and code that raises after mutating the store returns
      the store as it was left;
    - a Redis key is kept as its components (see [key]); [key_name]
      gives the string the source builds for it. *)

From Stdlib Require Import ZArith Lia Ascii String List.
From stdpp Require Import base decidable option list sorting strings gmap.
From Equations Require Import Equations.

Local Open Scope string_scope.
Local Open Scope list_scope.
Local Open Scope Z_scope.

(** ** Exceptions and results *)

Inductive exn :=
| ValueError      (* also stands for OverflowError of [datetime.fromtimestamp] *)
| TypeError
| AttributeError
| DataError       (* redis.exceptions.DataError: a value that cannot be sent *)
| ResponseError.  (* redis.exceptions.ResponseError: the server refused *)

Inductive result (A : Type) :=
| Return (a : A)
| Raise (e : exn).
Arguments Return {A} a.
Arguments Raise {A} e.

Definition result_bind {A B} (r : result A) (k : A → result B) : result B :=
  match r with
  | Return a => k a
  | Raise e => Raise e
  end.

(** [result_map f l] applies [f] from left to right and stops at the
    first exception. *)
Fixpoint result_map {A B} (f : A → result B) (l : list A) : result (list B) :=
  match l with
  | [] => Return []
  | x :: l' =>
      result_bind (f x) (fun y =>
      result_bind (result_map f l') (fun ys => Return (y :: ys)))
  end.

(** ** [datetime.fromtimestamp(t, UTC).strftime("%Y-%m-%d %H:%M:%S")] *)

Module Datetime.

Record datetime := {
  year : Z; month : Z; day : Z; hour : Z; minute : Z; second : Z
}.

(** Proleptic Gregorian date of a day number counted from 1970-01-01. *)
Definition civil_from_days (days : Z) : Z * Z * Z :=
  let z := days + 719468 in
  let era := z / 146097 in
  let doe := z - era * 146097 in
  let yoe := (doe - doe / 1460 + doe / 36524 - doe / 146096) / 365 in
  let doy := doe - (365 * yoe + yoe / 4 - yoe / 100) in
  let mp := (5 * doy + 2) / 153 in
  let d := doy - (153 * mp + 2) / 5 + 1 in
  let m := if mp <? 10 then mp + 3 else mp - 9 in
  let y := yoe + era * 400 + (if m <=? 2 then 1 else 0) in
  (y, m, d).

(** Inverse direction, used to state that the date is the right one. *)
Definition days_from_civil (y m d : Z) : Z :=
  let y' := if m <=? 2 then y - 1 else y in
  let era := y' / 400 in
  let yoe := y' - era * 400 in
  let mp := if 2 <? m then m - 3 else m + 9 in
  let doy := (153 * mp + 2) / 5 + d - 1 in
  let doe := yoe * 365 + yoe / 4 - yoe / 100 + doy in
  era * 146097 + doe - 719468.

Definition MINYEAR : Z := 1.
Definition MAXYEAR : Z := 9999.

(** [datetime.fromtimestamp(t, UTC)]: raises when the year leaves
    [MINYEAR..MAXYEAR]. *)
Definition fromtimestamp (t : Z) : result datetime :=
  let '(y, m, d) := civil_from_days (t / 86400) in
  let s := t mod 86400 in
  if (MINYEAR <=? y) && (y <=? MAXYEAR) then
    Return {| year := y; month := m; day := d;
              hour := s / 3600; minute := (s mod 3600) / 60; second := s mod 60 |}
  else Raise ValueError.

Definition digit (n : Z) : string :=
  String (ascii_of_nat (48 + Z.to_nat (n mod 10))) EmptyString.

(** Decimal rendering on exactly [width] digits (zero padded). *)
Fixpoint zero_padded (width : nat) (n : Z) : string :=
  match width with
  | O => ""
  | S w => zero_padded w (n / 10) +:+ digit n
  end.

(** [%Y]: the year in decimal, on as many digits as it has (the C library
    does not pad the years before 1000). *)
Definition year_width (y : Z) : nat :=
  if y <? 10 then 1 else if y <? 100 then 2 else if y <? 1000 then 3 else 4.

(** [strftime("%Y-%m-%d %H:%M:%S")]. *)
Definition strftime (dt : datetime) : string :=
  zero_padded (year_width (year dt)) (year dt) +:+ "-" +:+
  zero_padded 2 (month dt) +:+ "-" +:+
  zero_padded 2 (day dt) +:+ " " +:+ zero_padded 2 (hour dt) +:+ ":" +:+
  zero_padded 2 (minute dt) +:+ ":" +:+ zero_padded 2 (second dt).

End Datetime.

(** ** [app/game_state/utils.py]: the derivation functions *)

(** [l[i]] for an index the source keeps in range. *)
Definition getitem (l : list Z) (i : nat) : Z := nth i l 0.

(** [l[-1]] on a list the source keeps non-empty. *)
Definition last_item (l : list Z) : Z := List.last l 0.

(** The inner [while] of [calculate_kill_streaks]: extends
    [current_streak] from index [j] and returns it with the final [j]. *)
Equations? streak_inner (kill_timestamps : list Z) (streak_window : Z)
    (current_streak : list Z) (j : nat) : list Z * nat
    by wf (length kill_timestamps - j)%nat lt :=
  streak_inner kill_timestamps streak_window current_streak j
    with decide (j < length kill_timestamps)%nat => {
    | left _ =>
        if (getitem kill_timestamps j - last_item current_streak <=? streak_window)
           && (length current_streak <? 5)%nat
        then streak_inner kill_timestamps streak_window
               (current_streak ++ [getitem kill_timestamps j]) (j + 1)%nat
        else (current_streak, j)
    | right _ => (current_streak, j) }.
Proof. lia. Qed.

(** The label appended for a streak of [streak_length >= 2] kills. *)
Definition streak_label (streak_length : nat) (formatted_timestamp : string)
  : option string :=
  if (streak_length =? 2)%nat then Some ("Double Kill at " +:+ formatted_timestamp)
  else if (streak_length =? 3)%nat then Some ("Triple Kill at " +:+ formatted_timestamp)
  else if (streak_length =? 4)%nat then Some ("Quadra Kill at " +:+ formatted_timestamp)
  else if (streak_length =? 5)%nat then Some ("Penta Kill at " +:+ formatted_timestamp)
  else None.

(** The body of the outer loop after the inner loop: what is appended to
    [streaks] for [current_streak], or the exception of [fromtimestamp]. *)
Definition streak_emit (streaks : list string) (current_streak : list Z)
  : result (list string) :=
  let streak_length := length current_streak in
  if (2 <=? streak_length)%nat then
    let last_kill_timestamp := last_item current_streak in
    result_bind (Datetime.fromtimestamp last_kill_timestamp) (fun datetime_object =>
    let formatted_timestamp := Datetime.strftime datetime_object in
    match streak_label streak_length formatted_timestamp with
    | Some label => Return (streaks ++ [label])
    | None => Return streaks
    end)
  else Return streaks.

(** The outer [while i < n] of [calculate_kill_streaks]. *)
Equations? streak_outer (kill_timestamps : list Z) (streak_window : Z)
    (streaks : list string) (i : nat) : result (list string)
    by wf (length kill_timestamps - i)%nat lt :=
  streak_outer kill_timestamps streak_window streaks i
    with decide (i < length kill_timestamps)%nat => {
    | left _ =>
        match streak_emit streaks
                (fst (streak_inner kill_timestamps streak_window
                        [getitem kill_timestamps i] (i + 1)%nat)) with
        | Return streaks' =>
            streak_outer kill_timestamps streak_window streaks'
              (snd (streak_inner kill_timestamps streak_window
                      [getitem kill_timestamps i] (i + 1)%nat))
        | Raise e => Raise e
        end
    | right _ => Return streaks }.
Proof.
  (* the inner loop never moves [j] backwards *)
  assert (Hge : ∀ cur j,
    (j <= snd (streak_inner kill_timestamps streak_window cur j))%nat).
  { clear. intros cur j.
    funelim (streak_inner kill_timestamps streak_window cur j); simpl; try lia.
    destruct (_ && _); simpl; lia. }
  specialize (Hge [getitem kill_timestamps i] (i + 1)%nat). lia.
Qed.

Definition calculate_kill_streaks (kill_timestamps : list Z) (streak_window : Z)
  : result (list string) :=
  streak_outer kill_timestamps streak_window [] 0%nat.

(** *** Kill-streak segmentation as the specification words it

    A run is extended while the next kill is within the window of the
    previous kill of the run and the run has fewer than five kills. *)

Fixpoint runs_from (streak_window : Z) (run rest : list Z) : list (list Z) :=
  match rest with
  | [] => [run]
  | t :: rest' =>
      if (t - last_item run <=? streak_window) && (length run <? 5)%nat
      then runs_from streak_window (run ++ [t]) rest'
      else run :: runs_from streak_window [t] rest'
  end.

Definition kill_runs (streak_window : Z) (kills : list Z) : list (list Z) :=
  match kills with
  | [] => []
  | t :: rest => runs_from streak_window [t] rest
  end.

Definition label_name (n : nat) : string :=
  match n with
  | 2%nat => "Double Kill"
  | 3%nat => "Triple Kill"
  | 4%nat => "Quadra Kill"
  | _ => "Penta Kill"
  end.

(** ["<Label> at YYYY-MM-DD HH:MM:SS"] for the last kill of a run. *)
Definition run_label (run : list Z) : result string :=
  result_bind (Datetime.fromtimestamp (last_item run)) (fun dt =>
  Return (label_name (length run) +:+ " at " +:+ Datetime.strftime dt)).

Definition multi_kill (run : list Z) : bool := (2 <=? length run)%nat.

(** Consecutive kills of a run are at most the window apart. *)
Definition gaps_within (streak_window : Z) (run : list Z) : Prop :=
  ∀ (i : nat) a b, run !! i = Some a → run !! S i = Some b →
    b - a <= streak_window.

(** A run stops only when full or when the next kill is too late. *)
Definition runs_maximal (streak_window : Z) (runs : list (list Z)) : Prop :=
  ∀ (k : nat) r1 r2, runs !! k = Some r1 → runs !! S k = Some r2 →
    length r1 = 5%nat ∨ streak_window < hd 0 r2 - last_item r1.

(** The outer loop of [calculate_kill_streaks] seen run by run: what
    [streak_emit] appends for each run in turn. *)
Fixpoint emit_runs (streaks : list string) (runs : list (list Z))
  : result (list string) :=
  match runs with
  | [] => Return streaks
  | r :: runs' => result_bind (streak_emit streaks r) (fun s => emit_runs s runs')
  end.

(** *** [calculate_max_killing_spree] *)

(** A member of a kill history: [{"timestamp": t, "kill_type": k}]. *)
Record kill := { timestamp : Z; kill_type : string }.

(** The loop variables of [calculate_max_killing_spree]. *)
Record spree_state := {
  streak : Z;
  max_streak : Z;
  death_index : nat
}.

(** The inner [while]: move to the next death while the kill is not
    before it. *)
Equations? spree_deaths (death_history : list Z) (kill : Z) (st : spree_state)
    : spree_state by wf (length death_history - death_index st)%nat lt :=
  spree_deaths death_history kill st
    with decide (death_index st < length death_history)%nat => {
    | left _ =>
        if getitem death_history (death_index st) <=? kill
        then spree_deaths death_history kill
               {| streak := 0;
                  max_streak := Z.max (max_streak st) (streak st);
                  death_index := death_index st + 1 |}
        else st
    | right _ => st }.
Proof. simpl. lia. Qed.

(** The body of [for kill in human_kills]. *)
Definition spree_kill (death_history : list Z) (st : spree_state) (kill : Z)
  : spree_state :=
  let st' := spree_deaths death_history kill st in
  if (death_index st' <? length death_history)%nat
  then {| streak := streak st' + 1;
          max_streak := max_streak st';
          death_index := death_index st' |}
  else st'.

Definition human_kills (kill_history : list kill) : list Z :=
  map timestamp
      (List.filter (fun kill => String.eqb (kill_type kill) "human") kill_history).

Definition calculate_max_killing_spree (kill_history : list kill)
    (death_history : list Z) : Z :=
  let st := fold_left (spree_kill death_history) (human_kills kill_history)
              {| streak := 0; max_streak := 0; death_index := 0 |} in
  Z.max (max_streak st) (streak st).

(** *** The killing spree as the specification words it

    The death pointer is the list of the deaths not yet passed. *)

(** Advance past every death [<= kill]; each advance records the streak
    and resets it. *)
Fixpoint pass_deaths (kill streak recorded : Z) (deaths : list Z)
  : Z * Z * list Z :=
  match deaths with
  | d :: deaths' =>
      if d <=? kill then pass_deaths kill 0 (Z.max recorded streak) deaths'
      else (streak, recorded, deaths)
  | [] => (streak, recorded, [])
  end.

Fixpoint spree_walk (kills : list Z) (streak recorded : Z) (deaths : list Z) : Z :=
  match kills with
  | [] => Z.max recorded streak
  | kill :: kills' =>
      let '(streak', recorded', deaths') := pass_deaths kill streak recorded deaths in
      match deaths' with
      | [] => spree_walk kills' streak' recorded' deaths'
      | _ :: _ => spree_walk kills' (streak' + 1) recorded' deaths'
      end
  end.

(** ** [PlayerRegistry]

    A Python [dict] with string keys keeps its entries in insertion order;
    assigning to a present key keeps the entry's place. *)

Fixpoint dict_get {V} (d : list (string * V)) (k : string) : option V :=
  match d with
  | [] => None
  | (k', v) :: d' => if String.eqb k' k then Some v else dict_get d' k
  end.

Fixpoint dict_set {V} (d : list (string * V)) (k : string) (v : V)
  : list (string * V) :=
  match d with
  | [] => [(k, v)]
  | (k', v') :: d' =>
      if String.eqb k' k then (k, v) :: d' else (k', v') :: dict_set d' k v
  end.

(** [d.pop(k, None)] *)
Definition dict_pop {V} (d : list (string * V)) (k : string) : list (string * V) :=
  List.filter (fun kv => negb (String.eqb (fst kv) k)) d.

Module PlayerRegistry.

(** An entry of [_matches]: [{"match_id": m, "team_id": t}]. The match
    id is the event's [match_id], which may be [None]. *)
Record entry := { match_id : option string; team_id : string }.

Record t := {
  _matches : list (string * entry);
  _teams : list (string * option string)
}.

Definition empty : t := {| _matches := []; _teams := [] |}.

Definition register_player (cls : t) (player_id : string)
    (match_id : option string) (team_id : string) : t :=
  {| _matches := dict_set (_matches cls) player_id
                   {| match_id := match_id; team_id := team_id |};
     _teams := dict_set (_teams cls) team_id match_id |}.

Definition get_match_id_for_player (cls : t) (player_id : string)
  : option string :=
  match dict_get (_matches cls) player_id with
  | Some data => match_id data
  | None => None
  end.

Definition get_match_id_for_team (cls : t) (team_id : string) : option string :=
  match dict_get (_teams cls) team_id with
  | Some m => m
  | None => None
  end.

Definition get_team_id (cls : t) (player_id : string) : option string :=
  match dict_get (_matches cls) player_id with
  | Some data => Some (team_id data)
  | None => None
  end.

Definition players_for_team (cls : t) (team : string) : list string :=
  map fst (List.filter (fun kv => String.eqb (team_id (snd kv)) team)
                       (_matches cls)).

Definition players_for_match (cls : t) (m : option string) : list string :=
  map fst (List.filter (fun kv => bool_decide (match_id (snd kv) = m))
                       (_matches cls)).

Definition unregister_player (cls : t) (player_id : string) : t :=
  {| _matches := dict_pop (_matches cls) player_id; _teams := _teams cls |}.

Definition unregister_team (cls : t) (team_id : string) : t :=
  {| _matches := _matches cls; _teams := dict_pop (_teams cls) team_id |}.

End PlayerRegistry.

(** The deaths the pointer of [calculate_max_killing_spree] has not passed. *)
Definition deaths_left (death_history : list Z) (st : spree_state) : list Z :=
  drop (death_index st) death_history.

(** ** The store (Redis) and the state of the process *)

(** Configuration, [app/settings.py]. *)
Record Settings := {
  redis_game_events_namespace : string;
  redis_game_state_namespace : string;
  kill_streak_time_window : Z
}.

Definition default_settings : Settings :=
  {| redis_game_events_namespace := "game_events";
     redis_game_state_namespace := "game_state";
     kill_streak_time_window := 10 |}.

(** A key of the aggregate state, by its components. *)
Inductive key :=
| GameKey (match_id : string)
| TeamKey (match_id team_id : string)
| PlayerKey (match_id player_id : string)
| KillHistoryKey (match_id player_id : string)
| DeathHistoryKey (match_id player_id : string).

(** The string the source builds for a key (the f-strings of
    [get_game_state_key] and its siblings). *)
Definition key_name (settings : Settings) (k : key) : string :=
  let ns := redis_game_state_namespace settings in
  match k with
  | GameKey m => ns +:+ ":game:" +:+ m
  | TeamKey m t => ns +:+ ":game:" +:+ m +:+ ":team:" +:+ t
  | PlayerKey m p => ns +:+ ":game:" +:+ m +:+ ":player:" +:+ p
  | KillHistoryKey m p =>
      ns +:+ ":game:" +:+ m +:+ ":player:" +:+ p +:+ ":kill_history"
  | DeathHistoryKey m p =>
      ns +:+ ":game:" +:+ m +:+ ":player:" +:+ p +:+ ":death_history"
  end.

#[global] Instance key_eq_dec : EqDecision key.
Proof. solve_decision. Defined.

Definition key_encode (k : key) : nat * (string * string) :=
  match k with
  | GameKey m => (0%nat, (m, ""))
  | TeamKey m t => (1%nat, (m, t))
  | PlayerKey m p => (2%nat, (m, p))
  | KillHistoryKey m p => (3%nat, (m, p))
  | DeathHistoryKey m p => (4%nat, (m, p))
  end.

Definition key_decode (c : nat * (string * string)) : key :=
  match c with
  | (0%nat, (m, _)) => GameKey m
  | (1%nat, (m, t)) => TeamKey m t
  | (2%nat, (m, p)) => PlayerKey m p
  | (3%nat, (m, p)) => KillHistoryKey m p
  | (_, (m, p)) => DeathHistoryKey m p
  end.

#[global] Instance key_countable : Countable key.
Proof.
  apply (inj_countable' key_encode key_decode). by intros [].
Defined.

(** What a hash field holds: the Python value that was written. Redis
    keeps its string rendering; every field of the schema is only ever
    written with one kind of value. *)
Inductive value :=
| VInt (n : Z)                              (* an [int] *)
| VFloat (t : Z)                            (* a [float] timestamp *)
| VStr (s : string)                         (* a [str] *)
| VStrList (l : list string)                (* [json.dumps] of a list of [str] *)
| VTeams (l : list (string * list string)). (* the [teams] index *)

Record Redis := {
  hashes : gmap key (gmap string value);
  kill_zsets : gmap key (list kill);     (* members in [zrange] order *)
  death_zsets : gmap key (list Z)
}.

Record State := {
  redis : Redis;
  registry : PlayerRegistry.t
}.

Definition empty_state : State :=
  {| redis := {| hashes := ∅; kill_zsets := ∅; death_zsets := ∅ |};
     registry := PlayerRegistry.empty |}.

(** The field [f] of the hash at [k]. *)
Definition field (s : State) (k : key) (f : string) : option value :=
  hashes (redis s) !! k ≫= (.!! f).

(** *** Computations that read and write the state and may raise *)

Definition M (A : Type) : Type := State → State * result A.

Definition ret {A} (a : A) : M A := fun s => (s, Return a).

Definition raise {A} (e : exn) : M A := fun s => (s, Raise e).

Definition bind {A B} (m : M A) (k : A → M B) : M B :=
  fun s =>
    match m s with
    | (s', Return a) => k a s'
    | (s', Raise e) => (s', Raise e)
    end.

Notation "x <- m ;; k" := (bind m (fun x => k))
  (at level 20, m at level 99, k at level 200, only parsing).
Notation "m ;; k" := (bind m (fun _ => k))
  (at level 100, k at level 200, right associativity, only parsing).

Definition lift {A} (r : result A) : M A := fun s => (s, r).

Definition get_registry : M PlayerRegistry.t := fun s => (s, Return (registry s)).

Definition set_registry (cls : PlayerRegistry.t) : M unit :=
  fun s => ({| redis := redis s; registry := cls |}, Return tt).

Definition set_hashes (h : gmap key (gmap string value)) : M unit :=
  fun s =>
    ({| redis := {| hashes := h;
                    kill_zsets := kill_zsets (redis s);
                    death_zsets := death_zsets (redis s) |};
        registry := registry s |}, Return tt).

(** [for x in l: body(x)] *)
Fixpoint for_each {A} (l : list A) (body : A → M unit) : M unit :=
  match l with
  | [] => ret tt
  | x :: l' => body x ;; for_each l' body
  end.

(** *** Store operations *)

(** The values of a mapping as they are sent: [None] cannot be sent. *)
Fixpoint encode_mapping (mapping : list (string * option value))
  : option (list (string * value)) :=
  match mapping with
  | [] => Some []
  | (f, Some v) :: mapping' =>
      match encode_mapping mapping' with
      | Some l => Some ((f, v) :: l)
      | None => None
      end
  | (_, None) :: _ => None
  end.

Definition write_fields (h : gmap string value) (l : list (string * value))
  : gmap string value :=
  fold_left (fun h fv => <[fst fv := snd fv]> h) l h.

(** [redis.hset(k, mapping=mapping)] *)
Definition hset (k : key) (mapping : list (string * option value)) : M unit :=
  match encode_mapping mapping with
  | None => raise DataError
  | Some l =>
      fun s =>
        set_hashes
          (<[k := write_fields (default ∅ (hashes (redis s) !! k)) l]>
             (hashes (redis s))) s
  end.

(** [redis.hget(k, f)] *)
Definition hget (k : key) (f : string) : M (option value) :=
  fun s => (s, Return (field s k f)).

(** The integers of the store: signed, on 64 bits. *)
Definition int64 (n : Z) : bool :=
  (-9223372036854775808 <=? n) && (n <=? 9223372036854775807).

(** [redis.hincrby(k, f, amount)]: a missing field counts as 0. The
    server refuses, and changes nothing, when the amount or the value of
    the field is not a 64-bit integer, or when their sum is not one. *)
Definition hincrby (k : key) (f : string) (amount : option Z) : M unit :=
  match amount with
  | None => raise DataError
  | Some a =>
      fun s =>
        if int64 a then
          match field s k f with
          | None => hset k [(f, Some (VInt a))] s
          | Some (VInt n) =>
              if int64 n && int64 (n + a)
              then hset k [(f, Some (VInt (n + a)))] s
              else (s, Raise ResponseError)
          | Some _ => (s, Raise ResponseError)
          end
        else (s, Raise ResponseError)
  end.

(** Order of the members of a kill history that have the same score:
    the order of their JSON texts, which differ in the kill type. *)
Definition kill_before (a b : kill) : bool :=
  (timestamp a <? timestamp b)
  || ((timestamp a =? timestamp b) && String.ltb (kill_type a) (kill_type b)).

Definition kill_eqb (a b : kill) : bool :=
  (timestamp a =? timestamp b) && String.eqb (kill_type a) (kill_type b).

Fixpoint zset_add_kill (member : kill) (l : list kill) : list kill :=
  match l with
  | [] => [member]
  | x :: l' =>
      if kill_eqb x member then l
      else if kill_before member x then member :: l
      else x :: zset_add_kill member l'
  end.

Fixpoint zset_add_death (t : Z) (l : list Z) : list Z :=
  match l with
  | [] => [t]
  | x :: l' =>
      if x =? t then l
      else if t <? x then t :: l
      else x :: zset_add_death t l'
  end.

(** [add_kill_history(history_key, timestamp, kill_type)] *)
Definition add_kill_history (history_key : key) (timestamp : Z)
    (kill_type : string) : M unit :=
  fun s =>
    let member := {| timestamp := timestamp; kill_type := kill_type |} in
    ({| redis :=
          {| hashes := hashes (redis s);
             kill_zsets :=
               <[history_key :=
                   zset_add_kill member
                     (default [] (kill_zsets (redis s) !! history_key))]>
                 (kill_zsets (redis s));
             death_zsets := death_zsets (redis s) |};
        registry := registry s |}, Return tt).

(** [redis.zadd(k, {timestamp: timestamp})] on a death history *)
Definition zadd_death (k : key) (timestamp : Z) : M unit :=
  fun s =>
    ({| redis :=
          {| hashes := hashes (redis s);
             kill_zsets := kill_zsets (redis s);
             death_zsets :=
               <[k := zset_add_death timestamp
                        (default [] (death_zsets (redis s) !! k))]>
                 (death_zsets (redis s)) |};
        registry := registry s |}, Return tt).

(** [redis.zrange(k, 0, -1)] *)
Definition zrange_kills (k : key) : M (list kill) :=
  fun s => (s, Return (default [] (kill_zsets (redis s) !! k))).

Definition zrange_deaths (k : key) : M (list Z) :=
  fun s => (s, Return (default [] (death_zsets (redis s) !! k))).

(** *** Key resolution, [app/game_state/utils.py] *)

(** [f"{x}"] for a value that may be [None]. *)
Definition str (x : option string) : string := default "None" x.

Definition get_game_state_key (match_id : option string) : key :=
  GameKey (str match_id).

Definition get_team_state_key (team_id : option string)
    (match_id : option string) : M key :=
  cls <- get_registry ;;
  let match_id :=
    match match_id with
    | None => team_id ≫= PlayerRegistry.get_match_id_for_team cls
    | Some _ => match_id
    end in
  match match_id with
  | None => raise ValueError
  | Some m => ret (TeamKey m (str team_id))
  end.

Definition get_player_state_key (player_id : string)
    (match_id : option string) : M key :=
  cls <- get_registry ;;
  let match_id :=
    match match_id with
    | None => PlayerRegistry.get_match_id_for_player cls player_id
    | Some _ => match_id
    end in
  match match_id with
  | None => raise ValueError
  | Some m => ret (PlayerKey m player_id)
  end.

Definition get_player_kill_history_key (player_id : string) : M key :=
  cls <- get_registry ;;
  match PlayerRegistry.get_match_id_for_player cls player_id with
  | None => raise ValueError
  | Some m => ret (KillHistoryKey m player_id)
  end.

Definition get_player_death_history_key (player_id : string) : M key :=
  cls <- get_registry ;;
  match PlayerRegistry.get_match_id_for_player cls player_id with
  | None => raise ValueError
  | Some m => ret (DeathHistoryKey m player_id)
  end.

(** ** [app/game_event]: events and payloads *)

Inductive EVENT_TYPE :=
| MATCH_START | MINION_KILL | PLAYER_KILL | DRAGON_KILL | TURRET_DESTROY
| MATCH_END | UNKNOWN.

#[global] Instance EVENT_TYPE_eq_dec : EqDecision EVENT_TYPE.
Proof. solve_decision. Defined.

Module MatchPlayer.
Record t := { player_id : string; gold : Z; alive : bool; name : string }.
End MatchPlayer.

Module MatchTeam.
Record t := { team_id : string; players : list MatchPlayer.t }.
End MatchTeam.

Module GameMetadata.
Record t := {
  start_time : string;
  title : string;
  series_current : Z;
  series_max : Z;
  series_type : string
}.
End GameMetadata.

Module MatchStartPayload.
Record t := { fixture : GameMetadata.t; teams : list MatchTeam.t }.
End MatchStartPayload.

Module MinionKillPayload.
Record t := { player_id : string; gold_granted : option Z }.
End MinionKillPayload.

Module PlayerKillPayload.
Record t := {
  killer_id : option string;
  victim_id : option string;
  gold_granted : option Z;
  assistants : option (list string);
  assist_gold : option Z
}.
End PlayerKillPayload.

Module DragonKillPayload.
Record t := {
  killer_id : string;
  dragon_type : option string;
  gold_granted : option Z
}.
End DragonKillPayload.

Module TurretDestroyPayload.
Record t := {
  killer_id : option string;
  killer_team_id : option string;
  turret_tier : option Z;
  turret_lane : option string;
  player_gold_granted : option Z;
  team_gold_granted : option Z
}.
End TurretDestroyPayload.

Module MatchEndPayload.
Record t := { winning_team_id : string }.
End MatchEndPayload.

(** The payload after [resolve_payload]: one of the six models, or [None]. *)
Inductive Payload :=
| PMatchStart (p : MatchStartPayload.t)
| PMinionKill (p : MinionKillPayload.t)
| PPlayerKill (p : PlayerKillPayload.t)
| PDragonKill (p : DragonKillPayload.t)
| PTurretDestroy (p : TurretDestroyPayload.t)
| PMatchEnd (p : MatchEndPayload.t)
| PNone.

Module GameEvent.

Record t := {
  match_id : option string;
  type_ : EVENT_TYPE;
  payload : Payload;
  timestamp : option string
}.

(** [validate_type]: [EVENT_TYPE(value)], or [UNKNOWN] on [ValueError]. *)
Definition validate_type (value : string) : EVENT_TYPE :=
  if String.eqb value "MATCH_START" then MATCH_START
  else if String.eqb value "MINION_KILL" then MINION_KILL
  else if String.eqb value "PLAYER_KILL" then PLAYER_KILL
  else if String.eqb value "DRAGON_KILL" then DRAGON_KILL
  else if String.eqb value "TURRET_DESTROY" then TURRET_DESTROY
  else if String.eqb value "MATCH_END" then MATCH_END
  else UNKNOWN.

(** The payload of a validated event has the model of its type. *)
Definition well_typed (event : t) : Prop :=
  match type_ event, payload event with
  | MATCH_START, PMatchStart _ | MINION_KILL, PMinionKill _
  | PLAYER_KILL, PPlayerKill _ | DRAGON_KILL, PDragonKill _
  | TURRET_DESTROY, PTurretDestroy _ | MATCH_END, PMatchEnd _
  | UNKNOWN, PNone => True
  | _, _ => False
  end.

End GameEvent.

(** ** [app/game_state/processors.py] *)

(** [a or b] on optional strings: [None] and the empty string are false. *)
Definition py_or (a b : option string) : option string :=
  match a with
  | Some s => if String.eqb s "" then b else a
  | None => b
  end.

(** [first_blood == "-1"] on the result of [hget]. *)
Definition is_sentinel (v : option value) : bool :=
  match v with
  | Some (VInt n) => n =? -1
  | Some (VStr s) => String.eqb s "-1"
  | _ => false
  end.

(** [float(first_blood)] on the result of [hget]. *)
Definition float (v : option value) : result Z :=
  match v with
  | None => Raise TypeError
  | Some (VInt n) => Return n
  | Some (VFloat t) => Return t
  | Some _ => Raise ValueError
  end.

Section Processors.

(** The configuration in force. *)
Variable settings : Settings.

(** [datetime.fromisoformat(s).timestamp()], [None] when the string is not
    ISO 8601 ([fromisoformat] raises [ValueError]). *)
Variable fromisoformat_timestamp : string → option Z.

(** [datetime.fromisoformat(event.timestamp).timestamp()] *)
Definition event_timestamp (timestamp : option string) : M Z :=
  match timestamp with
  | None => raise TypeError
  | Some s =>
      match fromisoformat_timestamp s with
      | Some t => ret t
      | None => raise ValueError
      end
  end.

Definition register_player (player_id : string) (match_id : option string)
    (team_id : string) : M unit :=
  cls <- get_registry ;;
  set_registry (PlayerRegistry.register_player cls player_id match_id team_id).

(** *** MatchStartProcessor *)

Definition match_metadata (match_id : option string)
    (payload : MatchStartPayload.t) : list (string * option value) :=
  let fixture := MatchStartPayload.fixture payload in
  [ ("match_id", VStr <$> match_id);
    ("start_time", Some (VStr (GameMetadata.start_time fixture)));
    ("title", Some (VStr (GameMetadata.title fixture)));
    ("series_current", Some (VInt (GameMetadata.series_current fixture)));
    ("series_max", Some (VInt (GameMetadata.series_max fixture)));
    ("series_type", Some (VStr (GameMetadata.series_type fixture)));
    ("teams",
     Some (VTeams
             (map (fun team =>
                     (MatchTeam.team_id team,
                      map MatchPlayer.player_id (MatchTeam.players team)))
                  (MatchStartPayload.teams payload))));
    ("first_blood", Some (VInt (-1))) ].

Definition team_metadata : list (string * option value) :=
  [ ("dragon_kills", Some (VInt 0)); ("tower_kills", Some (VInt 0)) ].

(** [[p.player_id for p in team.players if p.player_id != player.player_id]] *)
Definition team_members (team : MatchTeam.t) (player : MatchPlayer.t)
  : list string :=
  map MatchPlayer.player_id
      (List.filter
         (fun p => negb (String.eqb (MatchPlayer.player_id p)
                                    (MatchPlayer.player_id player)))
         (MatchTeam.players team)).

Definition player_metadata (team : MatchTeam.t) (player : MatchPlayer.t)
  : list (string * option value) :=
  [ ("player_id", Some (VStr (MatchPlayer.player_id player)));
    ("gold", Some (VInt (MatchPlayer.gold player)));
    ("alive", Some (VInt (if MatchPlayer.alive player then 1 else 0)));
    ("name", Some (VStr (MatchPlayer.name player)));
    ("minion_kills", Some (VInt 0));
    ("human_kills", Some (VInt 0));
    ("human_kills_assists", Some (VInt 0));
    ("team_members", Some (VStrList (team_members team player))) ].

(** The body of the loop over the players of [team]. *)
Definition MatchStart_player (match_id : option string) (team : MatchTeam.t)
    (player : MatchPlayer.t) : M unit :=
  register_player (MatchPlayer.player_id player) match_id
                  (MatchTeam.team_id team) ;;
  player_key <- get_player_state_key (MatchPlayer.player_id player) None ;;
  hset player_key (player_metadata team player).

Definition MatchStart_team (match_id : option string) (team : MatchTeam.t)
  : M unit :=
  team_key <- get_team_state_key (Some (MatchTeam.team_id team)) match_id ;;
  hset team_key team_metadata.

Definition MatchStartProcessor (event : GameEvent.t) : M unit :=
  match GameEvent.payload event with
  | PMatchStart payload =>
      let match_id := GameEvent.match_id event in
      let redis_key := get_game_state_key match_id in
      hset redis_key (match_metadata match_id payload) ;;
      for_each (MatchStartPayload.teams payload) (MatchStart_team match_id) ;;
      for_each (MatchStartPayload.teams payload) (fun team =>
        for_each (MatchTeam.players team) (MatchStart_player match_id team))
  | _ => raise AttributeError
  end.

(** *** MinionKillProcessor *)

Definition MinionKillProcessor (event : GameEvent.t) : M unit :=
  match GameEvent.payload event with
  | PMinionKill payload =>
      match MinionKillPayload.gold_granted payload with
      | None => ret tt
      | Some gold_granted =>
          let player_id := MinionKillPayload.player_id payload in
          player_key <- get_player_state_key player_id None ;;
          hincrby player_key "gold" (Some gold_granted) ;;
          hincrby player_key "minion_kills" (Some 1) ;;
          player_kill_history_key <- get_player_kill_history_key player_id ;;
          timestamp <- event_timestamp (GameEvent.timestamp event) ;;
          add_kill_history player_kill_history_key timestamp "minion"
      end
  | _ => raise AttributeError
  end.

(** *** PlayerKillProcessor, block by block *)

Definition PlayerKill_killer (event : GameEvent.t)
    (payload : PlayerKillPayload.t) : M unit :=
  match PlayerKillPayload.killer_id payload with
  | Some killer_id =>
      killer_state_key <- get_player_state_key killer_id None ;;
      match PlayerKillPayload.gold_granted payload with
      | Some gold_granted => hincrby killer_state_key "gold" (Some gold_granted)
      | None => ret tt
      end ;;
      hincrby killer_state_key "human_kills" (Some 1) ;;
      killer_kill_history_key <- get_player_kill_history_key killer_id ;;
      match GameEvent.timestamp event with
      | Some _ =>
          timestamp <- event_timestamp (GameEvent.timestamp event) ;;
          add_kill_history killer_kill_history_key timestamp "human"
      | None => ret tt
      end
  | None => ret tt
  end.

Definition PlayerKill_assistants (payload : PlayerKillPayload.t) : M unit :=
  match PlayerKillPayload.assistants payload with
  | Some assistants =>
      for_each assistants (fun assistant_id =>
        assistant_state_key <- get_player_state_key assistant_id None ;;
        hincrby assistant_state_key "gold" (PlayerKillPayload.assist_gold payload) ;;
        hincrby assistant_state_key "human_kills_assists" (Some 1))
  | None => ret tt
  end.

Definition PlayerKill_victim (event : GameEvent.t)
    (payload : PlayerKillPayload.t) : M unit :=
  match PlayerKillPayload.victim_id payload, GameEvent.timestamp event with
  | Some victim_id, Some _ =>
      victim_death_history_key <- get_player_death_history_key victim_id ;;
      timestamp <- event_timestamp (GameEvent.timestamp event) ;;
      zadd_death victim_death_history_key timestamp
  | _, _ => ret tt
  end.

Definition PlayerKill_first_blood (event : GameEvent.t)
    (payload : PlayerKillPayload.t) : M unit :=
  match GameEvent.timestamp event with
  | Some _ =>
      match PlayerKillPayload.killer_id payload,
            PlayerKillPayload.victim_id payload with
      | None, None => ret tt
      | _, _ =>
          timestamp <- event_timestamp (GameEvent.timestamp event) ;;
          cls <- get_registry ;;
          let match_id :=
            py_or (PlayerKillPayload.killer_id payload)
                  (PlayerKillPayload.victim_id payload)
              ≫= PlayerRegistry.get_match_id_for_player cls in
          let match_state_key := get_game_state_key match_id in
          first_blood <- hget match_state_key "first_blood" ;;
          if is_sentinel first_blood then
            hset match_state_key [("first_blood", Some (VFloat timestamp))]
          else
            current <- lift (float first_blood) ;;
            if timestamp <? current then
              hset match_state_key [("first_blood", Some (VFloat timestamp))]
            else ret tt
      end
  | None => ret tt
  end.

Definition PlayerKillProcessor (event : GameEvent.t) : M unit :=
  match GameEvent.payload event with
  | PPlayerKill payload =>
      PlayerKill_killer event payload ;;
      PlayerKill_assistants payload ;;
      PlayerKill_victim event payload ;;
      PlayerKill_first_blood event payload
  | _ => raise AttributeError
  end.

(** *** DragonKillProcessor

    [killer_id] is a required [str]: the source's test [killer_id is None]
    never holds. *)

Definition DragonKillProcessor (event : GameEvent.t) : M unit :=
  match GameEvent.payload event with
  | PDragonKill payload =>
      match DragonKillPayload.gold_granted payload with
      | None => ret tt
      | Some gold_granted =>
          let killer_id := DragonKillPayload.killer_id payload in
          killer_state_key <- get_player_state_key killer_id None ;;
          hincrby killer_state_key "gold" (Some gold_granted) ;;
          killer_kill_history_key <- get_player_kill_history_key killer_id ;;
          match GameEvent.timestamp event with
          | Some _ =>
              timestamp <- event_timestamp (GameEvent.timestamp event) ;;
              add_kill_history killer_kill_history_key timestamp "dragon"
          | None => ret tt
          end ;;
          cls <- get_registry ;;
          let team_id := PlayerRegistry.get_team_id cls killer_id in
          team_state_key <- get_team_state_key team_id None ;;
          hincrby team_state_key "dragon_kills" (Some 1)
      end
  | _ => raise AttributeError
  end.

(** *** TurretDestroyProcessor *)

(** The gold a player of the killer's team is granted. *)
Definition turret_gold (payload : TurretDestroyPayload.t) (killer_id : string)
    (player_id : string) : option Z :=
  if String.eqb player_id killer_id
  then TurretDestroyPayload.player_gold_granted payload
  else TurretDestroyPayload.team_gold_granted payload.

(** The body of [for player_id in player_ids]. *)
Definition TurretDestroy_player (payload : TurretDestroyPayload.t)
    (killer_id : string) (player_id : string) : M unit :=
  match turret_gold payload killer_id player_id with
  | Some gold_granted =>
      player_state_key <- get_player_state_key player_id None ;;
      hincrby player_state_key "gold" (Some gold_granted)
  | None => ret tt
  end.

Definition TurretDestroyProcessor (event : GameEvent.t) : M unit :=
  match GameEvent.payload event with
  | PTurretDestroy payload =>
      match TurretDestroyPayload.killer_id payload with
      | Some killer_id =>
          let killer_team_id := TurretDestroyPayload.killer_team_id payload in
          team_state_key <- get_team_state_key killer_team_id None ;;
          hincrby team_state_key "tower_kills" (Some 1) ;;
          cls <- get_registry ;;
          let player_ids :=
            match killer_team_id with
            | Some t => PlayerRegistry.players_for_team cls t
            | None => []
            end in
          for_each player_ids (TurretDestroy_player payload killer_id)
      | None => ret tt
      end
  | _ => raise AttributeError
  end.

(** *** MatchEndProcessor *)

Definition MatchEnd_calculate_kill_streaks (match_id : option string) : M unit :=
  cls <- get_registry ;;
  let all_players := PlayerRegistry.players_for_match cls match_id in
  for_each all_players (fun player_id =>
    player_kill_history_key <- get_player_kill_history_key player_id ;;
    kill_history <- zrange_kills player_kill_history_key ;;
    let kill_timestamps := map timestamp kill_history in
    kill_streaks <- lift (calculate_kill_streaks kill_timestamps
                            (kill_streak_time_window settings)) ;;
    player_state_key <- get_player_state_key player_id None ;;
    hset player_state_key [("kill_streaks", Some (VStrList kill_streaks))]).

Definition MatchEnd_calculate_max_killing_sprees (match_id : option string)
  : M unit :=
  cls <- get_registry ;;
  let all_players := PlayerRegistry.players_for_match cls match_id in
  for_each all_players (fun player_id =>
    player_kill_history_key <- get_player_kill_history_key player_id ;;
    player_death_history_key <- get_player_death_history_key player_id ;;
    kill_history <- zrange_kills player_kill_history_key ;;
    death_history <- zrange_deaths player_death_history_key ;;
    let max_killing_spree :=
      calculate_max_killing_spree kill_history death_history in
    player_state_key <- get_player_state_key player_id None ;;
    hset player_state_key [("max_killing_spree", Some (VInt max_killing_spree))]).

Definition MatchEndProcessor (event : GameEvent.t) : M unit :=
  match GameEvent.payload event with
  | PMatchEnd payload =>
      let match_id := GameEvent.match_id event in
      let match_state_key := get_game_state_key match_id in
      hset match_state_key
        [("winning_team_id", Some (VStr (MatchEndPayload.winning_team_id payload)))] ;;
      MatchEnd_calculate_kill_streaks match_id ;;
      MatchEnd_calculate_max_killing_sprees match_id
  | _ => raise AttributeError
  end.

(** ** [app/game_state/services.py]: dispatch *)

(** The [match event.type_] of [process_game_event]. *)
Definition process_event (event : GameEvent.t) : M unit :=
  match GameEvent.type_ event with
  | MATCH_START => MatchStartProcessor event
  | MINION_KILL => MinionKillProcessor event
  | PLAYER_KILL => PlayerKillProcessor event
  | DRAGON_KILL => DragonKillProcessor event
  | TURRET_DESTROY => TurretDestroyProcessor event
  | MATCH_END => MatchEndProcessor event
  | UNKNOWN => ret tt
  end.

(** The state-update consumer applies the events in delivery order; an
    exception leaves the consumer loop. *)
Definition process_events (events : list GameEvent.t) : M unit :=
  for_each events process_event.

End Processors.

(** ** Building a [GameEvent] from the event data, and [process_game_event] *)

Section Service.

Variable settings : Settings.
Variable fromisoformat_timestamp : string → option Z.

(** Decoded JSON, [json.loads] ([None] on [JSONDecodeError]) and the
    validation of a decoded payload by each payload model. A model
    answers [Raise ValueError] for a [ValidationError]. *)
Variable JSON : Type.
Variable json_loads : string → option JSON.
Variable MatchStartPayload_validate : JSON → result MatchStartPayload.t.
Variable MinionKillPayload_validate : JSON → result MinionKillPayload.t.
Variable PlayerKillPayload_validate : JSON → result PlayerKillPayload.t.
Variable DragonKillPayload_validate : JSON → result DragonKillPayload.t.
Variable TurretDestroyPayload_validate : JSON → result TurretDestroyPayload.t.
Variable MatchEndPayload_validate : JSON → result MatchEndPayload.t.

(** [resolve_payload] *)
Definition resolve_payload (type_ : EVENT_TYPE) (payload_data : JSON)
  : result Payload :=
  match type_ with
  | MATCH_START =>
      result_bind (MatchStartPayload_validate payload_data) (fun p => Return (PMatchStart p))
  | MINION_KILL =>
      result_bind (MinionKillPayload_validate payload_data) (fun p => Return (PMinionKill p))
  | PLAYER_KILL =>
      result_bind (PlayerKillPayload_validate payload_data) (fun p => Return (PPlayerKill p))
  | DRAGON_KILL =>
      result_bind (DragonKillPayload_validate payload_data) (fun p => Return (PDragonKill p))
  | TURRET_DESTROY =>
      result_bind (TurretDestroyPayload_validate payload_data) (fun p => Return (PTurretDestroy p))
  | MATCH_END =>
      result_bind (MatchEndPayload_validate payload_data) (fun p => Return (PMatchEnd p))
  | UNKNOWN => Return PNone
  end.

(** The [GameEvent] built from [event_data], the payload already decoded. The fields
    are read by their aliases; an absent [type] takes the default. *)
Definition parse_event (event_data : gmap string string) (payload_data : JSON)
  : result GameEvent.t :=
  let type_ :=
    match event_data !! "type" with
    | Some value => GameEvent.validate_type value
    | None => UNKNOWN
    end in
  result_bind (resolve_payload type_ payload_data) (fun payload =>
  Return {| GameEvent.match_id := event_data !! "matchID";
            GameEvent.type_ := type_;
            GameEvent.payload := payload;
            GameEvent.timestamp := event_data !! "timestamp" |}).

(** [process_game_event], from the hash [event_data] that [hgetall]
    returned for the event identifier. *)
Definition process_game_event (event_data : gmap string string) : M unit :=
  if decide (event_data = ∅) then ret tt
  else
    match event_data !! "payload" with
    | Some text =>
        match json_loads text with
        | None => ret tt
        | Some payload_data =>
            match parse_event event_data payload_data with
            | Raise ValueError => ret tt
            | Raise e => raise e
            | Return event => process_event settings fromisoformat_timestamp event
            end
        end
    | None => ret tt
    end.

End Service.

(** The integer a counter field stands for: a missing field counts as 0. *)
Definition counter (s : State) (k : key) (f : string) : Z :=
  match field s k f with
  | Some (VInt n) => n
  | _ => 0
  end.

(** A field that [hincrby] accepts: missing, or an integer. *)
Definition integer_field (s : State) (k : key) (f : string) : Prop :=
  match field s k f with
  | None | Some (VInt _) => True
  | Some _ => False
  end.

(** [hincrby k f (Some a)] is accepted: the field is missing or holds an
    integer, and the amount, the value and their sum fit in 64 bits. *)
Definition accepts (s : State) (k : key) (f : string) (a : Z) : Prop :=
  integer_field s k f
  ∧ int64 a = true
  ∧ int64 (counter s k f) = true
  ∧ int64 (counter s k f + a) = true.

(** ** Relations between the state before and after a computation *)

(** [m] takes every state to a state related to it by [R], whether it
    returns or raises. *)
Definition preserves {A} (R : State → State → Prop) (m : M A) : Prop :=
  ∀ s, R s (m s).1.

(** The field [f] of every hash is left as it was. *)
Definition same_field (f : string) (s s' : State) : Prop :=
  ∀ k, field s' k f = field s k f.

Definition same_registry (s s' : State) : Prop := registry s' = registry s.

(** The counter fields of the player and team hashes. *)
Definition counter_fields : list string :=
  ["gold"; "minion_kills"; "human_kills"; "human_kills_assists";
   "dragon_kills"; "tower_kills"].

(** No counter that holds an integer is lowered. *)
Definition counters_grow (s s' : State) : Prop :=
  ∀ k f n, f ∈ counter_fields → field s k f = Some (VInt n) →
    ∃ n', field s' k f = Some (VInt n') ∧ n <= n'.

(** The gold amounts of an event's payload are not negative. *)
Definition nonneg (amount : option Z) : Prop :=
  ∀ a, amount = Some a → 0 <= a.

Definition gold_nonneg (event : GameEvent.t) : Prop :=
  match GameEvent.payload event with
  | PMinionKill p => nonneg (MinionKillPayload.gold_granted p)
  | PPlayerKill p =>
      nonneg (PlayerKillPayload.gold_granted p)
      ∧ nonneg (PlayerKillPayload.assist_gold p)
  | PDragonKill p => nonneg (DragonKillPayload.gold_granted p)
  | PTurretDestroy p =>
      nonneg (TurretDestroyPayload.player_gold_granted p)
      ∧ nonneg (TurretDestroyPayload.team_gold_granted p)
  | _ => True
  end.

(** The value a list of field writes leaves in field [f], if it writes
    [f]: the last write wins. *)
Fixpoint written (l : list (string * value)) (f : string) : option value :=
  match l with
  | [] => None
  | (f', v) :: l' =>
      match written l' f with
      | Some v' => Some v'
      | None => if String.eqb f' f then Some v else None
      end
  end.

(** The effect of [hset k mapping] on the field [f] of the hash at [k'],
    when the mapping can be sent. *)
Definition hset_update (k : key) (mapping : list (string * option value))
    (k' : key) (f : string) (old : option value) : option value :=
  if decide (k = k') then
    match encode_mapping mapping ≫= (fun l => written l f) with
    | Some v => Some v
    | None => old
    end
  else old.

(** The players of a MATCH_START payload with their teams, in the order
    in which [MatchStartProcessor] visits them. *)
Definition roster (payload : MatchStartPayload.t)
  : list (MatchTeam.t * MatchPlayer.t) :=
  flat_map (fun team => map (fun player => (team, player)) (MatchTeam.players team))
           (MatchStartPayload.teams payload).

(** The identifiers of the other players of the team. *)
Definition siblings (team : MatchTeam.t) (player_id : string) : list string :=
  List.filter (fun q => negb (String.eqb q player_id))
              (map MatchPlayer.player_id (MatchTeam.players team)).

(** ** A small match, used to run the processors on concrete events *)

Definition sample_player (player_id name : string) : MatchPlayer.t :=
  {| MatchPlayer.player_id := player_id; MatchPlayer.gold := 500;
     MatchPlayer.alive := true; MatchPlayer.name := name |}.

Definition sample_team_1 : MatchTeam.t :=
  {| MatchTeam.team_id := "team_1";
     MatchTeam.players := [sample_player "player_1" "Ann";
                           sample_player "player_2" "Bob"] |}.

Definition sample_team_2 : MatchTeam.t :=
  {| MatchTeam.team_id := "team_2";
     MatchTeam.players := [sample_player "player_3" "Cid";
                           sample_player "player_4" "Dee"] |}.

Definition sample_match_start_payload : MatchStartPayload.t :=
  {| MatchStartPayload.fixture :=
       {| GameMetadata.start_time := "2024-01-01T12:00:00+00:00";
          GameMetadata.title := "Final";
          GameMetadata.series_current := 1;
          GameMetadata.series_max := 3;
          GameMetadata.series_type := "bo3" |};
     MatchStartPayload.teams := [sample_team_1; sample_team_2] |}.

Definition sample_match_start : GameEvent.t :=
  {| GameEvent.match_id := Some "game_1";
     GameEvent.type_ := MATCH_START;
     GameEvent.payload := PMatchStart sample_match_start_payload;
     GameEvent.timestamp := Some "2024-01-01T12:00:00+00:00" |}.

(** The state after the sample MATCH_START on the empty store. *)
Definition sample_state : State := (MatchStartProcessor sample_match_start empty_state).1.

(** ** ISO 8601 strings in UTC

    [datetime.fromisoformat(s).timestamp()] on the two UTC forms
    [YYYY-MM-DDTHH:MM:SS+00:00] and [YYYY-MM-DDTHH:MM:SSZ]. The processors
    take the conversion as a parameter; this instance is the one the
    concrete runs below use, and it answers [None] outside these forms. *)

Module Iso.

Definition digit_value (c : ascii) : option Z :=
  let n := Z.of_nat (nat_of_ascii c) in
  if (48 <=? n) && (n <=? 57) then Some (n - 48) else None.

(** The number written by a string of decimal digits. *)
Fixpoint number_from (acc : Z) (s : string) : option Z :=
  match s with
  | EmptyString => Some acc
  | String c s' =>
      match digit_value c with
      | Some d => number_from (10 * acc + d) s'
      | None => None
      end
  end.

Definition number (s : string) : option Z :=
  match s with
  | EmptyString => None
  | _ => number_from 0 s
  end.

Definition is_leap (y : Z) : bool :=
  ((y mod 4 =? 0) && negb (y mod 100 =? 0)) || (y mod 400 =? 0).

Definition days_in_month (y m : Z) : Z :=
  if m =? 2 then (if is_leap y then 29 else 28)
  else if (m =? 4) || (m =? 6) || (m =? 9) || (m =? 11) then 30
  else 31.

Definition utc_timestamp (s : string) : option Z :=
  let part (start len : nat) := String.substring start len s in
  let suffix := String.substring 19%nat (String.length s - 19)%nat s in
  if String.eqb (part 4%nat 1%nat) "-" && String.eqb (part 7%nat 1%nat) "-"
     && String.eqb (part 10%nat 1%nat) "T" && String.eqb (part 13%nat 1%nat) ":"
     && String.eqb (part 16%nat 1%nat) ":"
     && (String.eqb suffix "+00:00" || String.eqb suffix "Z")
  then
    y ← number (part 0%nat 4%nat); mo ← number (part 5%nat 2%nat); d ← number (part 8%nat 2%nat);
    h ← number (part 11%nat 2%nat); mi ← number (part 14%nat 2%nat); sec ← number (part 17%nat 2%nat);
    if (Datetime.MINYEAR <=? y) && (1 <=? mo) && (mo <=? 12)
       && (1 <=? d) && (d <=? days_in_month y mo)
       && (h <? 24) && (mi <? 60) && (sec <? 60)
    then Some (Datetime.days_from_civil y mo d * 86400 + h * 3600 + mi * 60 + sec)
    else None
  else None.

End Iso.

Definition sample_minion_kill : GameEvent.t :=
  {| GameEvent.match_id := Some "game_1";
     GameEvent.type_ := MINION_KILL;
     GameEvent.payload :=
       PMinionKill {| MinionKillPayload.player_id := "player_1";
                      MinionKillPayload.gold_granted := Some 20 |};
     GameEvent.timestamp := Some "2024-01-01T12:01:05+00:00" |}.

Definition sample_player_kill : GameEvent.t :=
  {| GameEvent.match_id := Some "game_1";
     GameEvent.type_ := PLAYER_KILL;
     GameEvent.payload :=
       PPlayerKill {| PlayerKillPayload.killer_id := Some "player_1";
                      PlayerKillPayload.victim_id := Some "player_3";
                      PlayerKillPayload.gold_granted := Some 300;
                      PlayerKillPayload.assistants := Some ["player_2"];
                      PlayerKillPayload.assist_gold := Some 150 |};
     GameEvent.timestamp := Some "2024-01-01T12:01:10+00:00" |}.

Definition sample_turret_destroy : GameEvent.t :=
  {| GameEvent.match_id := Some "game_1";
     GameEvent.type_ := TURRET_DESTROY;
     GameEvent.payload :=
       PTurretDestroy {| TurretDestroyPayload.killer_id := Some "player_1";
                         TurretDestroyPayload.killer_team_id := Some "team_1";
                         TurretDestroyPayload.turret_tier := Some 1;
                         TurretDestroyPayload.turret_lane := Some "mid";
                         TurretDestroyPayload.player_gold_granted := Some 250;
                         TurretDestroyPayload.team_gold_granted := Some 100 |};
     GameEvent.timestamp := Some "2024-01-01T12:02:00+00:00" |}.

Definition sample_match_end : GameEvent.t :=
  {| GameEvent.match_id := Some "game_1";
     GameEvent.type_ := MATCH_END;
     GameEvent.payload := PMatchEnd {| MatchEndPayload.winning_team_id := "team_1" |};
     GameEvent.timestamp := Some "2024-01-01T12:30:00+00:00" |}.

Definition sample_events : list GameEvent.t :=
  [sample_minion_kill; sample_player_kill; sample_turret_destroy; sample_match_end].

(** A MINION_KILL that carries no timestamp. *)
Definition sample_minion_kill_untimed : GameEvent.t :=
  {| GameEvent.match_id := Some "game_1";
     GameEvent.type_ := MINION_KILL;
     GameEvent.payload :=
       PMinionKill {| MinionKillPayload.player_id := "player_1";
                      MinionKillPayload.gold_granted := Some 20 |};
     GameEvent.timestamp := None |}.

(** A MINION_KILL that grants no gold. *)
Definition sample_minion_kill_no_gold : GameEvent.t :=
  {| GameEvent.match_id := Some "game_1";
     GameEvent.type_ := MINION_KILL;
     GameEvent.payload :=
       PMinionKill {| MinionKillPayload.player_id := "player_1";
                      MinionKillPayload.gold_granted := None |};
     GameEvent.timestamp := Some "2024-01-01T12:01:05+00:00" |}.

(** A PLAYER_KILL that lists an assistant but no [assistGold]. *)
Definition sample_assist_without_gold : GameEvent.t :=
  {| GameEvent.match_id := Some "game_1";
     GameEvent.type_ := PLAYER_KILL;
     GameEvent.payload :=
       PPlayerKill {| PlayerKillPayload.killer_id := None;
                      PlayerKillPayload.victim_id := Some "player_3";
                      PlayerKillPayload.gold_granted := None;
                      PlayerKillPayload.assistants := Some ["player_2"];
                      PlayerKillPayload.assist_gold := None |};
     GameEvent.timestamp := Some "2024-01-01T12:01:10+00:00" |}.

(** A PLAYER_KILL with a timestamp and nothing else. *)
Definition sample_anonymous_kill : GameEvent.t :=
  {| GameEvent.match_id := Some "game_1";
     GameEvent.type_ := PLAYER_KILL;
     GameEvent.payload :=
       PPlayerKill {| PlayerKillPayload.killer_id := None;
                      PlayerKillPayload.victim_id := None;
                      PlayerKillPayload.gold_granted := Some 300;
                      PlayerKillPayload.assistants := None;
                      PlayerKillPayload.assist_gold := None |};
     GameEvent.timestamp := Some "2024-01-01T12:00:30+00:00" |}.

(** ** First blood *)

(** A timestamp stored in [first_blood] is kept or replaced by an earlier
    one. *)
Definition first_blood_falls (s s' : State) : Prop :=
  ∀ k c, field s k "first_blood" = Some (VFloat c) →
    ∃ c', field s' k "first_blood" = Some (VFloat c') ∧ c' <= c.

(** What the first-blood block stores for a kill at [t] when it read
    [old]: [t] over the sentinel, else the earlier of the two. *)
Definition first_blood_write (old : option value) (t : Z) : option value :=
  if is_sentinel old then Some (VFloat t)
  else
    match float old with
    | Return current => if t <? current then Some (VFloat t) else old
    | Raise _ => old
    end.

(** The match hash the first-blood block of a PLAYER_KILL addresses. *)
Definition first_blood_key (cls : PlayerRegistry.t)
    (payload : PlayerKillPayload.t) : key :=
  get_game_state_key
    (py_or (PlayerKillPayload.killer_id payload)
           (PlayerKillPayload.victim_id payload)
       ≫= PlayerRegistry.get_match_id_for_player cls).

(** The timestamp the first-blood block of a PLAYER_KILL considers: the
    event's timestamp, unless the kill has neither killer nor victim. *)
Definition first_blood_timestamp (iso : string → option Z)
    (event : GameEvent.t) (payload : PlayerKillPayload.t) : option Z :=
  match GameEvent.timestamp event with
  | Some ts =>
      match PlayerKillPayload.killer_id payload,
            PlayerKillPayload.victim_id payload with
      | None, None => None
      | _, _ => iso ts
      end
  | None => None
  end.

(** The timestamp an event offers as first blood of the match hash [k]. *)
Definition first_blood_candidate (iso : string → option Z)
    (cls : PlayerRegistry.t) (k : key) (event : GameEvent.t) : option Z :=
  match GameEvent.type_ event, GameEvent.payload event with
  | PLAYER_KILL, PPlayerKill payload =>
      if decide (first_blood_key cls payload = k)
      then first_blood_timestamp iso event payload
      else None
  | _, _ => None
  end.

(** The least of [t] and the elements of [ts]. *)
Definition minimum (t : Z) (ts : list Z) : Z := fold_left Z.min ts t.

(** A PLAYER_KILL delivered after [sample_player_kill] but dated before it. *)
Definition sample_earlier_kill : GameEvent.t :=
  {| GameEvent.match_id := Some "game_1";
     GameEvent.type_ := PLAYER_KILL;
     GameEvent.payload :=
       PPlayerKill {| PlayerKillPayload.killer_id := Some "player_3";
                      PlayerKillPayload.victim_id := Some "player_1";
                      PlayerKillPayload.gold_granted := Some 300;
                      PlayerKillPayload.assistants := None;
                      PlayerKillPayload.assist_gold := None |};
     GameEvent.timestamp := Some "2024-01-01T12:01:00+00:00" |}.

Definition sample_kills : list GameEvent.t :=
  [sample_minion_kill; sample_player_kill; sample_anonymous_kill;
   sample_earlier_kill].

(** The players a TURRET_DESTROY visits are registered to a match and
    the store accepts the gold each of them is granted. *)
Definition turret_ready (payload : TurretDestroyPayload.t) (killer_id : string)
    (s : State) (players : list string) : Prop :=
  ∀ p, p ∈ players →
    ∃ m, PlayerRegistry.get_match_id_for_player (registry s) p = Some m
         ∧ match turret_gold payload killer_id p with
           | Some g => accepts s (PlayerKey m p) "gold" g
           | None => True
           end.

(** No player identifier is registered twice (a [dict] has each key once). *)
Definition registry_wf (cls : PlayerRegistry.t) : Prop :=
  NoDup (map fst (PlayerRegistry._matches cls)).

(** A TURRET_DESTROY whose killer team is not given. *)
Definition sample_turret_without_team : GameEvent.t :=
  {| GameEvent.match_id := Some "game_1";
     GameEvent.type_ := TURRET_DESTROY;
     GameEvent.payload :=
       PTurretDestroy {| TurretDestroyPayload.killer_id := Some "player_1";
                         TurretDestroyPayload.killer_team_id := None;
                         TurretDestroyPayload.turret_tier := None;
                         TurretDestroyPayload.turret_lane := None;
                         TurretDestroyPayload.player_gold_granted := Some 250;
                         TurretDestroyPayload.team_gold_granted := Some 100 |};
     GameEvent.timestamp := None |}.

Definition sample_dragon_kill : GameEvent.t :=
  {| GameEvent.match_id := Some "game_1";
     GameEvent.type_ := DRAGON_KILL;
     GameEvent.payload :=
       PDragonKill {| DragonKillPayload.killer_id := "player_3";
                      DragonKillPayload.dragon_type := Some "fire";
                      DragonKillPayload.gold_granted := Some 200 |};
     GameEvent.timestamp := Some "2024-01-01T12:05:00+00:00" |}.

(** The value of a member of [EVENT_TYPE]. *)
Definition EVENT_TYPE_value (type_ : EVENT_TYPE) : string :=
  match type_ with
  | MATCH_START => "MATCH_START"
  | MINION_KILL => "MINION_KILL"
  | PLAYER_KILL => "PLAYER_KILL"
  | DRAGON_KILL => "DRAGON_KILL"
  | TURRET_DESTROY => "TURRET_DESTROY"
  | MATCH_END => "MATCH_END"
  | UNKNOWN => "UNKNOWN"
  end.

(** A stand-in for the JSON layer in concrete runs: the decoded payload
    is its text, the empty text is not JSON, and no payload validates. *)
Definition sample_json_loads (text : string) : option string :=
  if String.eqb text "" then None else Some text.

Definition sample_process_game_event : gmap string string → M unit :=
  process_game_event default_settings Iso.utc_timestamp string sample_json_loads
    (fun _ => Raise ValueError) (fun _ => Raise ValueError)
    (fun _ => Raise ValueError) (fun _ => Raise ValueError)
    (fun _ => Raise ValueError) (fun _ => Raise ValueError).

(** Event data with a type tag that is not a member of [EVENT_TYPE]. *)
Definition sample_respawn_data : gmap string string :=
  <["type" := "RESPAWN"]> (<["matchID" := "game_1"]> (<["payload" := "{}"]> ∅)).

(** Event data whose payload fails validation. *)
Definition sample_invalid_data : gmap string string :=
  <["type" := "MATCH_END"]> (<["payload" := "{}"]> ∅).

(** The histories of a player as [zrange] returns them. *)
Definition kill_history_of (s : State) (m p : string) : list kill :=
  default [] (kill_zsets (redis s) !! KillHistoryKey m p).

Definition death_history_of (s : State) (m p : string) : list Z :=
  default [] (death_zsets (redis s) !! DeathHistoryKey m p).

(** The registry and the histories are those of [s0]. *)
Definition same_histories (s0 s : State) : Prop :=
  registry s = registry s0
  ∧ kill_zsets (redis s) = kill_zsets (redis s0)
  ∧ death_zsets (redis s) = death_zsets (redis s0).

(** The labels MatchEndProcessor stores for a player: those of the
    player's kill history, if [calculate_kill_streaks] returns. *)
Definition kill_streaks_of (settings : Settings) (s : State) (m p : string)
  : result (list string) :=
  calculate_kill_streaks (map timestamp (kill_history_of s m p))
    (kill_streak_time_window settings).

(** The mappings MatchEndProcessor writes to the hash of player [p], from
    the histories of the state [s0]. *)
Definition streaks_mapping (settings : Settings) (m : string) (s0 : State)
    (p : string) : list (string * option value) :=
  [("kill_streaks",
    Some (VStrList match kill_streaks_of settings s0 m p with
                   | Return labels => labels
                   | Raise _ => []
                   end))].

Definition spree_mapping (m : string) (s0 : State) (p : string)
  : list (string * option value) :=
  [("max_killing_spree",
    Some (VInt (calculate_max_killing_spree (kill_history_of s0 m p)
                  (death_history_of s0 m p))))].

(** The sample match after a minion kill and a player kill. *)
Definition sample_played_state : State :=
  (process_events default_settings Iso.utc_timestamp
     [sample_minion_kill; sample_player_kill] sample_state).1.

(** *** The killing spree, by the deaths

    The human kills from a death (or from the start, [lo = None]) up to the
    next death [hi]: a kill at the instant of a death belongs to the spree
    that follows it. *)
Definition kills_within (lo : option Z) (hi : Z) (kills : list Z) : Z :=
  Z.of_nat
    (length
       (List.filter
          (fun k => match lo with Some l => l <=? k | None => true end && (k <? hi))
          kills)).

(** One count per death: the kills of the spree that this death ends. *)
Fixpoint sprees (lo : option Z) (deaths kills : list Z) : list Z :=
  match deaths with
  | [] => []
  | d :: deaths' => kills_within lo d kills :: sprees (Some d) deaths' kills
  end.

Definition longest (counts : list Z) : Z := fold_right Z.max 0 counts.

(** *** The order of the histories

    A sorted set is read in the order of the scores, members of the same
    score in the order of their texts. *)
Definition kills_sorted (l : list kill) : Prop :=
  StronglySorted (fun a b => kill_before a b = true) l.

Definition deaths_sorted (l : list Z) : Prop := StronglySorted Z.lt l.

Definition histories_sorted (s : State) : Prop :=
  (∀ k l, kill_zsets (redis s) !! k = Some l → kills_sorted l)
  ∧ (∀ k l, death_zsets (redis s) !! k = Some l → deaths_sorted l).

(** A step that keeps the histories in order. *)
Definition keeps_sorted (s s' : State) : Prop :=
  histories_sorted s → histories_sorted s'.

(** [max_killing_spree_label]: the value is capped at 7, then looked up in
    [label_map]. *)
Definition max_killing_spree_label (max_killing_spree : Z) : option string :=
  let max_killing_spree :=
    if 7 <? max_killing_spree then 7 else max_killing_spree in
  match max_killing_spree with
  | 3 => Some "Killing Spree"
  | 4 => Some "Rampage"
  | 5 => Some "Unstoppable"
  | 6 => Some "Dominating"
  | 7 => Some "Godlike"
  | _ => None
  end.

(** *** Identifiers and key names *)

(** An identifier that holds no colon, the separator of the key names. *)
Fixpoint colon_free (s : string) : bool :=
  match s with
  | EmptyString => true
  | String c s' => negb (Ascii.eqb c ":") && colon_free s'
  end.

(** What follows an identifier in a key name: nothing, or a colon. *)
Definition key_suffix (r : string) : Prop :=
  r = "" ∨ ∃ r', r = String ":" r'.

(** The identifiers a key is made of. *)
Definition key_ids (k : key) : list string :=
  match k with
  | GameKey m => [m]
  | TeamKey m t => [m; t]
  | PlayerKey m p | KillHistoryKey m p | DeathHistoryKey m p => [m; p]
  end.

(** ** [app/game_state/services.py]: reading the state back

    [GameState.from_database] reads the hashes of a match and of the teams
    and players that its [teams] index lists. It writes nothing. *)

(** [from_unix_timestamp]: [datetime.fromtimestamp(t, UTC).isoformat()],
    for a timestamp without a fraction of a second. *)
Definition isoformat (dt : Datetime.datetime) : string :=
  Datetime.zero_padded 4 (Datetime.year dt) +:+ "-" +:+
  Datetime.zero_padded 2 (Datetime.month dt) +:+ "-" +:+
  Datetime.zero_padded 2 (Datetime.day dt) +:+ "T" +:+
  Datetime.zero_padded 2 (Datetime.hour dt) +:+ ":" +:+
  Datetime.zero_padded 2 (Datetime.minute dt) +:+ ":" +:+
  Datetime.zero_padded 2 (Datetime.second dt) +:+ "+00:00".

Definition from_unix_timestamp (timestamp : Z) : result string :=
  result_bind (Datetime.fromtimestamp timestamp) (fun dt => Return (isoformat dt)).

(** What stops a read: a field that a hash does not hold, an exception of
    a conversion, or a model that does not validate. *)
Inductive read_error :=
| KeyError (field : string)
| Raised (e : exn)
| ValidationError.

Definition read (A : Type) : Type := (read_error + A)%type.

Definition read_bind {A B} (r : read A) (k : A → read B) : read B :=
  match r with
  | inr a => k a
  | inl e => inl e
  end.

Notation "x <~ r ;; k" := (read_bind r (fun x => k))
  (at level 20, r at level 99, k at level 200, only parsing).

(** [redis.hgetall(k)]: the empty dict when there is no hash at [k]. *)
Definition hgetall (s : State) (k : key) : gmap string value :=
  default ∅ (hashes (redis s) !! k).

(** [data[f]] *)
Definition item (data : gmap string value) (f : string) : read value :=
  match data !! f with
  | Some v => inr v
  | None => inl (KeyError f)
  end.

Definition converted {A} (r : result A) : read A :=
  match r with
  | Return a => inr a
  | Raise e => inl (Raised e)
  end.

Definition validated {A} (o : option A) : read A :=
  match o with
  | Some a => inr a
  | None => inl ValidationError
  end.

(** [app/game_state/models.py]. The [str] fields hold the stored text as
    it is. *)
Module PlayerState.
Record t := {
  player_id : value;
  name : value;
  alive : bool;
  gold : Z;
  human_kills : Z;
  human_kills_assists : Z;
  minion_kills : Z;
  kill_streaks : list string;
  max_killing_spree : option string
}.
End PlayerState.

Module TeamState.
Record t := {
  team_id : string;
  dragon_kills : Z;
  tower_kills : Z;
  players : list (string * PlayerState.t)
}.
End TeamState.

(** The attributes of the service object [GameState]. *)
Module GameState.
Record t := {
  match_id : value;
  title : value;
  start_time : value;
  series_type : value;
  series_current : value;
  series_max : value;
  winning_team_id : value;
  first_blood : string;
  teams : list (string * TeamState.t)
}.
End GameState.

Section FromDatabase.

(** The conversions of the texts that Redis returns are those of the
    libraries: [json.loads] ([JSONDecodeError] is a [ValueError]); the
    [teams] index as a list of team ids with their player ids, raising
    when the JSON value is not of that form; [int]; and the coercions of
    pydantic to [bool], [int] and [list[str]], [None] when the model does
    not validate. *)
Variable JSON : Type.
Variable json_loads : value → result JSON.
Variable teams_of : JSON → result (list (string * list string)).
Variable int_ : value → result Z.
Variable validate_bool : value → option bool.
Variable validate_int : value → option Z.
Variable validate_str_list : JSON → option (list string).

(** The body of [for player_id in team_data["players"]], up to the
    assignment to [player_states]: the arguments of [models.PlayerState]
    are evaluated in order, then the model is validated. *)
Definition read_player (match_id : string) (s : State) (player_id : string)
  : read PlayerState.t :=
  let player_state_data := hgetall s (PlayerKey match_id player_id) in
  id <~ item player_state_data "player_id" ;;
  name <~ item player_state_data "name" ;;
  alive <~ item player_state_data "alive" ;;
  gold <~ item player_state_data "gold" ;;
  human_kills <~ item player_state_data "human_kills" ;;
  human_kills_assists <~ item player_state_data "human_kills_assists" ;;
  minion_kills <~ item player_state_data "minion_kills" ;;
  kill_streaks_text <~ item player_state_data "kill_streaks" ;;
  kill_streaks <~ converted (json_loads kill_streaks_text) ;;
  max_killing_spree_text <~ item player_state_data "max_killing_spree" ;;
  max_killing_spree <~ converted (int_ max_killing_spree_text) ;;
  validated (
    alive ← validate_bool alive;
    gold ← validate_int gold;
    human_kills ← validate_int human_kills;
    human_kills_assists ← validate_int human_kills_assists;
    minion_kills ← validate_int minion_kills;
    kill_streaks ← validate_str_list kill_streaks;
    Some {| PlayerState.player_id := id;
            PlayerState.name := name;
            PlayerState.alive := alive;
            PlayerState.gold := gold;
            PlayerState.human_kills := human_kills;
            PlayerState.human_kills_assists := human_kills_assists;
            PlayerState.minion_kills := minion_kills;
            PlayerState.kill_streaks := kill_streaks;
            PlayerState.max_killing_spree :=
              max_killing_spree_label max_killing_spree |}).

(** [for player_id in team_data["players"]] *)
Fixpoint read_players (match_id : string) (s : State) (player_ids : list string)
    (player_states : list (string * PlayerState.t))
  : read (list (string * PlayerState.t)) :=
  match player_ids with
  | [] => inr player_states
  | player_id :: player_ids' =>
      player_state <~ read_player match_id s player_id ;;
      read_players match_id s player_ids'
        (dict_set player_states player_id player_state)
  end.

(** The body of [for team_data in teams_data]. *)
Definition read_team (match_id : string) (s : State)
    (team_data : string * list string) : read TeamState.t :=
  let team_id := fst team_data in
  let team_state_data := hgetall s (TeamKey match_id team_id) in
  player_states <~ read_players match_id s (snd team_data) [] ;;
  dragon_kills_text <~ item team_state_data "dragon_kills" ;;
  dragon_kills <~ converted (int_ dragon_kills_text) ;;
  tower_kills_text <~ item team_state_data "tower_kills" ;;
  tower_kills <~ converted (int_ tower_kills_text) ;;
  inr {| TeamState.team_id := team_id;
         TeamState.dragon_kills := dragon_kills;
         TeamState.tower_kills := tower_kills;
         TeamState.players := player_states |}.

Fixpoint read_teams (match_id : string) (s : State)
    (teams_data : list (string * list string))
    (team_states : list (string * TeamState.t))
  : read (list (string * TeamState.t)) :=
  match teams_data with
  | [] => inr team_states
  | team_data :: teams_data' =>
      team_state <~ read_team match_id s team_data ;;
      read_teams match_id s teams_data'
        (dict_set team_states (fst team_data) team_state)
  end.

(** [GameState.from_database(match_id)] *)
Definition from_database (match_id : string) (s : State) : read GameState.t :=
  let game_state_data := hgetall s (GameKey match_id) in
  teams_text <~ item game_state_data "teams" ;;
  teams_json <~ converted (json_loads teams_text) ;;
  teams_data <~ converted (teams_of teams_json) ;;
  team_states <~ read_teams match_id s teams_data [] ;;
  id <~ item game_state_data "match_id" ;;
  title <~ item game_state_data "title" ;;
  start_time <~ item game_state_data "start_time" ;;
  series_type <~ item game_state_data "series_type" ;;
  series_current <~ item game_state_data "series_current" ;;
  series_max <~ item game_state_data "series_max" ;;
  winning_team_id <~ item game_state_data "winning_team_id" ;;
  first_blood_text <~ item game_state_data "first_blood" ;;
  first_blood <~ converted (float (Some first_blood_text)) ;;
  first_blood <~ converted (from_unix_timestamp first_blood) ;;
  inr {| GameState.match_id := id;
         GameState.title := title;
         GameState.start_time := start_time;
         GameState.series_type := series_type;
         GameState.series_current := series_current;
         GameState.series_max := series_max;
         GameState.winning_team_id := winning_team_id;
         GameState.first_blood := first_blood;
         GameState.teams := team_states |}.

End FromDatabase.

(** Conversions for the values that the processors write: an integer
    reads as an integer, [alive] as a boolean, the JSON fields as what was
    dumped. *)
Definition sample_teams_of (v : value) : result (list (string * list string)) :=
  match v with
  | VTeams l => Return l
  | _ => Raise TypeError
  end.

Definition sample_int (v : value) : result Z :=
  match v with
  | VInt n => Return n
  | _ => Raise ValueError
  end.

Definition sample_validate_bool (v : value) : option bool :=
  match v with
  | VInt 0 => Some false
  | VInt 1 => Some true
  | _ => None
  end.

Definition sample_validate_int (v : value) : option Z :=
  match v with
  | VInt n => Some n
  | _ => None
  end.

Definition sample_validate_str_list (v : value) : option (list string) :=
  match v with
  | VStrList l => Some l
  | _ => None
  end.

Definition sample_from_database : string → State → read GameState.t :=
  from_database value Return sample_teams_of sample_int sample_validate_bool
    sample_validate_int sample_validate_str_list.

(** The sample match, played to its end. *)
Definition sample_final_state : State :=
  (process_events default_settings Iso.utc_timestamp sample_events sample_state).1.

(** *** The calendar, apart from the conversion

    The proleptic Gregorian calendar as [datetime] documents it: leap
    years, the days of the months, and the ordinal of a date, which counts
    the days from 0001-01-01 (ordinal 1); 1970-01-01 has ordinal 719163. *)
Module Calendar.

Definition days_before_year (y : Z) : Z :=
  let p := y - 1 in 365 * p + p / 4 - p / 100 + p / 400.

(** The days of the months of year [y] before month [m]. *)
Definition days_before_month (y m : Z) : Z :=
  fold_right Z.add 0
    (map (Iso.days_in_month y) (map Z.of_nat (seq 1 (Z.to_nat (m - 1))))).

Definition leap_day (y : Z) : Z := if Iso.is_leap y then 1 else 0.

Definition toordinal (y m d : Z) : Z :=
  days_before_year y + days_before_month y m + d.

Definition EPOCH : Z := 719163.

(** [dt] is a date of the calendar and a time of the day, [t] seconds
    from 1970-01-01 00:00:00. *)
Definition utc_datetime (t : Z) (dt : Datetime.datetime) : Prop :=
  1 <= Datetime.month dt <= 12
  ∧ 1 <= Datetime.day dt
      <= Iso.days_in_month (Datetime.year dt) (Datetime.month dt)
  ∧ 0 <= Datetime.hour dt < 24
  ∧ 0 <= Datetime.minute dt < 60
  ∧ 0 <= Datetime.second dt < 60
  ∧ t = (toordinal (Datetime.year dt) (Datetime.month dt) (Datetime.day dt)
         - EPOCH) * 86400
        + Datetime.hour dt * 3600 + Datetime.minute dt * 60 + Datetime.second dt.

(** [text] writes [n] in decimal on [width] digits. *)
Definition decimal (width : nat) (n : Z) (text : string) : Prop :=
  String.length text = width ∧ Iso.number text = Some n.

(** [text] is [dt] in the format [%Y-%m-%d %H:%M:%S]: the year in decimal
    without a leading zero, the other fields on two digits. *)
Definition formatted (dt : Datetime.datetime) (text : string) : Prop :=
  ∃ yyyy mm dd HH MM SS : string,
    text = yyyy +:+ "-" +:+ mm +:+ "-" +:+ dd +:+ " "
           +:+ HH +:+ ":" +:+ MM +:+ ":" +:+ SS
    ∧ Iso.number yyyy = Some (Datetime.year dt)
    ∧ 10 ^ (Z.of_nat (String.length yyyy) - 1) <= Datetime.year dt
    ∧ decimal 2 (Datetime.month dt) mm
    ∧ decimal 2 (Datetime.day dt) dd
    ∧ decimal 2 (Datetime.hour dt) HH
    ∧ decimal 2 (Datetime.minute dt) MM
    ∧ decimal 2 (Datetime.second dt) SS.

(** The timestamps that [datetime] represents: years 1 to 9999. *)
Definition MIN_TIMESTAMP : Z := -62135596800.
Definition MAX_TIMESTAMP : Z := 253402300799.

(** 1000-01-01 00:00:00. *)
Definition YEAR_1000 : Z := -30610224000.

End Calendar.

(** ** The labels of the kill streaks, apart from the code *)

(** The names of the runs of two to five kills. *)
Inductive streak_name : nat → string → Prop :=
| Double_Kill : streak_name 2 "Double Kill"
| Triple_Kill : streak_name 3 "Triple Kill"
| Quadra_Kill : streak_name 4 "Quadra Kill"
| Penta_Kill : streak_name 5 "Penta Kill".

(** The timestamps of the years 1 to 9999. *)
Definition representable (t : Z) : Prop :=
  Calendar.MIN_TIMESTAMP <= t <= Calendar.MAX_TIMESTAMP.

(** [label] is ["<Label> at <date> <time>"] for the name of [run] and the
    date and the time of the day of its last kill in UTC; from the year
    1000 on the date and the time are the 19 characters
    [YYYY-MM-DD HH:MM:SS]. *)
Definition label_of_run (run : list Z) (label : string) : Prop :=
  ∃ name dt text,
    streak_name (length run) name
    ∧ Calendar.utc_datetime (last_item run) dt
    ∧ Calendar.formatted dt text
    ∧ (Calendar.YEAR_1000 <= last_item run → String.length text = 19%nat)
    ∧ label = name +:+ " at " +:+ text.

(** * Properties *)

(** ** Strings *)

Lemma append_String (c : ascii) (s r : string) :
  String c s +:+ r = String c (s +:+ r).
Proof. reflexivity. Qed.

Lemma append_empty_l (r : string) : "" +:+ r = r.
Proof. reflexivity. Qed.

Lemma append_inj_l (s a b : string) : s +:+ a = s +:+ b → a = b.
Proof.
  induction s as [| c s IH]; rewrite ?append_String, ?append_empty_l; [done |].
  intros [= H]. auto.
Qed.

Lemma append_empty_r (s : string) : s +:+ "" = s.
Proof.
  induction s as [| c s IH]; rewrite ?append_String, ?append_empty_l; [done |].
  by rewrite IH.
Qed.


(** ** Kill streaks *)

Section KillStreaks.

Variable streak_window : Z.

Lemma drop_getitem (ts : list Z) (j : nat) :
  (j < length ts)%nat → drop j ts = getitem ts j :: drop (j + 1) ts.
Proof.
  intros Hj. destruct (lookup_lt_is_Some_2 ts j Hj) as [x Hx].
  unfold getitem. rewrite nth_lookup, Hx. simpl.
  rewrite Nat.add_1_r. by apply drop_S.
Qed.

(** The inner loop computes the first run of the segmentation and stops
    on the index where the next run begins. *)
Lemma streak_inner_runs ts cur j :
  runs_from streak_window cur (drop j ts)
  = fst (streak_inner ts streak_window cur j)
    :: kill_runs streak_window (drop (snd (streak_inner ts streak_window cur j)) ts).
Proof.
  funelim (streak_inner ts streak_window cur j).
  - rewrite (drop_getitem _ _ l). simpl runs_from.
    destruct (_ && _); [assumption |].
    simpl. rewrite (drop_getitem _ _ l). reflexivity.
  - simpl. rewrite drop_ge by lia. reflexivity.
Qed.

Lemma streak_outer_runs ts streaks i :
  streak_outer ts streak_window streaks i
  = emit_runs streaks (kill_runs streak_window (drop i ts)).
Proof.
  funelim (streak_outer ts streak_window streaks i).
  - rewrite (drop_getitem _ _ l). simpl kill_runs.
    rewrite streak_inner_runs. simpl emit_runs.
    destruct (streak_emit _ _); simpl; [| reflexivity].
    match goal with IH : ∀ s, streak_outer _ _ s _ = _ |- _ => apply IH end.
  - rewrite drop_ge by lia. reflexivity.
Qed.

Lemma streak_label_name n fmt :
  (2 <= n <= 5)%nat →
  streak_label n fmt = Some (label_name n +:+ " at " +:+ fmt).
Proof.
  intros Hn.
  assert (n = 2 ∨ n = 3 ∨ n = 4 ∨ n = 5)%nat as [-> | [-> | [-> | ->]]] by lia;
    reflexivity.
Qed.

Lemma streak_emit_label streaks run :
  (length run <= 5)%nat →
  streak_emit streaks run
  = if multi_kill run
    then result_bind (run_label run) (fun l => Return (streaks ++ [l]))
    else Return streaks.
Proof.
  intros Hlen. unfold streak_emit, multi_kill, run_label.
  destruct (2 <=? length run)%nat eqn:H2; [| reflexivity].
  apply Nat.leb_le in H2.
  destruct (Datetime.fromtimestamp _); simpl; [| reflexivity].
  rewrite streak_label_name by lia. reflexivity.
Qed.

Lemma emit_runs_labels runs : ∀ streaks,
  Forall (fun r => (length r <= 5)%nat) runs →
  emit_runs streaks runs
  = result_bind (result_map run_label (List.filter multi_kill runs))
      (fun ls => Return (streaks ++ ls)).
Proof.
  induction runs as [| r runs IH]; intros streaks Hall; simpl.
  - by rewrite app_nil_r.
  - inversion_clear Hall as [| ? ? Hr Hrest].
    rewrite streak_emit_label by assumption.
    destruct (multi_kill r); simpl.
    + destruct (run_label r) as [lbl |]; simpl; [| reflexivity].
      rewrite IH by assumption.
      destruct (result_map _ _); simpl; [| reflexivity].
      by rewrite <- app_assoc.
    + by apply IH.
Qed.

(** *** Shape of the runs *)

Lemma runs_from_first run rest :
  ∃ r rs, runs_from streak_window run rest = (run ++ r) :: rs.
Proof.
  revert run. induction rest as [| t rest IH]; intros run; simpl.
  - exists [], []. by rewrite app_nil_r.
  - destruct (_ && _).
    + destruct (IH (run ++ [t])) as (r & rs & ->).
      exists (t :: r), rs. by rewrite <- app_assoc.
    + exists [], (runs_from streak_window [t] rest). by rewrite app_nil_r.
Qed.

Lemma runs_from_concat run rest :
  concat (runs_from streak_window run rest) = run ++ rest.
Proof.
  revert run. induction rest as [| t rest IH]; intros run; simpl.
  - by rewrite !app_nil_r.
  - destruct (_ && _); simpl.
    + rewrite IH. by rewrite <- app_assoc.
    + by rewrite IH.
Qed.

Lemma runs_from_length run rest :
  (1 <= length run <= 5)%nat →
  Forall (fun r => (1 <= length r <= 5)%nat) (runs_from streak_window run rest).
Proof.
  revert run. induction rest as [| t rest IH]; intros run Hrun; simpl.
  - by constructor.
  - destruct (_ && _) eqn:Hc.
    + apply IH. apply andb_prop in Hc as [_ Hc%Nat.ltb_lt].
      rewrite length_app. simpl. lia.
    + constructor; [assumption |]. apply IH. simpl. lia.
Qed.

Lemma last_item_snoc l x : last_item (l ++ [x]) = x.
Proof. unfold last_item. apply last_last. Qed.

Lemma gaps_within_snoc run t :
  gaps_within streak_window run →
  t - last_item run <= streak_window →
  run ≠ [] →
  gaps_within streak_window (run ++ [t]).
Proof.
  intros Hg Ht Hne i a b Ha Hb.
  destruct (decide (S i < length run)%nat) as [Hlt | Hge].
  - rewrite lookup_app_l in Ha by lia. rewrite lookup_app_l in Hb by lia. eauto.
  - assert (length (run ++ [t]) = S (length run)) as Hlen
        by (rewrite length_app; simpl; lia).
    apply lookup_lt_Some in Hb as Hb'. rewrite Hlen in Hb'.
    assert (S i = length run) as Hi by lia.
    rewrite lookup_app_r in Hb by lia.
    replace (S i - length run)%nat with 0%nat in Hb by lia.
    simpl in Hb. injection Hb as <-.
    rewrite lookup_app_l in Ha by lia.
    replace a with (last_item run); [assumption |].
    unfold last_item. destruct run as [| x run] using rev_ind; [done |].
    rewrite last_last. rewrite length_app in Hi. simpl in Hi.
    rewrite lookup_app_r in Ha by lia.
    replace (i - length run)%nat with 0%nat in Ha by lia.
    simpl in Ha. congruence.
Qed.

Lemma gaps_within_singleton t : gaps_within streak_window [t].
Proof. intros [| i] a b Ha Hb; simpl in *; discriminate. Qed.

Lemma runs_from_gaps run rest :
  run ≠ [] →
  gaps_within streak_window run →
  Forall (gaps_within streak_window) (runs_from streak_window run rest).
Proof.
  revert run. induction rest as [| t rest IH]; intros run Hne Hrun; simpl.
  - by constructor.
  - destruct (_ && _) eqn:Hc.
    + apply andb_prop in Hc as [Hc%Z.leb_le _].
      apply IH; [by destruct run | by apply gaps_within_snoc].
    + constructor; [assumption |].
      apply IH; [done | apply gaps_within_singleton].
Qed.

Lemma runs_from_maximal run rest :
  (1 <= length run <= 5)%nat →
  runs_maximal streak_window (runs_from streak_window run rest).
Proof.
  revert run. induction rest as [| t rest IH]; intros run Hrun; simpl.
  - intros [| k] r1 r2 H1 H2; simpl in *; discriminate.
  - destruct (_ && _) eqn:Hc.
    + apply IH. apply andb_prop in Hc as [_ Hc%Nat.ltb_lt].
      rewrite length_app. simpl. lia.
    + intros [| k] r1 r2 H1 H2; simpl in *.
      * injection H1 as <-.
        destruct (runs_from_first [t] rest) as (r & rs & Heq).
        rewrite Heq in H2. simpl in H2. injection H2 as <-. simpl.
        apply andb_false_iff in Hc as [Hc%Z.leb_gt | Hc%Nat.ltb_ge]; lia.
      * eapply (IH [t]); [simpl; lia | exact H1 | exact H2].
Qed.

End KillStreaks.

Lemma sorted_adjacent (l : list Z) (i : nat) a b :
  Sorted Z.le l → l !! i = Some a → l !! S i = Some b → a <= b.
Proof.
  intros Hs. revert i. induction Hs as [| x l Hs IH Hhd]; intros i Ha Hb.
  - discriminate.
  - destruct i as [| i]; simpl in *.
    + injection Ha as <-. destruct l as [| y l]; [discriminate |].
      simpl in Hb. injection Hb as <-. by inversion Hhd.
    + eauto.
Qed.

Lemma sorted_segment (l1 l2 l3 : list Z) :
  Sorted Z.le (l1 ++ l2 ++ l3) → Sorted Z.le l2.
Proof.
  intros Hs. apply Sorted_StronglySorted in Hs; [| intros ???; lia].
  apply StronglySorted_app_1_r, StronglySorted_app_1_l in Hs.
  by apply StronglySorted_Sorted.
Qed.

Lemma calculate_kill_streaks_labels kills streak_window :
  calculate_kill_streaks kills streak_window
  = result_map run_label (List.filter multi_kill (kill_runs streak_window kills)).
Proof.
  unfold calculate_kill_streaks. rewrite streak_outer_runs. simpl drop.
  rewrite emit_runs_labels.
  - destruct (result_map _ _); reflexivity.
  - destruct kills as [| t rest]; [constructor |]. simpl.
    eapply Forall_impl; [apply runs_from_length; simpl; lia |].
    simpl. intros; lia.
Qed.

Lemma kill_runs_penta streak_window a b c d e rest :
  b - a <= streak_window → c - b <= streak_window →
  d - c <= streak_window → e - d <= streak_window →
  kill_runs streak_window (a :: b :: c :: d :: e :: rest)
  = [a; b; c; d; e] :: kill_runs streak_window rest.
Proof.
  intros Hb Hc Hd He. unfold kill_runs. simpl. unfold last_item. simpl.
  rewrite !(proj2 (Z.leb_le _ _)) by assumption. simpl.
  destruct rest as [| f rest]; [reflexivity |].
  simpl. by rewrite andb_false_r.
Qed.

(** ** The date of a timestamp *)

Ltac closed_positive p :=
  match p with
  | xH => idtac
  | xI ?q => closed_positive q
  | xO ?q => closed_positive q
  end.

Ltac closed_integer z :=
  match z with
  | Z0 => idtac
  | Zpos ?p => closed_positive p
  | Zneg ?p => closed_positive p
  end.

Ltac fold_constant op a b :=
  closed_integer a; closed_integer b;
  let v := eval vm_compute in (op a b) in change (op a b) with v.

(** Evaluates the operations of the goal whose arguments are numerals. *)
Ltac fold_constants :=
  repeat match goal with
         | |- context [Z.add ?a ?b] => fold_constant Z.add a b
         | |- context [Z.sub ?a ?b] => fold_constant Z.sub a b
         | |- context [Z.mul ?a ?b] => fold_constant Z.mul a b
         | |- context [Z.div ?a ?b] => fold_constant Z.div a b
         | |- context [Z.ltb ?a ?b] => fold_constant Z.ltb a b
         | |- context [Z.leb ?a ?b] => fold_constant Z.leb a b
         | |- context [Z.eqb ?a ?b] => fold_constant Z.eqb a b
         end;
  cbv iota.

Section CalendarProofs.

Import Calendar.

Lemma is_leap_cases y :
  (Iso.is_leap y = true ∧ y mod 4 = 0 ∧ (y mod 100 ≠ 0 ∨ y mod 400 = 0))
  ∨ (Iso.is_leap y = false ∧ (y mod 4 ≠ 0 ∨ (y mod 100 = 0 ∧ y mod 400 ≠ 0))).
Proof.
  unfold Iso.is_leap.
  destruct (Z.eqb_spec (y mod 4) 0), (Z.eqb_spec (y mod 100) 0),
    (Z.eqb_spec (y mod 400) 0); simpl;
    first [ left; split; [reflexivity |]; Z.to_euclidean_division_equations; lia
          | right; split; [reflexivity |]; Z.to_euclidean_division_equations; lia ].
Qed.

Lemma days_before_month_table y :
  days_before_month y 1 = 0
  ∧ days_before_month y 2 = 31
  ∧ days_before_month y 3 = 59 + leap_day y
  ∧ days_before_month y 4 = 90 + leap_day y
  ∧ days_before_month y 5 = 120 + leap_day y
  ∧ days_before_month y 6 = 151 + leap_day y
  ∧ days_before_month y 7 = 181 + leap_day y
  ∧ days_before_month y 8 = 212 + leap_day y
  ∧ days_before_month y 9 = 243 + leap_day y
  ∧ days_before_month y 10 = 273 + leap_day y
  ∧ days_before_month y 11 = 304 + leap_day y
  ∧ days_before_month y 12 = 334 + leap_day y.
Proof.
  unfold days_before_month, leap_day. cbn. unfold Iso.days_in_month. cbn.
  destruct (Iso.is_leap y); repeat split; reflexivity.
Qed.

(** The year of a day from March on, and of a day of January or February. *)
Lemma year_from_march era yoe :
  0 <= yoe < 400 →
  days_before_year (yoe + era * 400) + leap_day (yoe + era * 400)
  = era * 146097 + 365 * yoe + yoe / 4 - yoe / 100 - 365.
Proof.
  intros H. unfold days_before_year, leap_day.
  destruct (is_leap_cases (yoe + era * 400)) as [(-> & H4 & H100) | (-> & H4)];
    Z.to_euclidean_division_equations; lia.
Qed.

Lemma year_before_march era yoe :
  0 <= yoe < 400 →
  days_before_year (yoe + era * 400 + 1)
  = era * 146097 + 365 * yoe + yoe / 4 - yoe / 100.
Proof.
  intros H. unfold days_before_year.
  Z.to_euclidean_division_equations; lia.
Qed.

Lemma leap_february era yoe :
  0 <= yoe < 400 →
  (yoe + 1) mod 4 = 0 → ((yoe + 1) mod 100 = 0 → yoe = 399) →
  Iso.is_leap (yoe + era * 400 + 1) = true.
Proof.
  intros H H4 H100.
  destruct (is_leap_cases (yoe + era * 400 + 1)) as [(-> & _) | (_ & Hn)];
    [reflexivity |].
  exfalso. revert H4 H100 Hn. Z.to_euclidean_division_equations; lia.
Qed.

(** [civil_from_days] gives the date of the calendar whose ordinal is the
    day number. *)
Lemma civil_from_days_spec n :
  let '(y, m, d) := Datetime.civil_from_days n in
  1 <= m <= 12 ∧ 1 <= d <= Iso.days_in_month y m ∧ toordinal y m d - EPOCH = n.
Proof.
  unfold Datetime.civil_from_days, EPOCH.
  set (z := n + 719468). set (era := z / 146097). set (doe := z - era * 146097).
  assert (Hdoe : 0 <= doe < 146097).
  { subst doe era. Z.to_euclidean_division_equations. lia. }
  set (yoe := (doe - doe / 1460 + doe / 36524 - doe / 146096) / 365).
  set (doy := doe - (365 * yoe + yoe / 4 - yoe / 100)).
  assert (Hyoe : 0 <= yoe < 400 ∧ 0 <= doy <= 365).
  { subst doy yoe. clearbody doe. clear - Hdoe.
    Z.to_euclidean_division_equations; lia. }
  assert (Hleap4 : doy = 365 → (yoe + 1) mod 4 = 0).
  { subst doy yoe. clearbody doe. clear - Hdoe.
    Z.to_euclidean_division_equations; lia. }
  assert (Hleap100 : doy = 365 → (yoe + 1) mod 100 = 0 → yoe = 399).
  { subst doy yoe. clearbody doe. clear - Hdoe.
    Z.to_euclidean_division_equations; lia. }
  assert (Hz : n = era * 146097 + doe - 719468) by (subst doe z; lia).
  assert (Hdoy : doe = 365 * yoe + yoe / 4 - yoe / 100 + doy) by (subst doy; lia).
  clearbody doy yoe doe era. clear z.
  destruct Hyoe as [Hyoe Hdoy'].
  pose proof (year_from_march era yoe Hyoe) as Hmarch.
  pose proof (year_before_march era yoe Hyoe) as Hjan.
  remember ((5 * doy + 2) / 153) as mp eqn:Emp.
  assert (Hmp : mp = 0 ∨ mp = 1 ∨ mp = 2 ∨ mp = 3 ∨ mp = 4 ∨ mp = 5 ∨ mp = 6
                ∨ mp = 7 ∨ mp = 8 ∨ mp = 9 ∨ mp = 10 ∨ mp = 11).
  { subst mp. Z.to_euclidean_division_equations; lia. }
  unfold toordinal.
  destruct Hmp
    as [-> | [-> | [-> | [-> | [-> | [-> | [-> | [-> | [-> | [-> | [-> | ->]]]]]]]]]]].
  all: fold_constants.
  all: rewrite ?Z.add_0_r.
  all: try match goal with
       | |- context [days_before_month ?Y _] =>
           destruct (days_before_month_table Y)
             as (T1 & T2 & T3 & T4 & T5 & T6 & T7 & T8 & T9 & T10 & T11 & T12);
           rewrite ?T1, ?T2, ?T3, ?T4, ?T5, ?T6, ?T7, ?T8, ?T9, ?T10, ?T11, ?T12
       end.
  all: unfold Iso.days_in_month; fold_constants; cbn [orb].
  all: try (revert Emp; Z.to_euclidean_division_equations; lia).
  (* February *)
  destruct (Z.eq_dec doy 365) as [Hlast | Hlast].
  - rewrite (leap_february era yoe Hyoe (Hleap4 Hlast) (Hleap100 Hlast)).
    revert Emp; Z.to_euclidean_division_equations; lia.
  - destruct (Iso.is_leap _); revert Emp; Z.to_euclidean_division_equations; lia.
Qed.

End CalendarProofs.

Section CalendarRange.

Import Calendar.

Lemma days_before_year_next y :
  days_before_year (y + 1) = days_before_year y + 365 + leap_day y.
Proof.
  unfold days_before_year, leap_day.
  destruct (is_leap_cases y) as [(-> & H4 & H100) | (-> & H4)];
    Z.to_euclidean_division_equations; lia.
Qed.

Lemma days_before_year_mono y y' :
  y <= y' → days_before_year y <= days_before_year y'.
Proof.
  unfold days_before_year. intros H.
  Z.to_euclidean_division_equations; lia.
Qed.

Lemma toordinal_bounds y m d :
  1 <= m <= 12 → 1 <= d <= Iso.days_in_month y m →
  days_before_year y + 1 <= toordinal y m d <= days_before_year (y + 1).
Proof.
  intros Hm Hd. rewrite days_before_year_next. unfold toordinal.
  destruct (days_before_month_table y)
    as (T1 & T2 & T3 & T4 & T5 & T6 & T7 & T8 & T9 & T10 & T11 & T12).
  assert (Hcases : m = 1 ∨ m = 2 ∨ m = 3 ∨ m = 4 ∨ m = 5 ∨ m = 6 ∨ m = 7
                   ∨ m = 8 ∨ m = 9 ∨ m = 10 ∨ m = 11 ∨ m = 12) by lia.
  revert Hd. unfold Iso.days_in_month.
  destruct Hcases
    as [-> | [-> | [-> | [-> | [-> | [-> | [-> | [-> | [-> | [-> | [-> | ->]]]]]]]]]]];
    fold_constants; cbn [orb];
    rewrite ?T1, ?T2, ?T3, ?T4, ?T5, ?T6, ?T7, ?T8, ?T9, ?T10, ?T11, ?T12;
    unfold leap_day; destruct (Iso.is_leap y); lia.
Qed.

(** The year of a day number stays in [MINYEAR..MAXYEAR] exactly on the
    days of the years 1 to 9999. *)
Lemma civil_from_days_year n :
  let y := fst (fst (Datetime.civil_from_days n)) in
  (Datetime.MINYEAR <= y ↔ -719162 <= n) ∧ (y <= Datetime.MAXYEAR ↔ n <= 2932896).
Proof.
  pose proof (civil_from_days_spec n) as H.
  destruct (Datetime.civil_from_days n) as [[y m] d]. simpl.
  destruct H as (Hm & Hd & Hn). unfold EPOCH in Hn.
  pose proof (toordinal_bounds y m d Hm Hd) as Hb.
  unfold Datetime.MINYEAR, Datetime.MAXYEAR.
  assert (H1 : days_before_year 1 = 0) by reflexivity.
  assert (H2 : days_before_year 10000 = 3652059) by reflexivity.
  split; split; intros Hy.
  - pose proof (days_before_year_mono 1 y Hy). lia.
  - destruct (Z_lt_le_dec y 1) as [Hlt |]; [| done].
    pose proof (days_before_year_mono (y + 1) 1 ltac:(lia)). lia.
  - pose proof (days_before_year_mono (y + 1) 10000 ltac:(lia)). lia.
  - destruct (Z_lt_le_dec 9999 y) as [Hlt |]; [| done].
    pose proof (days_before_year_mono 10000 y ltac:(lia)). lia.
Qed.

(** [fromtimestamp] returns on the timestamps of the years 1 to 9999, and
    raises [ValueError] on the others. *)
Lemma fromtimestamp_range t :
  (MIN_TIMESTAMP <= t <= MAX_TIMESTAMP → ∃ dt, Datetime.fromtimestamp t = Return dt)
  ∧ (¬ MIN_TIMESTAMP <= t <= MAX_TIMESTAMP →
     Datetime.fromtimestamp t = Raise ValueError).
Proof.
  unfold Datetime.fromtimestamp, MIN_TIMESTAMP, MAX_TIMESTAMP.
  pose proof (civil_from_days_year (t `div` 86400)) as Hy.
  destruct (Datetime.civil_from_days (t `div` 86400)) as [[y m] d].
  simpl in Hy. destruct Hy as [Hmin Hmax].
  assert (Hlo : -719162 <= t `div` 86400 ↔ -62135596800 <= t)
    by (Z.to_euclidean_division_equations; lia).
  assert (Hhi : t `div` 86400 <= 2932896 ↔ t <= 253402300799)
    by (Z.to_euclidean_division_equations; lia).
  split.
  - intros [H1 H2].
    rewrite (proj2 (Z.leb_le _ _) (proj2 Hmin (proj2 Hlo H1))).
    rewrite (proj2 (Z.leb_le _ _) (proj2 Hmax (proj2 Hhi H2))).
    simpl. eauto.
  - intros Hout.
    destruct (Z.leb_spec Datetime.MINYEAR y) as [H1 |]; [| reflexivity].
    destruct (Z.leb_spec y Datetime.MAXYEAR) as [H2 |]; [| reflexivity].
    exfalso. apply Hout. split; tauto.
Qed.

(** What [fromtimestamp] returns is the date and the time of the day of
    the timestamp. *)
Lemma fromtimestamp_spec t dt :
  Datetime.fromtimestamp t = Return dt →
  utc_datetime t dt ∧ 1 <= Datetime.year dt <= 9999.
Proof.
  unfold Datetime.fromtimestamp, utc_datetime.
  pose proof (civil_from_days_spec (t `div` 86400)) as H.
  destruct (Datetime.civil_from_days (t `div` 86400)) as [[y m] d].
  destruct H as (Hm & Hd & Hn).
  destruct (Z.leb_spec Datetime.MINYEAR y) as [H1 |]; [| discriminate].
  destruct (Z.leb_spec y Datetime.MAXYEAR) as [H2 |]; [| discriminate].
  simpl. intros [= <-]. simpl.
  unfold Datetime.MINYEAR, Datetime.MAXYEAR in *.
  rewrite Hn. repeat split; try assumption; try tauto;
    Z.to_euclidean_division_equations; lia.
Qed.

End CalendarRange.

(** ** The text of a date *)

Section DateText.

Import Calendar.

Lemma length_append (s r : string) :
  String.length (s +:+ r) = (String.length s + String.length r)%nat.
Proof.
  induction s as [| c s IH]; [by rewrite append_empty_l |].
  rewrite append_String. simpl. by rewrite IH.
Qed.

Lemma number_from_append acc s r :
  Iso.number_from acc (s +:+ r)
  = match Iso.number_from acc s with
    | Some n => Iso.number_from n r
    | None => None
    end.
Proof.
  revert acc. induction s as [| c s IH]; intros acc.
  - by rewrite append_empty_l.
  - rewrite append_String. simpl.
    destruct (Iso.digit_value c); [apply IH | reflexivity].
Qed.

Lemma number_from_digit acc n :
  Iso.number_from acc (Datetime.digit n) = Some (10 * acc + n mod 10).
Proof.
  unfold Datetime.digit.
  assert (H : 0 <= n mod 10 < 10) by (apply Z.mod_pos_bound; lia).
  assert (Hcases : n mod 10 = 0 ∨ n mod 10 = 1 ∨ n mod 10 = 2 ∨ n mod 10 = 3
                   ∨ n mod 10 = 4 ∨ n mod 10 = 5 ∨ n mod 10 = 6
                   ∨ n mod 10 = 7 ∨ n mod 10 = 8 ∨ n mod 10 = 9) by lia.
  destruct Hcases as [-> | [-> | [-> | [-> | [-> | [-> | [-> | [-> | [-> | ->]]]]]]]]];
    reflexivity.
Qed.

Lemma zero_padded_length width n :
  String.length (Datetime.zero_padded width n) = width.
Proof.
  revert n. induction width as [| w IH]; intros n; [reflexivity |].
  simpl. rewrite length_append, IH. unfold Datetime.digit. simpl. lia.
Qed.

Lemma zero_padded_number_from width n :
  0 <= n < 10 ^ Z.of_nat width →
  Iso.number_from 0 (Datetime.zero_padded width n) = Some n.
Proof.
  revert n. induction width as [| w IH]; intros n Hn.
  - simpl in *. f_equal. lia.
  - simpl. rewrite number_from_append, IH, number_from_digit.
    + f_equal. Z.to_euclidean_division_equations; lia.
    + rewrite Nat2Z.inj_succ, Z.pow_succ_r in Hn by lia.
      Z.to_euclidean_division_equations; lia.
Qed.

Lemma zero_padded_decimal width n :
  (0 < width)%nat → 0 <= n < 10 ^ Z.of_nat width →
  decimal width n (Datetime.zero_padded width n).
Proof.
  intros Hw Hn. split; [apply zero_padded_length |].
  rewrite <- (zero_padded_number_from width n Hn).
  pose proof (zero_padded_length width n) as Hlen.
  destruct (Datetime.zero_padded width n); [simpl in Hlen; lia | reflexivity].
Qed.

Lemma year_width_bounds y :
  1 <= y <= 9999 →
  10 ^ (Z.of_nat (Datetime.year_width y) - 1) <= y
  < 10 ^ Z.of_nat (Datetime.year_width y).
Proof.
  intros Hy. unfold Datetime.year_width.
  destruct (Z.ltb_spec y 10); [simpl; lia |].
  destruct (Z.ltb_spec y 100); [simpl; lia |].
  destruct (Z.ltb_spec y 1000); simpl; lia.
Qed.

(** [strftime] writes the date-time in the format. *)
Lemma strftime_formatted t dt :
  utc_datetime t dt → 1 <= Datetime.year dt <= 9999 →
  formatted dt (Datetime.strftime dt).
Proof.
  intros (Hm & Hd & Hh & Hmi & Hs & _) Hy.
  pose proof (year_width_bounds _ Hy) as Hw.
  assert (Hdays : Iso.days_in_month (Datetime.year dt) (Datetime.month dt) <= 31).
  { unfold Iso.days_in_month.
    repeat match goal with |- context [if ?b then _ else _] => destruct b end; lia. }
  assert (Hpos : (0 < Datetime.year_width (Datetime.year dt))%nat).
  { unfold Datetime.year_width.
    repeat match goal with |- context [if ?b then _ else _] => destruct b end; lia. }
  destruct (zero_padded_decimal _ (Datetime.year dt) Hpos ltac:(lia)) as [HYl HY].
  exists (Datetime.zero_padded (Datetime.year_width (Datetime.year dt)) (Datetime.year dt)),
    (Datetime.zero_padded 2 (Datetime.month dt)),
    (Datetime.zero_padded 2 (Datetime.day dt)),
    (Datetime.zero_padded 2 (Datetime.hour dt)),
    (Datetime.zero_padded 2 (Datetime.minute dt)),
    (Datetime.zero_padded 2 (Datetime.second dt)).
  split; [reflexivity |].
  split; [exact HY |].
  split; [rewrite HYl; lia |].
  repeat split; try apply zero_padded_length;
    apply zero_padded_decimal; simpl; lia.
Qed.

End DateText.

Section DateUnique.

Import Calendar.

Lemma days_before_month_next y m :
  1 <= m <= 11 →
  days_before_month y (m + 1) = days_before_month y m + Iso.days_in_month y m.
Proof.
  intros Hm.
  destruct (days_before_month_table y)
    as (T1 & T2 & T3 & T4 & T5 & T6 & T7 & T8 & T9 & T10 & T11 & T12).
  assert (Hcases : m = 1 ∨ m = 2 ∨ m = 3 ∨ m = 4 ∨ m = 5 ∨ m = 6 ∨ m = 7
                   ∨ m = 8 ∨ m = 9 ∨ m = 10 ∨ m = 11) by lia.
  unfold Iso.days_in_month.
  destruct Hcases
    as [-> | [-> | [-> | [-> | [-> | [-> | [-> | [-> | [-> | [-> | ->]]]]]]]]]];
    fold_constants; cbn [orb];
    rewrite ?T1, ?T2, ?T3, ?T4, ?T5, ?T6, ?T7, ?T8, ?T9, ?T10, ?T11, ?T12;
    unfold leap_day; destruct (Iso.is_leap y); lia.
Qed.

Lemma days_in_month_positive y m : 28 <= Iso.days_in_month y m <= 31.
Proof.
  unfold Iso.days_in_month.
  repeat match goal with |- context [if ?b then _ else _] => destruct b end; lia.
Qed.

Lemma days_before_month_mono y m m' :
  1 <= m → m < m' → m' <= 12 →
  days_before_month y m + Iso.days_in_month y m <= days_before_month y m'.
Proof.
  intros Hm Hlt Hm'.
  replace m' with (m + 1 + Z.of_nat (Z.to_nat (m' - m - 1))) in * by lia.
  induction (Z.to_nat (m' - m - 1)) as [| k IH].
  - rewrite Z.add_0_r, days_before_month_next; lia.
  - rewrite Nat2Z.inj_succ in *.
    replace (m + 1 + Z.succ (Z.of_nat k)) with (m + 1 + Z.of_nat k + 1) in * by lia.
    rewrite days_before_month_next by lia.
    pose proof (days_in_month_positive y (m + 1 + Z.of_nat k)).
    specialize (IH ltac:(lia) ltac:(lia)). lia.
Qed.

(** A date is determined by its ordinal. *)
Lemma toordinal_injective y m d y' m' d' :
  1 <= m <= 12 → 1 <= d <= Iso.days_in_month y m →
  1 <= m' <= 12 → 1 <= d' <= Iso.days_in_month y' m' →
  toordinal y m d = toordinal y' m' d' →
  y = y' ∧ m = m' ∧ d = d'.
Proof.
  intros Hm Hd Hm' Hd' Heq.
  pose proof (toordinal_bounds y m d Hm Hd) as Hb.
  pose proof (toordinal_bounds y' m' d' Hm' Hd') as Hb'.
  assert (Hy : y = y').
  { destruct (Z.lt_trichotomy y y') as [Hlt | [-> | Hlt]]; [| reflexivity |].
    - pose proof (days_before_year_mono (y + 1) y' ltac:(lia)). lia.
    - pose proof (days_before_year_mono (y' + 1) y ltac:(lia)). lia. }
  subst y'. split; [reflexivity |].
  unfold toordinal in Heq.
  assert (Hmm : m = m').
  { destruct (Z.lt_trichotomy m m') as [Hlt | [-> | Hlt]]; [| reflexivity |].
    - pose proof (days_before_month_mono y m m' ltac:(lia) Hlt ltac:(lia)). lia.
    - pose proof (days_before_month_mono y m' m ltac:(lia) Hlt ltac:(lia)). lia. }
  subst m'. split; [reflexivity | lia].
Qed.

(** A timestamp has one date and time of the day. *)
Lemma utc_datetime_unique t dt dt' :
  utc_datetime t dt → utc_datetime t dt' → dt = dt'.
Proof.
  intros (Hm & Hd & Hh & Hmi & Hs & Ht) (Hm' & Hd' & Hh' & Hmi' & Hs' & Ht').
  destruct dt as [y m d h mi s], dt' as [y' m' d' h' mi' s']. simpl in *.
  assert (Hord : toordinal y m d = toordinal y' m' d') by lia.
  destruct (toordinal_injective _ _ _ _ _ _ Hm Hd Hm' Hd' Hord) as (-> & -> & ->).
  f_equal; lia.
Qed.

Lemma digit_value_bounds c d : Iso.digit_value c = Some d → 0 <= d <= 9.
Proof.
  unfold Iso.digit_value.
  destruct (Z.leb_spec 48 (Z.of_nat (nat_of_ascii c))); simpl; [| discriminate].
  destruct (Z.leb_spec (Z.of_nat (nat_of_ascii c)) 57); [| discriminate].
  intros [= <-]. lia.
Qed.

Lemma digit_value_injective c c' d :
  Iso.digit_value c = Some d → Iso.digit_value c' = Some d → c = c'.
Proof.
  unfold Iso.digit_value.
  destruct (_ && _); [| discriminate]. destruct (_ && _); [| discriminate].
  intros [= <-] [= H].
  rewrite <- (ascii_nat_embedding c), <- (ascii_nat_embedding c').
  f_equal. lia.
Qed.

Lemma number_from_injective s s' acc acc' v :
  String.length s = String.length s' →
  Iso.number_from acc s = Some v → Iso.number_from acc' s' = Some v →
  acc = acc' ∧ s = s'.
Proof.
  revert s' acc acc'. induction s as [| c s IH]; intros [| c' s'] acc acc' Hlen;
    try discriminate.
  - simpl. intros [= <-] [= <-]. done.
  - simpl.
    destruct (Iso.digit_value c) as [d |] eqn:Hd; [| discriminate].
    destruct (Iso.digit_value c') as [d' |] eqn:Hd'; [| discriminate].
    intros H H'.
    destruct (IH s' _ _ ltac:(simpl in Hlen; lia) H H') as [Hacc ->].
    apply digit_value_bounds in Hd as Hb. apply digit_value_bounds in Hd' as Hb'.
    assert (acc = acc' ∧ d = d') as [-> ->] by lia.
    split; [reflexivity |]. f_equal. by eapply digit_value_injective.
Qed.

Lemma number_from_bounds s acc v :
  Iso.number_from acc s = Some v →
  acc * 10 ^ Z.of_nat (String.length s) <= v
  < (acc + 1) * 10 ^ Z.of_nat (String.length s).
Proof.
  revert acc. induction s as [| c s IH]; intros acc.
  - simpl. intros [= <-]. lia.
  - cbn [Iso.number_from String.length].
    destruct (Iso.digit_value c) as [d |] eqn:Hd; [| discriminate].
    intros H. apply IH in H. apply digit_value_bounds in Hd.
    rewrite Nat2Z.inj_succ, Z.pow_succ_r by lia.
    assert (0 < 10 ^ Z.of_nat (String.length s)) by (apply Z.pow_pos_nonneg; lia).
    nia.
Qed.

Lemma number_number_from s v : Iso.number s = Some v → Iso.number_from 0 s = Some v.
Proof. destruct s; [discriminate | done]. Qed.

Lemma decimal_unique width n s s' : decimal width n s → decimal width n s' → s = s'.
Proof.
  intros [Hl Hn] [Hl' Hn'].
  apply number_number_from in Hn, Hn'.
  by destruct (number_from_injective s s' 0 0 n ltac:(congruence) Hn Hn').
Qed.

(** The decimal text of a number without a leading zero. *)
Lemma number_unique y s s' :
  Iso.number s = Some y → 10 ^ (Z.of_nat (String.length s) - 1) <= y →
  Iso.number s' = Some y → 10 ^ (Z.of_nat (String.length s') - 1) <= y →
  s = s'.
Proof.
  intros Hn Hl Hn' Hl'.
  apply number_number_from in Hn, Hn'.
  pose proof (number_from_bounds _ _ _ Hn) as Hb.
  pose proof (number_from_bounds _ _ _ Hn') as Hb'.
  assert (Hlen : String.length s = String.length s').
  { destruct (Nat.lt_trichotomy (String.length s) (String.length s'))
      as [Hlt | [Heq | Hlt]]; [| exact Heq |]; exfalso.
    - assert (10 ^ Z.of_nat (String.length s) <= 10 ^ (Z.of_nat (String.length s') - 1))
        by (apply Z.pow_le_mono_r; lia).
      lia.
    - assert (10 ^ Z.of_nat (String.length s') <= 10 ^ (Z.of_nat (String.length s) - 1))
        by (apply Z.pow_le_mono_r; lia).
      lia. }
  by destruct (number_from_injective s s' 0 0 y Hlen Hn Hn').
Qed.

(** A date-time has one text in the format. *)
Lemma formatted_unique dt text text' :
  formatted dt text → formatted dt text' → text = text'.
Proof.
  intros (Y & m & d & H & M & Sd & -> & HY & HYl & Hm & Hd & HH & HM & HS)
         (Y' & m' & d' & H' & M' & Sd' & -> & HY' & HYl' & Hm' & Hd' & HH' & HM' & HS').
  rewrite (number_unique _ Y Y' HY HYl HY' HYl').
  rewrite (decimal_unique _ _ m m' Hm Hm'), (decimal_unique _ _ d d' Hd Hd').
  rewrite (decimal_unique _ _ H H' HH HH'), (decimal_unique _ _ M M' HM HM').
  by rewrite (decimal_unique _ _ Sd Sd' HS HS').
Qed.

(** From the year 1000 on the text is [YYYY-MM-DD HH:MM:SS]. *)
Lemma formatted_length t dt text :
  utc_datetime t dt → formatted dt text → Datetime.year dt <= 9999 →
  YEAR_1000 <= t → String.length text = 19%nat.
Proof.
  intros (Hm & Hd & Hh & Hmi & Hs & Ht)
         (Y & m & d & H & M & Sd & -> & HY & HYl & [Hml _] & [Hdl _] & [HHl _]
            & [HMl _] & [HSl _]) Hmax Hlo.
  assert (Hy : 1000 <= Datetime.year dt).
  { destruct (Z_lt_le_dec (Datetime.year dt) 1000) as [Hlt |]; [| done].
    pose proof (toordinal_bounds _ _ _ Hm Hd) as Hb.
    pose proof (days_before_year_mono (Datetime.year dt + 1) 1000 ltac:(lia)) as Hmono.
    assert (H1000 : days_before_year 1000 = 364877) by reflexivity.
    unfold YEAR_1000, EPOCH in *. lia. }
  apply number_number_from in HY. apply number_from_bounds in HY.
  assert (HYlen : String.length Y = 4%nat).
  { destruct (String.length Y) as [| [| [| [| [| k]]]]]; simpl in *; try lia.
    assert (10 ^ 4 <= 10 ^ Z.of_nat (S (S (S (S k)))))
      by (apply Z.pow_le_mono_r; lia).
    replace (Z.of_nat (S (S (S (S (S k))))) - 1) with (Z.of_nat (S (S (S (S k)))))
      in HYl by lia.
    lia. }
  rewrite !length_append, HYlen, Hml, Hdl, HHl, HMl, HSl. reflexivity.
Qed.

End DateUnique.

Section StreakLabels.

Import Calendar.

Lemma label_name_streak_name n :
  (2 <= n <= 5)%nat → streak_name n (label_name n).
Proof.
  intros Hn.
  destruct n as [| [| [| [| [| [| n]]]]]]; try lia; constructor.
Qed.

Lemma run_label_spec run :
  (2 <= length run <= 5)%nat → representable (last_item run) →
  ∃ label, run_label run = Return label ∧ label_of_run run label.
Proof.
  intros Hlen Hrange. unfold run_label.
  destruct (proj1 (fromtimestamp_range (last_item run)) Hrange) as [dt Hdt].
  rewrite Hdt. simpl. eexists. split; [reflexivity |].
  destruct (fromtimestamp_spec _ _ Hdt) as [Hutc Hyear].
  pose proof (strftime_formatted _ _ Hutc Hyear) as Htext.
  exists (label_name (length run)), dt, (Datetime.strftime dt).
  split; [by apply label_name_streak_name |].
  split; [exact Hutc |]. split; [exact Htext |].
  split; [| reflexivity].
  intros Hlo. eapply formatted_length; eauto. lia.
Qed.

Lemma run_label_raises run :
  ¬ representable (last_item run) → run_label run = Raise ValueError.
Proof.
  intros Hout. unfold run_label.
  by rewrite (proj2 (fromtimestamp_range (last_item run)) Hout).
Qed.

Lemma representable_dec t : representable t ∨ ¬ representable t.
Proof. unfold representable. lia. Qed.

Lemma result_map_returns {A B} (f : A → result B) (R : A → B → Prop) l :
  Forall (fun x => ∃ y, f x = Return y ∧ R x y) l →
  ∃ ys, result_map f l = Return ys ∧ Forall2 R l ys.
Proof.
  induction 1 as [| x l (y & Hy & HR) _ (ys & Hys & IH)].
  - exists []. split; [reflexivity | constructor].
  - exists (y :: ys). simpl. rewrite Hy, Hys. split; [reflexivity |].
    by constructor.
Qed.

Lemma result_map_raises {A B} (f : A → result B) e l :
  (∀ x, x ∈ l → (∃ y, f x = Return y) ∨ f x = Raise e) →
  Exists (fun x => f x = Raise e) l →
  result_map f l = Raise e.
Proof.
  intros Hall Hex. induction Hex as [x l Hx | x l Hex IH].
  - simpl. by rewrite Hx.
  - simpl. destruct (Hall x ltac:(left)) as [[y ->] | ->]; [| reflexivity].
    simpl. rewrite IH; [reflexivity |].
    intros z Hz. apply Hall. by right.
Qed.

Lemma kill_runs_length streak_window kills :
  Forall (fun r => (1 <= length r <= 5)%nat) (kill_runs streak_window kills).
Proof.
  destruct kills as [| t rest]; [constructor |].
  simpl. apply runs_from_length. simpl. lia.
Qed.

(** The labels of [calculate_kill_streaks], run by run. *)
Lemma calculate_kill_streaks_streak_labels kills streak_window :
  let labelled := List.filter multi_kill (kill_runs streak_window kills) in
  (Forall (fun r => representable (last_item r)) labelled →
   ∃ labels, calculate_kill_streaks kills streak_window = Return labels
             ∧ Forall2 label_of_run labelled labels)
  ∧ (Exists (fun r => ¬ representable (last_item r)) labelled →
     calculate_kill_streaks kills streak_window = Raise ValueError).
Proof.
  intros labelled. rewrite calculate_kill_streaks_labels. fold labelled.
  assert (Hlen : Forall (fun r => (2 <= length r <= 5)%nat) labelled).
  { apply Forall_forall. intros r Hr.
    apply list_elem_of_In, filter_In in Hr as [Hr Hmulti].
    pose proof (kill_runs_length streak_window kills) as Hruns.
    rewrite Forall_forall in Hruns.
    specialize (Hruns r (proj2 (list_elem_of_In _ _) Hr)).
    unfold multi_kill in Hmulti. apply Nat.leb_le in Hmulti. lia. }
  split.
  - intros Hrange. apply result_map_returns.
    rewrite Forall_forall in *. intros r Hr.
    apply run_label_spec; auto.
  - intros Hout. apply result_map_raises.
    + intros r Hr. rewrite Forall_forall in Hlen.
      destruct (representable_dec (last_item r)) as [Hin | Hno].
      * left. destruct (run_label_spec r (Hlen r Hr) Hin) as (label & -> & _). eauto.
      * right. by apply run_label_raises.
    + eapply Exists_impl; [exact Hout |]. intros r. apply run_label_raises.
Qed.

(** The label of a run is determined by the run. *)
Lemma label_of_run_unique run label label' :
  label_of_run run label → label_of_run run label' → label = label'.
Proof.
  intros (name & dt & text & Hname & Hutc & Htext & _ & ->)
         (name' & dt' & text' & Hname' & Hutc' & Htext' & _ & ->).
  rewrite (utc_datetime_unique _ _ _ Hutc' Hutc) in Htext'.
  rewrite (formatted_unique _ _ _ Htext Htext').
  destruct Hname; inversion Hname'; reflexivity.
Qed.

End StreakLabels.

(** The tests of the repository, [tests/test_kill_streaks.py]. *)
Example test_triple_kill_real_timestamp :
  calculate_kill_streaks [1640995200; 1640995201; 1640995202] 2
  = Return ["Triple Kill at 2022-01-01 00:00:02"].
Proof. rewrite calculate_kill_streaks_labels. by vm_compute. Qed.

Example test_two_triple_kills :
  calculate_kill_streaks [1; 2; 3; 5; 6; 7] 1
  = Return ["Triple Kill at 1970-01-01 00:00:03";
            "Triple Kill at 1970-01-01 00:00:07"].
Proof. rewrite calculate_kill_streaks_labels. by vm_compute. Qed.

Example test_penta_kill_with_gap_end :
  calculate_kill_streaks [60; 61; 62; 63; 64; 66] 2
  = Return ["Penta Kill at 1970-01-01 00:01:04"].
Proof. rewrite calculate_kill_streaks_labels. by vm_compute. Qed.

(** C1, as the spec states it, fails: a run of two kills in the year 999
    gets a label whose date has a year of three digits, not
    [YYYY-MM-DD HH:MM:SS], and a run of two kills whose last kill is in
    the year 10000 gets no label, the call raises. *)
Lemma calculate_kill_streaks_outside_YYYY :
  Sorted Z.le [-30610224002; -30610224001]
  ∧ calculate_kill_streaks [-30610224002; -30610224001] 10
    = Return ["Double Kill at 999-12-31 23:59:59"]
  ∧ ¬ (∃ text, String.length text = 19%nat
               ∧ calculate_kill_streaks [-30610224002; -30610224001] 10
                 = Return ["Double Kill at " +:+ text])
  ∧ Sorted Z.le [253402300799; 253402300800]
  ∧ calculate_kill_streaks [253402300799; 253402300800] 10 = Raise ValueError.
Proof.
  assert (H999 : calculate_kill_streaks [-30610224002; -30610224001] 10
                 = Return ["Double Kill at 999-12-31 23:59:59"]).
  { rewrite calculate_kill_streaks_labels. by vm_compute. }
  split; [repeat constructor; lia |].
  split; [exact H999 |].
  split.
  { intros (text & Hlen & Htext). rewrite H999 in Htext.
    injection Htext as Htext. apply (f_equal String.length) in Htext.
    rewrite length_append, Hlen in Htext. simpl in Htext. lia. }
  split; [repeat constructor; lia |].
  rewrite calculate_kill_streaks_labels. by vm_compute.
Qed.



(** ** Killing spree *)

Section KillingSpree.

Variable death_history : list Z.

Lemma spree_deaths_pass kill st :
  (streak (spree_deaths death_history kill st),
   max_streak (spree_deaths death_history kill st),
   deaths_left death_history (spree_deaths death_history kill st))
  = pass_deaths kill (streak st) (max_streak st) (deaths_left death_history st).
Proof.
  unfold deaths_left.
  funelim (spree_deaths death_history kill st).
  - rewrite (drop_getitem _ _ l). simpl pass_deaths.
    destruct (_ <=? _).
    + match goal with IH : _ = pass_deaths _ _ _ _ |- _ => exact IH end.
    + by rewrite <- (drop_getitem _ _ l).
  - by rewrite drop_ge by lia.
Qed.

Lemma deaths_left_nil st :
  deaths_left death_history st = [] ↔ ¬ (death_index st < length death_history)%nat.
Proof.
  unfold deaths_left. split.
  - intros H%(f_equal length). rewrite length_drop in H. simpl in H. lia.
  - intros H. apply drop_ge. lia.
Qed.

Lemma spree_fold_walk kills : ∀ st,
  let st' := fold_left (spree_kill death_history) kills st in
  Z.max (max_streak st') (streak st')
  = spree_walk kills (streak st) (max_streak st) (deaths_left death_history st).
Proof.
  induction kills as [| kill kills IH]; intros st; simpl; [reflexivity |].
  rewrite IH. rewrite <- spree_deaths_pass. unfold spree_kill.
  destruct (deaths_left death_history (spree_deaths death_history kill st)) eqn:Hleft.
  - apply deaths_left_nil in Hleft as Hidx.
    apply Nat.ltb_nlt in Hidx. rewrite Hidx. by rewrite Hleft.
  - assert (death_index (spree_deaths death_history kill st)
            < length death_history)%nat as Hidx.
    { destruct (decide (death_index (spree_deaths death_history kill st)
                        < length death_history)%nat) as [| Hn]; [done |].
      apply deaths_left_nil in Hn. congruence. }
    apply Nat.ltb_lt in Hidx. rewrite Hidx. simpl.
    unfold deaths_left in *. simpl. by rewrite Hleft.
Qed.

End KillingSpree.

Lemma spree_walk_no_deaths kills : ∀ streak recorded,
  spree_walk kills streak recorded [] = Z.max recorded streak.
Proof. induction kills; intros; simpl; auto. Qed.

Lemma pass_deaths_suffix kill deaths : ∀ streak recorded,
  ∃ passed, deaths = passed ++ snd (pass_deaths kill streak recorded deaths).
Proof.
  induction deaths as [| d deaths IH]; intros streak recorded; simpl.
  - by exists [].
  - destruct (d <=? kill).
    + destruct (IH 0 (Z.max recorded streak)) as [passed Hp].
      exists (d :: passed). simpl. by rewrite <- Hp.
    + by exists [].
Qed.

Lemma pass_deaths_nonneg kill deaths : ∀ streak recorded,
  0 <= streak →
  0 <= fst (fst (pass_deaths kill streak recorded deaths)).
Proof.
  induction deaths as [| d deaths IH]; intros streak recorded Hs; simpl.
  - done.
  - destruct (d <=? kill); [by apply IH | done].
Qed.

Lemma pass_deaths_all kill deaths : ∀ streak recorded,
  0 <= streak →
  (∀ d, d ∈ deaths → d <= kill) →
  snd (pass_deaths kill streak recorded deaths) = []
  ∧ Z.max (snd (fst (pass_deaths kill streak recorded deaths)))
          (fst (fst (pass_deaths kill streak recorded deaths)))
    = Z.max recorded streak.
Proof.
  induction deaths as [| d deaths IH]; intros streak recorded Hs Hall; simpl.
  - done.
  - rewrite (proj2 (Z.leb_le d kill)) by (apply Hall; left).
    destruct (IH 0 (Z.max recorded streak)) as [Hnil Hmax]; [lia | |].
    + intros d' Hd'. apply Hall. by right.
    + split; [done | lia].
Qed.

(** Kills that come after every remaining death add nothing. *)
Lemma spree_walk_late_kills late : ∀ streak recorded deaths,
  0 <= streak →
  (∀ k d, k ∈ late → d ∈ deaths → d <= k) →
  spree_walk late streak recorded deaths = Z.max recorded streak.
Proof.
  destruct late as [| k late]; intros streak recorded deaths Hs Hlate; simpl.
  - reflexivity.
  - destruct (pass_deaths_all k deaths streak recorded) as [Hnil Hmax]; [done | |].
    { intros d Hd. apply (Hlate k d); [left | done]. }
    destruct (pass_deaths k streak recorded deaths) as [[s r] ds].
    simpl in *. subst ds. by rewrite spree_walk_no_deaths.
Qed.

Lemma spree_walk_app kills late : ∀ streak recorded deaths,
  0 <= streak →
  (∀ k d, k ∈ late → d ∈ deaths → d <= k) →
  spree_walk (kills ++ late) streak recorded deaths
  = spree_walk kills streak recorded deaths.
Proof.
  induction kills as [| kill kills IH]; intros streak recorded deaths Hs Hlate.
  - simpl. by apply spree_walk_late_kills.
  - simpl.
    destruct (pass_deaths_suffix kill deaths streak recorded) as [passed Hp].
    pose proof (pass_deaths_nonneg kill deaths streak recorded Hs) as Hs'.
    destruct (pass_deaths kill streak recorded deaths) as [[s r] ds].
    simpl in Hp, Hs'.
    assert (∀ k d, k ∈ late → d ∈ ds → d <= k) as Hlate'.
    { intros k d Hk Hd. apply Hlate; [done |]. rewrite Hp.
      apply elem_of_app. by right. }
    destruct ds; apply IH; (done || lia).
Qed.

Lemma human_kills_app kh1 kh2 :
  human_kills (kh1 ++ kh2) = human_kills kh1 ++ human_kills kh2.
Proof. unfold human_kills. by rewrite List.filter_app, map_app. Qed.

Lemma calculate_max_killing_spree_spec kill_history death_history :
  calculate_max_killing_spree kill_history death_history
  = spree_walk (human_kills kill_history) 0 0 death_history.
Proof.
  unfold calculate_max_killing_spree.
  by rewrite (spree_fold_walk death_history).
Qed.

(** C2. [calculate_max_killing_spree] walks the human kills with a pointer
    into the deaths: [pass_deaths] moves the pointer past every death not
    after the kill, recording and resetting the streak at each move, the
    streak grows only while deaths remain, and the result is the maximum of
    the recorded value and the last streak. Hence kills after the final
    death do not count, an empty death history gives 0, and the three
    examples give 3, 0 and 2. *)
Theorem calculate_max_killing_spree_walk
    (kill_history : list kill) (death_history : list Z) :
  calculate_max_killing_spree kill_history death_history
  = spree_walk (human_kills kill_history) 0 0 death_history
  ∧ (∀ late : list kill,
       (∀ k d, k ∈ human_kills late → d ∈ death_history → d <= k) →
       calculate_max_killing_spree (kill_history ++ late) death_history
       = calculate_max_killing_spree kill_history death_history)
  ∧ calculate_max_killing_spree kill_history [] = 0
  ∧ (let human t := {| timestamp := t; kill_type := "human" |} in
     calculate_max_killing_spree [human 1; human 2; human 3] [4] = 3
     ∧ calculate_max_killing_spree [human 1; human 2; human 3] [] = 0
     ∧ calculate_max_killing_spree [human 1; human 2; human 5] [3] = 2).
Proof.
  split; [apply calculate_max_killing_spree_spec |].
  split.
  { intros late Hlate. rewrite !calculate_max_killing_spree_spec.
    rewrite human_kills_app. by apply spree_walk_app. }
  split.
  { rewrite calculate_max_killing_spree_spec. by rewrite spree_walk_no_deaths. }
  repeat split; reflexivity.
Qed.

Lemma calculate_max_killing_spree_walk_witness :
  calculate_max_killing_spree
    ([{| timestamp := 1; kill_type := "human" |};
      {| timestamp := 2; kill_type := "minion" |};
      {| timestamp := 3; kill_type := "human" |}]
     ++ [{| timestamp := 7; kill_type := "human" |};
         {| timestamp := 9; kill_type := "human" |}]) [2; 5]
  = 1.
Proof.
  destruct (calculate_max_killing_spree_walk
              [{| timestamp := 1; kill_type := "human" |};
               {| timestamp := 2; kill_type := "minion" |};
               {| timestamp := 3; kill_type := "human" |}] [2; 5])
    as (_ & Hlate & _).
  rewrite Hlate; [reflexivity |].
  intros k d Hk Hd. change (k ∈ [7; 9]) in Hk.
  repeat match goal with
         | H : _ ∈ _ :: _ |- _ => apply elem_of_cons in H as [-> | H]
         | H : _ ∈ [] |- _ => by apply elem_of_nil in H
         end; lia.
Defined.

(** ** Player registry *)

Section Dict.

Context {V : Type}.
Implicit Types (d : list (string * V)) (k : string) (v : V).

Lemma dict_get_set_eq d k v : dict_get (dict_set d k v) k = Some v.
Proof.
  induction d as [| [k' v'] d IH]; simpl.
  - by rewrite String.eqb_refl.
  - destruct (String.eqb k' k) eqn:Hk; simpl.
    + by rewrite String.eqb_refl.
    + by rewrite Hk.
Qed.

Lemma dict_get_set_ne d k k' v :
  k ≠ k' → dict_get (dict_set d k v) k' = dict_get d k'.
Proof.
  intros Hne. induction d as [| [k0 v0] d IH]; simpl.
  - by rewrite (proj2 (String.eqb_neq k k')).
  - destruct (String.eqb k0 k) eqn:Hk; simpl.
    + apply String.eqb_eq in Hk as ->.
      by rewrite (proj2 (String.eqb_neq k k')).
    + by rewrite IH.
Qed.

Lemma dict_get_pop_eq d k : dict_get (dict_pop d k) k = None.
Proof.
  induction d as [| [k' v'] d IH]; simpl; [done |].
  destruct (String.eqb k' k) eqn:Hk; simpl; [done |]. by rewrite Hk.
Qed.

Lemma dict_get_pop_ne d k k' :
  k ≠ k' → dict_get (dict_pop d k) k' = dict_get d k'.
Proof.
  intros Hne. induction d as [| [k0 v0] d IH]; simpl; [done |].
  destruct (String.eqb k0 k) eqn:Hk; simpl.
  - apply String.eqb_eq in Hk as ->.
    by rewrite (proj2 (String.eqb_neq k k')).
  - by rewrite IH.
Qed.

(** Selecting the keys of the entries that satisfy [sel], before and
    after a [pop]. *)
Lemma dict_pop_keys d k (sel : string * V → bool) :
  map fst (List.filter sel (dict_pop d k))
  = List.filter (fun k' => negb (String.eqb k' k)) (map fst (List.filter sel d)).
Proof.
  induction d as [| [k' v'] d IH]; simpl; [done |].
  destruct (String.eqb k' k) eqn:Hk; simpl.
  - destruct (sel (k', v')); simpl; [by rewrite Hk |]; done.
  - destruct (sel (k', v')); simpl; [rewrite Hk; simpl; by f_equal | done].
Qed.

End Dict.

(** C10. After [register_player p m t] the three lookups return [m], [t]
    and [m]; a player that is not registered, or that was unregistered,
    has no match and no team (the lookups return [None], they do not
    raise); [unregister_player p] leaves every other entry and the team
    table as they were, so the players of a match or team are the same
    without [p]. *)
Theorem player_registry_lookups
    (cls : PlayerRegistry.t) (p : string) (m : option string) (t : string) :
  (let cls' := PlayerRegistry.register_player cls p m t in
   PlayerRegistry.get_match_id_for_player cls' p = m
   ∧ PlayerRegistry.get_team_id cls' p = Some t
   ∧ PlayerRegistry.get_match_id_for_team cls' t = m)
  ∧ (PlayerRegistry.get_match_id_for_player PlayerRegistry.empty p = None
     ∧ PlayerRegistry.get_team_id PlayerRegistry.empty p = None)
  ∧ (dict_get (PlayerRegistry._matches cls) p = None →
     PlayerRegistry.get_match_id_for_player cls p = None
     ∧ PlayerRegistry.get_team_id cls p = None)
  ∧ (let cls' := PlayerRegistry.unregister_player cls p in
     PlayerRegistry.get_match_id_for_player cls' p = None
     ∧ PlayerRegistry.get_team_id cls' p = None
     ∧ (∀ q, q ≠ p →
          dict_get (PlayerRegistry._matches cls') q
          = dict_get (PlayerRegistry._matches cls) q)
     ∧ PlayerRegistry._teams cls' = PlayerRegistry._teams cls
     ∧ (∀ m', PlayerRegistry.players_for_match cls' m'
              = List.filter (fun q => negb (String.eqb q p))
                            (PlayerRegistry.players_for_match cls m'))
     ∧ (∀ t', PlayerRegistry.players_for_team cls' t'
              = List.filter (fun q => negb (String.eqb q p))
                            (PlayerRegistry.players_for_team cls t'))).
Proof.
  unfold PlayerRegistry.get_match_id_for_player, PlayerRegistry.get_team_id,
    PlayerRegistry.get_match_id_for_team, PlayerRegistry.players_for_match,
    PlayerRegistry.players_for_team.
  split; [| split; [| split]]; simpl.
  - by rewrite !dict_get_set_eq.
  - done.
  - by intros ->.
  - rewrite dict_get_pop_eq.
    repeat split; auto using dict_pop_keys.
    intros q Hq. apply dict_get_pop_ne. congruence.
Qed.

Lemma player_registry_lookups_witness :
  PlayerRegistry.get_match_id_for_player
    (PlayerRegistry.register_player PlayerRegistry.empty "player_1"
       (Some "game_1") "team_1") "player_2" = None.
Proof.
  pose proof (player_registry_lookups
    (PlayerRegistry.register_player PlayerRegistry.empty "player_1"
       (Some "game_1") "team_1") "player_2" None "team_2") as (_ & _ & H & _).
  apply H. reflexivity.
Defined.

(** ** Store operations: what a step leaves alone *)

Lemma write_fields_lookup_notin (l : list (string * value)) : ∀ h f,
  f ∉ map fst l → write_fields h l !! f = h !! f.
Proof.
  unfold write_fields.
  induction l as [| [f' v] l IH]; intros h f Hf; simpl in *; [done |].
  rewrite IH by (intros ?; apply Hf; by right).
  apply lookup_insert_ne. intros ->. apply Hf. by left.
Qed.

Lemma encode_mapping_fields mapping l :
  encode_mapping mapping = Some l → map fst l = map fst mapping.
Proof.
  revert l. induction mapping as [| [f [v |]] mapping IH]; intros l Hl; simpl in *.
  - by injection Hl as <-.
  - destruct (encode_mapping mapping) as [l' |]; [| done].
    injection Hl as <-. simpl. f_equal. by apply IH.
  - done.
Qed.

Lemma hset_registry k mapping s : registry (hset k mapping s).1 = registry s.
Proof. unfold hset. by destruct (encode_mapping mapping). Qed.

Lemma hset_zsets k mapping s :
  kill_zsets (redis (hset k mapping s).1) = kill_zsets (redis s)
  ∧ death_zsets (redis (hset k mapping s).1) = death_zsets (redis s).
Proof. unfold hset. by destruct (encode_mapping mapping). Qed.

(** [hset] touches only the hash at its key, and there only the fields of
    the mapping. *)
Lemma hset_field_other_key k mapping s k' f :
  k ≠ k' → field (hset k mapping s).1 k' f = field s k' f.
Proof.
  intros Hk. unfold hset. destruct (encode_mapping mapping); [| done].
  unfold field. simpl. by rewrite lookup_insert_ne.
Qed.

Lemma hset_field_other k mapping s k' f :
  f ∉ map fst mapping → field (hset k mapping s).1 k' f = field s k' f.
Proof.
  intros Hf. destruct (decide (k = k')) as [<- | Hk];
    [| by apply hset_field_other_key].
  unfold hset. destruct (encode_mapping mapping) as [l |] eqn:Hl; [| done].
  unfold field. simpl. rewrite lookup_insert_eq. simpl.
  rewrite write_fields_lookup_notin
    by (by rewrite (encode_mapping_fields _ _ Hl)).
  by destruct (hashes (redis s) !! k).
Qed.

Lemma hset_field_single k f v s k' f' :
  field (hset k [(f, Some v)] s).1 k' f'
  = if decide (k = k' ∧ f = f') then Some v else field s k' f'.
Proof.
  unfold hset, field. simpl.
  destruct (decide (k = k' ∧ f = f')) as [[<- <-] | Hne].
  - rewrite lookup_insert_eq. simpl. by rewrite lookup_insert_eq.
  - destruct (decide (k = k')) as [<- | Hk].
    + rewrite lookup_insert_eq. simpl.
      rewrite lookup_insert_ne by (intros ->; by apply Hne).
      by destruct (hashes (redis s) !! k).
    + by rewrite lookup_insert_ne.
Qed.

Lemma hset_return k mapping l s :
  encode_mapping mapping = Some l → (hset k mapping s).2 = Return tt.
Proof. intros Hl. unfold hset. by rewrite Hl. Qed.

Lemma hincrby_registry k f amount s :
  registry (hincrby k f amount s).1 = registry s.
Proof.
  unfold hincrby. destruct amount as [a |]; [| done].
  destruct (int64 a); [| done].
  destruct (field s k f) as [[n | | | |] |]; try done;
    try (destruct (int64 n && int64 (n + a)); [| done]);
    by rewrite ?hset_registry.
Qed.

Lemma hincrby_zsets k f amount s :
  kill_zsets (redis (hincrby k f amount s).1) = kill_zsets (redis s)
  ∧ death_zsets (redis (hincrby k f amount s).1) = death_zsets (redis s).
Proof.
  unfold hincrby. destruct amount as [a |]; [| done].
  destruct (int64 a); [| done].
  destruct (field s k f) as [[n | | | |] |]; try done.
  destruct (int64 n && int64 (n + a)); done.
Qed.

(** [hincrby] touches one field of one hash. *)
Lemma hincrby_field_other k f amount s k' f' :
  ¬ (k = k' ∧ f = f') →
  field (hincrby k f amount s).1 k' f' = field s k' f'.
Proof.
  intros Hne. unfold hincrby. destruct amount as [a |]; [| done].
  destruct (int64 a); [| done].
  destruct (field s k f) as [[n | | | |] |]; try done;
    try (destruct (int64 n && int64 (n + a)); [| done]);
    rewrite hset_field_single; by rewrite decide_False.
Qed.

Lemma hincrby_field_same k f a s :
  accepts s k f a →
  (hincrby k f (Some a) s).2 = Return tt
  ∧ field (hincrby k f (Some a) s).1 k f = Some (VInt (counter s k f + a)).
Proof.
  unfold accepts, integer_field, counter, hincrby.
  destruct (field s k f) as [[n | | | |] |] eqn:Hf; try (by intros []);
    intros (_ & -> & Hn & Hsum); rewrite ?Hn, ?Hsum; cbn [andb]; cbv iota;
    (split; [done |]); rewrite hset_field_single; by rewrite decide_True.
Qed.

(** A refused increment: the state is as it was. *)
Lemma hincrby_refused k f a s :
  int64 a = false → hincrby k f (Some a) s = (s, Raise ResponseError).
Proof. intros Ha. unfold hincrby. by rewrite Ha. Qed.

Lemma hincrby_field_int k f amount s k' f' n :
  field s k' f' = Some (VInt n) →
  ∃ n', field (hincrby k f amount s).1 k' f' = Some (VInt n')
        ∧ (n' = n ∨ ∃ a, amount = Some a ∧ n' = n + a).
Proof.
  intros Hn. destruct (decide (k = k' ∧ f = f')) as [[<- <-] | Hne].
  - destruct amount as [a |]; [| by exists n; split; [| left]].
    unfold hincrby. rewrite Hn.
    destruct (int64 a); [| by exists n; split; [| left]].
    destruct (int64 n && int64 (n + a)); [| by exists n; split; [| left]].
    exists (n + a). rewrite hset_field_single, decide_True by done.
    split; [done |]. right. by exists a.
  - exists n. rewrite hincrby_field_other by done. split; [done | by left].
Qed.

(** ** Composing what the steps of a processor leave alone *)

Section Frame.

Context {R : State → State → Prop} `{!Reflexive R} `{!Transitive R}.

Lemma preserves_ret {A} (a : A) : preserves R (ret a).
Proof. intros s. reflexivity. Qed.

Lemma preserves_raise {A} e : preserves R (@raise A e).
Proof. intros s. reflexivity. Qed.

Lemma preserves_lift {A} (r : result A) : preserves R (lift r).
Proof. intros s. reflexivity. Qed.

Lemma preserves_get_registry : preserves R get_registry.
Proof. intros s. reflexivity. Qed.

Lemma preserves_hget k f : preserves R (hget k f).
Proof. intros s. reflexivity. Qed.

Lemma preserves_zrange_kills k : preserves R (zrange_kills k).
Proof. intros s. reflexivity. Qed.

Lemma preserves_zrange_deaths k : preserves R (zrange_deaths k).
Proof. intros s. reflexivity. Qed.

Lemma preserves_bind {A B} (m : M A) (k : A → M B) :
  preserves R m → (∀ a, preserves R (k a)) → preserves R (bind m k).
Proof.
  intros Hm Hk s. unfold bind.
  specialize (Hm s). destruct (m s) as [s' [a | e]]; simpl in *; [| done].
  etransitivity; [exact Hm | apply Hk].
Qed.

Lemma preserves_for_each {A} (l : list A) (body : A → M unit) :
  (∀ x, preserves R (body x)) → preserves R (for_each l body).
Proof.
  intros Hbody. induction l as [| x l IH]; simpl.
  - apply preserves_ret.
  - apply preserves_bind; [apply Hbody | intros _; apply IH].
Qed.

Lemma preserves_get_team_state_key team_id match_id :
  preserves R (get_team_state_key team_id match_id).
Proof.
  unfold get_team_state_key. apply preserves_bind; [apply preserves_get_registry |].
  intros cls. destruct match_id; simpl.
  - apply preserves_ret.
  - destruct (team_id ≫= _); [apply preserves_ret | apply preserves_raise].
Qed.

Lemma preserves_get_player_state_key player_id match_id :
  preserves R (get_player_state_key player_id match_id).
Proof.
  unfold get_player_state_key.
  apply preserves_bind; [apply preserves_get_registry |].
  intros cls. destruct match_id; simpl.
  - apply preserves_ret.
  - destruct (PlayerRegistry.get_match_id_for_player _ _);
      [apply preserves_ret | apply preserves_raise].
Qed.

Lemma preserves_get_player_kill_history_key player_id :
  preserves R (get_player_kill_history_key player_id).
Proof.
  unfold get_player_kill_history_key.
  apply preserves_bind; [apply preserves_get_registry |].
  intros cls. destruct (PlayerRegistry.get_match_id_for_player _ _);
    [apply preserves_ret | apply preserves_raise].
Qed.

Lemma preserves_get_player_death_history_key player_id :
  preserves R (get_player_death_history_key player_id).
Proof.
  unfold get_player_death_history_key.
  apply preserves_bind; [apply preserves_get_registry |].
  intros cls. destruct (PlayerRegistry.get_match_id_for_player _ _);
    [apply preserves_ret | apply preserves_raise].
Qed.

Lemma preserves_event_timestamp iso ts : preserves R (event_timestamp iso ts).
Proof.
  unfold event_timestamp. destruct ts as [s |]; [| apply preserves_raise].
  destruct (iso s); [apply preserves_ret | apply preserves_raise].
Qed.

End Frame.

(** One step of decomposition of a goal [preserves R m]: the structural
    rules, then a case analysis on the scrutinee of a [match]. *)
Ltac preserves_step :=
  first
    [ apply preserves_ret | apply preserves_raise | apply preserves_lift
    | apply preserves_get_registry | apply preserves_hget
    | apply preserves_zrange_kills | apply preserves_zrange_deaths
    | apply preserves_get_team_state_key | apply preserves_get_player_state_key
    | apply preserves_get_player_kill_history_key
    | apply preserves_get_player_death_history_key
    | apply preserves_event_timestamp
    | apply preserves_bind; [| intros ?]
    | apply preserves_for_each; intros ?
    | match goal with
      | |- preserves _ (match ?x with _ => _ end) => destruct x
      end ].

#[global] Instance same_field_refl f : Reflexive (same_field f).
Proof. by intros s k. Qed.

#[global] Instance same_field_trans f : Transitive (same_field f).
Proof. intros s1 s2 s3 H12 H23 k. by rewrite H23. Qed.

#[global] Instance same_registry_refl : Reflexive same_registry.
Proof. by intros s. Qed.

#[global] Instance same_registry_trans : Transitive same_registry.
Proof. unfold same_registry. intros s1 s2 s3 H12 H23. congruence. Qed.

#[global] Instance counters_grow_refl : Reflexive counters_grow.
Proof. intros s k f n _ Hn. exists n. split; [done | lia]. Qed.

#[global] Instance counters_grow_trans : Transitive counters_grow.
Proof.
  intros s1 s2 s3 H12 H23 k f n Hf Hn.
  destruct (H12 k f n Hf Hn) as (n2 & Hn2 & Hle2).
  destruct (H23 k f n2 Hf Hn2) as (n3 & Hn3 & Hle3).
  exists n3. split; [done | lia].
Qed.

(** *** The store operations and the three relations *)

Lemma add_kill_history_field k t kt s k' f :
  field (add_kill_history k t kt s).1 k' f = field s k' f.
Proof. done. Qed.

Lemma zadd_death_field k t s k' f :
  field (zadd_death k t s).1 k' f = field s k' f.
Proof. done. Qed.

Lemma same_field_hset f k mapping :
  f ∉ map fst mapping → preserves (same_field f) (hset k mapping).
Proof. intros Hf s k'. by apply hset_field_other. Qed.

Lemma same_field_hincrby f k f' amount :
  f ≠ f' → preserves (same_field f) (hincrby k f' amount).
Proof. intros Hf s k'. apply hincrby_field_other. intros [_ ->]. done. Qed.

Lemma same_field_add_kill_history f k t kt :
  preserves (same_field f) (add_kill_history k t kt).
Proof. by intros s k'. Qed.

Lemma same_field_zadd_death f k t : preserves (same_field f) (zadd_death k t).
Proof. by intros s k'. Qed.

Lemma same_registry_hset k mapping : preserves same_registry (hset k mapping).
Proof. intros s. apply hset_registry. Qed.

Lemma same_registry_hincrby k f amount :
  preserves same_registry (hincrby k f amount).
Proof. intros s. apply hincrby_registry. Qed.

Lemma same_registry_add_kill_history k t kt :
  preserves same_registry (add_kill_history k t kt).
Proof. by intros s. Qed.

Lemma same_registry_zadd_death k t : preserves same_registry (zadd_death k t).
Proof. by intros s. Qed.

Lemma counters_grow_hset k mapping :
  (∀ f, f ∈ counter_fields → f ∉ map fst mapping) →
  preserves counters_grow (hset k mapping).
Proof.
  intros Hf s k' f n Hc Hn. exists n.
  rewrite hset_field_other by auto. split; [done | lia].
Qed.

Lemma counters_grow_hincrby k f amount :
  (∀ a, amount = Some a → 0 <= a) →
  preserves counters_grow (hincrby k f amount).
Proof.
  intros Ha s k' f' n _ Hn.
  destruct (hincrby_field_int k f amount s k' f' n Hn)
    as (n' & Hn' & [-> | (a & -> & ->)]).
  - exists n. split; [done | lia].
  - exists (n + a). split; [done |]. specialize (Ha a eq_refl). lia.
Qed.

Lemma counters_grow_add_kill_history k t kt :
  preserves counters_grow (add_kill_history k t kt).
Proof. intros s k' f n _ Hn. exists n. split; [done | lia]. Qed.

Lemma counters_grow_zadd_death k t : preserves counters_grow (zadd_death k t).
Proof. intros s k' f n _ Hn. exists n. split; [done | lia]. Qed.

(** A concrete field name is not among the concrete names of a mapping. *)
Ltac not_a_field :=
  simpl; intros Hin;
  repeat (apply elem_of_cons in Hin as [Hin | Hin]; [discriminate Hin |]);
  by apply elem_of_nil in Hin.

Lemma preserves_for_each_Forall {A} (R : State → State → Prop)
    `{!Reflexive R} `{!Transitive R} (P : A → Prop) (l : list A)
    (body : A → M unit) :
  (∀ x, P x → preserves R (body x)) → Forall P l →
  preserves R (for_each l body).
Proof.
  intros Hbody Hl. induction Hl as [| x l Hx Hl IH]; simpl.
  - apply preserves_ret.
  - apply preserves_bind; [by apply Hbody | intros _; apply IH].
Qed.

(** ** Processors other than MatchStartProcessor: frame properties *)

Ltac preserves_same_field :=
  repeat first
    [ progress cbv beta zeta
    | apply same_field_hset; not_a_field
    | apply same_field_hincrby; discriminate
    | apply same_field_add_kill_history
    | apply same_field_zadd_death
    | preserves_step ].

Ltac preserves_same_registry :=
  repeat first
    [ progress cbv beta zeta
    | apply same_registry_hset
    | apply same_registry_hincrby
    | apply same_registry_add_kill_history
    | apply same_registry_zadd_death
    | preserves_step ].

Section ProcessorFrames.

Variable settings : Settings.
Variable iso : string → option Z.

Lemma MinionKillProcessor_alive e :
  preserves (same_field "alive") (MinionKillProcessor iso e).
Proof. unfold MinionKillProcessor. preserves_same_field. Qed.

Lemma PlayerKillProcessor_alive e :
  preserves (same_field "alive") (PlayerKillProcessor iso e).
Proof.
  unfold PlayerKillProcessor, PlayerKill_killer, PlayerKill_assistants,
    PlayerKill_victim, PlayerKill_first_blood.
  preserves_same_field.
Qed.

Lemma DragonKillProcessor_alive e :
  preserves (same_field "alive") (DragonKillProcessor iso e).
Proof. unfold DragonKillProcessor. preserves_same_field. Qed.

Lemma TurretDestroyProcessor_alive e :
  preserves (same_field "alive") (TurretDestroyProcessor e).
Proof.
  unfold TurretDestroyProcessor, TurretDestroy_player. preserves_same_field.
Qed.

Lemma MatchEndProcessor_alive e :
  preserves (same_field "alive") (MatchEndProcessor settings e).
Proof.
  unfold MatchEndProcessor, MatchEnd_calculate_kill_streaks,
    MatchEnd_calculate_max_killing_sprees.
  preserves_same_field.
Qed.

Lemma process_event_alive e :
  GameEvent.type_ e ≠ MATCH_START →
  preserves (same_field "alive") (process_event settings iso e).
Proof.
  intros Hty. unfold process_event.
  destruct (GameEvent.type_ e); try done;
    auto using MinionKillProcessor_alive, PlayerKillProcessor_alive,
      DragonKillProcessor_alive, TurretDestroyProcessor_alive,
      MatchEndProcessor_alive, preserves_ret.
Qed.

Lemma process_event_registry e :
  GameEvent.type_ e ≠ MATCH_START →
  preserves same_registry (process_event settings iso e).
Proof.
  intros Hty. unfold process_event.
  destruct (GameEvent.type_ e); try done;
    unfold MinionKillProcessor, PlayerKillProcessor, PlayerKill_killer,
      PlayerKill_assistants, PlayerKill_victim, PlayerKill_first_blood,
      DragonKillProcessor, TurretDestroyProcessor, TurretDestroy_player,
      MatchEndProcessor, MatchEnd_calculate_kill_streaks,
      MatchEnd_calculate_max_killing_sprees;
    preserves_same_registry.
Qed.

End ProcessorFrames.

(** ** MatchStartProcessor *)

Arguments hset : simpl never.
Arguments hincrby : simpl never.

Lemma write_fields_lookup (l : list (string * value)) : ∀ h f,
  write_fields h l !! f
  = match written l f with Some v => Some v | None => h !! f end.
Proof.
  unfold write_fields.
  induction l as [| [f' v] l IH]; intros h f; simpl; [done |].
  rewrite IH. destruct (written l f); [done |].
  destruct (String.eqb f' f) eqn:Hf.
  - apply String.eqb_eq in Hf as ->. by rewrite lookup_insert_eq.
  - apply String.eqb_neq in Hf. by rewrite lookup_insert_ne.
Qed.

Lemma hset_field k mapping l s k' f :
  encode_mapping mapping = Some l →
  field (hset k mapping s).1 k' f = hset_update k mapping k' f (field s k' f).
Proof.
  intros Hl. unfold hset_update, hset, field. rewrite Hl. simpl.
  destruct (decide (k = k')) as [<- | Hk].
  - rewrite lookup_insert_eq. simpl. rewrite write_fields_lookup.
    destruct (written l f); [done |]. by destruct (hashes (redis s) !! k).
  - by rewrite lookup_insert_ne.
Qed.

(** A loop whose body always returns and acts on each field by [upd],
    and on the registry by [reg]. *)
Lemma for_each_effect {A} (l : list A) (body : A → M unit)
    (upd : A → key → string → option value → option value)
    (reg : A → PlayerRegistry.t → PlayerRegistry.t) :
  (∀ x s, (body x s).2 = Return tt
          ∧ (∀ k f, field (body x s).1 k f = upd x k f (field s k f))
          ∧ registry (body x s).1 = reg x (registry s)) →
  ∀ s, (for_each l body s).2 = Return tt
       ∧ (∀ k f, field (for_each l body s).1 k f
                 = fold_left (fun old x => upd x k f old) l (field s k f))
       ∧ registry (for_each l body s).1
         = fold_left (fun cls x => reg x cls) l (registry s).
Proof.
  intros Hbody. induction l as [| x l IH]; intros s; simpl; [done |].
  unfold bind. destruct (Hbody x s) as (Hret & Hfield & Hreg).
  destruct (body x s) as [s1 r]; simpl in *. subst r.
  destruct (IH s1) as (Hret' & Hfield' & Hreg').
  split; [done |]. split.
  - intros k f. by rewrite Hfield', Hfield.
  - by rewrite Hreg', Hreg.
Qed.

Lemma for_each_app {A} (body : A → M unit) (l1 l2 : list A) s :
  for_each (l1 ++ l2) body s
  = match for_each l1 body s with
    | (s', Return _) => for_each l2 body s'
    | (s', Raise e) => (s', Raise e)
    end.
Proof.
  revert s. induction l1 as [| y l1 IH]; intros s; simpl; [done |].
  unfold bind. destruct (body y s) as [s1 [[] | e]]; [apply IH | done].
Qed.

Lemma for_each_map {A B} (g : A → B) (body : B → M unit) (l : list A) s :
  for_each (map g l) body s = for_each l (fun x => body (g x)) s.
Proof.
  revert s. induction l as [| x l IH]; intros s; simpl; [done |].
  unfold bind. destruct (body (g x) s) as [s1 [[] | e]]; [apply IH | done].
Qed.

(** A loop inside a loop visits the pairs in order. *)
Lemma for_each_nested {A B} (f : A → list B) (body : A → B → M unit)
    (l : list A) s :
  for_each l (fun x => for_each (f x) (body x)) s
  = for_each (flat_map (fun x => map (fun y => (x, y)) (f x)) l)
             (fun xy => body xy.1 xy.2) s.
Proof.
  revert s. induction l as [| x l IH]; intros s; simpl; [done |].
  rewrite for_each_app, for_each_map. simpl. unfold bind.
  destruct (for_each (f x) (body x) s) as [s1 [[] | e]]; [apply IH | done].
Qed.

Section MatchStart.

Variable match_id : string.

Lemma MatchStart_team_effect team s :
  (MatchStart_team (Some match_id) team s).2 = Return tt
  ∧ (∀ k f, field (MatchStart_team (Some match_id) team s).1 k f
            = hset_update (TeamKey match_id (MatchTeam.team_id team))
                team_metadata k f (field s k f))
  ∧ registry (MatchStart_team (Some match_id) team s).1 = registry s.
Proof.
  unfold MatchStart_team, get_team_state_key, bind, get_registry, ret. cbn.
  split; [done |]. split; [| done].
  intros k f. by erewrite hset_field.
Qed.

Lemma MatchStart_player_effect team player s :
  let player_id := MatchPlayer.player_id player in
  (MatchStart_player (Some match_id) team player s).2 = Return tt
  ∧ (∀ k f, field (MatchStart_player (Some match_id) team player s).1 k f
            = hset_update (PlayerKey match_id player_id)
                (player_metadata team player) k f (field s k f))
  ∧ registry (MatchStart_player (Some match_id) team player s).1
    = PlayerRegistry.register_player (registry s) player_id (Some match_id)
        (MatchTeam.team_id team).
Proof.
  unfold MatchStart_player, register_player, get_player_state_key, bind,
    get_registry, set_registry, ret. cbn.
  unfold PlayerRegistry.get_match_id_for_player. cbn.
  rewrite dict_get_set_eq. cbn.
  split; [done |]. split; [| done].
  intros k f. by erewrite hset_field.
Qed.

End MatchStart.

Lemma fold_left_invariant {A B} (P : B → Prop) (g : B → A → B) (l : list A) b :
  P b → (∀ x b', x ∈ l → P b' → P (g b' x)) → P (fold_left g l b).
Proof.
  revert b. induction l as [| x l IH]; intros b Hb Hg; simpl; [done |].
  apply IH.
  - apply Hg; [by left | done].
  - intros y b' Hy. apply Hg. by right.
Qed.

Lemma fold_left_unchanged {A B} (g : B → A → B) (l : list A) b :
  (∀ x b', x ∈ l → g b' x = b') → fold_left g l b = b.
Proof.
  intros Hg. apply (fold_left_invariant (fun b' => b' = b)); [done |].
  intros x b' Hx ->. by apply Hg.
Qed.

(** The entry of the roster for the last listing of a player. *)
Lemma roster_split payload before team after pbefore player pafter :
  MatchStartPayload.teams payload = before ++ team :: after →
  MatchTeam.players team = pbefore ++ player :: pafter →
  ∃ l1 l2,
    roster payload = l1 ++ (team, player) :: l2
    ∧ ∀ x, x ∈ l2 →
        (x.1 = team ∧ x.2 ∈ pafter) ∨ (x.1 ∈ after ∧ x.2 ∈ MatchTeam.players x.1).
Proof.
  intros Hteams Hplayers. unfold roster. rewrite Hteams.
  rewrite flat_map_app. simpl. rewrite Hplayers, map_app. simpl.
  set (pair_with := fun t : MatchTeam.t => map (fun p => (t, p)) (MatchTeam.players t)).
  exists (flat_map pair_with before ++ map (fun p => (team, p)) pbefore),
         (map (fun p => (team, p)) pafter ++ flat_map pair_with after).
  split.
  - rewrite <- !app_assoc. simpl. reflexivity.
  - intros [t p] Hx. apply elem_of_app in Hx as [Hx | Hx].
    + left. apply list_elem_of_fmap in Hx as (p' & Heq & Hp').
      injection Heq as -> ->. done.
    + right. apply list_elem_of_In, in_flat_map in Hx as (t' & Ht' & Hx).
      apply list_elem_of_In in Ht', Hx. subst pair_with. simpl in Hx.
      apply list_elem_of_fmap in Hx as (p' & Heq & Hp').
      injection Heq as -> ->. done.
Qed.

Lemma roster_team payload team player :
  team ∈ MatchStartPayload.teams payload → player ∈ MatchTeam.players team →
  (team, player) ∈ roster payload.
Proof.
  intros Ht Hp. unfold roster. apply list_elem_of_In, in_flat_map.
  exists team. split; [by apply list_elem_of_In |].
  apply list_elem_of_In, list_elem_of_fmap. by exists player.
Qed.

Lemma team_members_siblings team player :
  team_members team player = siblings team (MatchPlayer.player_id player).
Proof.
  unfold team_members, siblings.
  induction (MatchTeam.players team) as [| p l IH]; simpl; [done |].
  destruct (negb _); simpl; by rewrite IH.
Qed.

Section MatchStartEffect.

Variables (event : GameEvent.t) (payload : MatchStartPayload.t) (m : string).
Hypothesis Hpayload : GameEvent.payload event = PMatchStart payload.
Hypothesis Hmatch : GameEvent.match_id event = Some m.

(** The three stages of the processor with their effects on the fields
    and on the registry. *)
Lemma MatchStartProcessor_stages s :
  (MatchStartProcessor event s).2 = Return tt
  ∧ (∀ k f,
       field (MatchStartProcessor event s).1 k f
       = fold_left
           (fun old x =>
              hset_update (PlayerKey m (MatchPlayer.player_id x.2))
                (player_metadata x.1 x.2) k f old)
           (roster payload)
           (fold_left
              (fun old team =>
                 hset_update (TeamKey m (MatchTeam.team_id team))
                   team_metadata k f old)
              (MatchStartPayload.teams payload)
              (hset_update (GameKey m) (match_metadata (Some m) payload) k f
                 (field s k f))))
  ∧ registry (MatchStartProcessor event s).1
    = fold_left
        (fun cls x =>
           PlayerRegistry.register_player cls (MatchPlayer.player_id x.2)
             (Some m) (MatchTeam.team_id x.1))
        (roster payload) (registry s).
Proof.
  set (s1 := (hset (get_game_state_key (Some m))
                (match_metadata (Some m) payload) s).1).
  set (s2 := (for_each (MatchStartPayload.teams payload)
                (MatchStart_team (Some m)) s1).1).
  assert (Henc : ∃ l, encode_mapping (match_metadata (Some m) payload) = Some l)
    by (eexists; reflexivity).
  destruct Henc as [l Henc].
  pose proof (hset_return (get_game_state_key (Some m)) _ _ s Henc) as Hret1.
  pose proof (fun k f => hset_field (get_game_state_key (Some m)) _ _ s k f Henc)
    as Hfield1.
  pose proof (hset_registry (get_game_state_key (Some m))
                (match_metadata (Some m) payload) s) as Hreg1.
  destruct (for_each_effect (MatchStartPayload.teams payload)
              (MatchStart_team (Some m))
              (fun team => hset_update (TeamKey m (MatchTeam.team_id team))
                             team_metadata)
              (fun _ cls => cls)
              (MatchStart_team_effect m) s1) as (Hret2 & Hfield2 & Hreg2).
  destruct (for_each_effect (roster payload)
              (fun x => MatchStart_player (Some m) x.1 x.2)
              (fun x => hset_update (PlayerKey m (MatchPlayer.player_id x.2))
                          (player_metadata x.1 x.2))
              (fun x cls =>
                 PlayerRegistry.register_player cls (MatchPlayer.player_id x.2)
                   (Some m) (MatchTeam.team_id x.1))
              (fun x => MatchStart_player_effect m x.1 x.2) s2)
    as (Hret3 & Hfield3 & Hreg3).
  assert (Hrun : MatchStartProcessor event s
                 = for_each (roster payload)
                     (fun x => MatchStart_player (Some m) x.1 x.2) s2).
  { unfold MatchStartProcessor. rewrite Hpayload, Hmatch. cbv zeta.
    unfold bind. fold s1 in Hret1.
    destruct (hset _ _ s) as [s1' r1] eqn:Hs1. subst s1.
    cbn [fst snd] in *. subst r1.
    fold s2 in Hret2.
    destruct (for_each _ (MatchStart_team _) s1') as [s2' r2] eqn:Hs2.
    subst s2. cbn [fst snd] in *. subst r2.
    rewrite for_each_nested. reflexivity. }
  rewrite Hrun. subst s2 s1.
  split; [exact Hret3 |]. split.
  - intros k f. rewrite Hfield3, Hfield2, Hfield1. reflexivity.
  - rewrite Hreg3. f_equal. rewrite Hreg2, <- Hreg1.
    clear. induction (MatchStartPayload.teams payload); simpl; auto.
Qed.

End MatchStartEffect.

Lemma written_notin (l : list (string * value)) f :
  f ∉ map fst l → written l f = None.
Proof.
  induction l as [| [f' v] l IH]; intros Hf; simpl in *; [done |].
  rewrite IH by (intros ?; apply Hf; by right).
  rewrite (proj2 (String.eqb_neq f' f)); [done |].
  intros ->. apply Hf. by left.
Qed.

Lemma hset_update_ne k mapping k' f old :
  k ≠ k' → hset_update k mapping k' f old = old.
Proof. intros Hk. unfold hset_update. by rewrite decide_False. Qed.

Lemma hset_update_eq k mapping f old v :
  encode_mapping mapping ≫= (fun l => written l f) = Some v →
  hset_update k mapping k f old = Some v.
Proof. intros Hv. unfold hset_update. by rewrite decide_True, Hv. Qed.

Lemma hset_update_unwritten k mapping k' f old :
  f ∉ map fst mapping → hset_update k mapping k' f old = old.
Proof.
  intros Hf. unfold hset_update. destruct (decide (k = k')); [| done].
  destruct (encode_mapping mapping) as [l |] eqn:Hl; [| done]. simpl.
  rewrite written_notin; [done |]. by rewrite (encode_mapping_fields _ _ Hl).
Qed.

(** A loop of [hset]s on keys other than [k] leaves the hash at [k]. *)
Lemma fold_hset_update_other {A} (key_of : A → key)
    (mapping_of : A → list (string * option value)) (l : list A) k f init :
  (∀ x, x ∈ l → key_of x ≠ k) →
  fold_left (fun old x => hset_update (key_of x) (mapping_of x) k f old) l init
  = init.
Proof.
  intros Hk. apply fold_left_unchanged.
  intros x old Hx. apply hset_update_ne. by apply Hk.
Qed.

(** The last [hset] on a key decides the fields it writes. *)
Lemma fold_hset_update_last {A} (key_of : A → key)
    (mapping_of : A → list (string * option value)) (l1 l2 : list A) x f init v :
  (∀ y, y ∈ l2 → key_of y ≠ key_of x) →
  encode_mapping (mapping_of x) ≫= (fun l => written l f) = Some v →
  fold_left (fun old y => hset_update (key_of y) (mapping_of y) (key_of x) f old)
            (l1 ++ x :: l2) init
  = Some v.
Proof.
  intros Hl2 Hv. rewrite fold_left_app. simpl.
  rewrite (hset_update_eq _ _ _ _ v Hv).
  by apply fold_hset_update_other.
Qed.

Section MatchStartTheorems.

Variables (event : GameEvent.t) (payload : MatchStartPayload.t) (m : string).
Hypothesis Hpayload : GameEvent.payload event = PMatchStart payload.
Hypothesis Hmatch : GameEvent.match_id event = Some m.




End MatchStartTheorems.

Section MatchStartRegistry.

Variables (event : GameEvent.t) (payload : MatchStartPayload.t) (m : string).
Hypothesis Hpayload : GameEvent.payload event = PMatchStart payload.
Hypothesis Hmatch : GameEvent.match_id event = Some m.

Let register (cls : PlayerRegistry.t) (x : MatchTeam.t * MatchPlayer.t) :=
  PlayerRegistry.register_player cls (MatchPlayer.player_id x.2) (Some m)
    (MatchTeam.team_id x.1).

Lemma register_fold_other (l : list (MatchTeam.t * MatchPlayer.t)) cls q :
  (∀ x, x ∈ l → MatchPlayer.player_id x.2 ≠ q) →
  dict_get (PlayerRegistry._matches (fold_left register l cls)) q
  = dict_get (PlayerRegistry._matches cls) q.
Proof.
  intros Hq.
  apply (fold_left_invariant
           (fun c => dict_get (PlayerRegistry._matches c) q
                     = dict_get (PlayerRegistry._matches cls) q)); [done |].
  intros x c Hx Hc. unfold register. simpl.
  rewrite dict_get_set_ne by (by apply Hq). exact Hc.
Qed.

Lemma register_fold_team (l : list (MatchTeam.t * MatchPlayer.t)) cls t :
  (∃ x, x ∈ l ∧ MatchTeam.team_id x.1 = t) →
  dict_get (PlayerRegistry._teams (fold_left register l cls)) t = Some (Some m).
Proof.
  intros (x & Hx & Ht).
  apply list_elem_of_split in Hx as (l1 & l2 & ->).
  rewrite fold_left_app. simpl.
  apply (fold_left_invariant
           (fun c => dict_get (PlayerRegistry._teams c) t = Some (Some m))).
  - unfold register. simpl. rewrite Ht. apply dict_get_set_eq.
  - intros y c _ Hc. unfold register. simpl.
    destruct (decide (MatchTeam.team_id y.1 = t)) as [<- | Hne].
    + apply dict_get_set_eq.
    + by rewrite dict_get_set_ne.
Qed.


End MatchStartRegistry.

(** X5. A MATCH_START event without a match id raises [DataError] at the
    first write, whatever its payload: nothing is stored and nobody is
    registered. *)
Theorem MatchStartProcessor_without_match_id
    (event : GameEvent.t) (payload : MatchStartPayload.t) (s : State) :
  GameEvent.payload event = PMatchStart payload →
  GameEvent.match_id event = None →
  MatchStartProcessor event s = (s, Raise DataError).
Proof.
  intros Hpayload Hmatch. unfold MatchStartProcessor.
  by rewrite Hpayload, Hmatch.
Qed.





Lemma MatchStartProcessor_without_match_id_witness :
  MatchStartProcessor
    {| GameEvent.match_id := None; GameEvent.type_ := MATCH_START;
       GameEvent.payload := PMatchStart sample_match_start_payload;
       GameEvent.timestamp := None |} empty_state
  = (empty_state, Raise DataError).
Proof.
  by apply (MatchStartProcessor_without_match_id _ sample_match_start_payload).
Defined.

(** ** Sequences of events without MATCH_START *)

Ltac preserves_counters_grow :=
  repeat first
    [ progress cbv beta zeta
    | apply counters_grow_hset; intros ? Hc; unfold counter_fields in Hc;
      repeat (apply elem_of_cons in Hc as [-> | Hc]; [not_a_field |]);
      by apply elem_of_nil in Hc
    | apply counters_grow_hincrby; first [ assumption | by intros ? [= <-] ]
    | apply counters_grow_add_kill_history
    | apply counters_grow_zadd_death
    | preserves_step ].

Section Sequences.

Variable settings : Settings.
Variable iso : string → option Z.

Lemma TurretDestroy_player_counters_grow p killer_id player_id :
  nonneg (TurretDestroyPayload.player_gold_granted p) →
  nonneg (TurretDestroyPayload.team_gold_granted p) →
  preserves counters_grow (TurretDestroy_player p killer_id player_id).
Proof.
  intros Hplayer Hteam. unfold TurretDestroy_player, turret_gold, nonneg in *.
  destruct (String.eqb player_id killer_id).
  - destruct (TurretDestroyPayload.player_gold_granted p) as [g |] eqn:Hg;
      [specialize (Hplayer g eq_refl) |]; preserves_counters_grow.
  - destruct (TurretDestroyPayload.team_gold_granted p) as [g |] eqn:Hg;
      [specialize (Hteam g eq_refl) |]; preserves_counters_grow.
Qed.

Lemma process_event_counters_grow e :
  GameEvent.type_ e ≠ MATCH_START → gold_nonneg e →
  preserves counters_grow (process_event settings iso e).
Proof.
  intros Hty Hgold. unfold process_event.
  destruct (GameEvent.type_ e); try done; try apply preserves_ret;
    unfold gold_nonneg in Hgold;
    unfold MinionKillProcessor, PlayerKillProcessor, PlayerKill_killer,
      PlayerKill_assistants, PlayerKill_victim, PlayerKill_first_blood,
      DragonKillProcessor, TurretDestroyProcessor,
      MatchEndProcessor, MatchEnd_calculate_kill_streaks,
      MatchEnd_calculate_max_killing_sprees;
    destruct (GameEvent.payload e) as [p | p | p | p | p | p |];
    try apply preserves_raise; unfold nonneg in *.
  - (* MINION_KILL *)
    destruct (MinionKillPayload.gold_granted p) as [g |] eqn:Hg;
      [| apply preserves_ret].
    specialize (Hgold g eq_refl). preserves_counters_grow.
  - (* PLAYER_KILL *)
    destruct Hgold as [Hgold1 Hgold2].
    repeat (apply preserves_bind; [| intros ?]).
    + destruct (PlayerKillPayload.killer_id p); [| apply preserves_ret].
      destruct (PlayerKillPayload.gold_granted p) as [g |] eqn:Hg;
        [specialize (Hgold1 g eq_refl) |]; preserves_counters_grow.
    + preserves_counters_grow.
    + preserves_counters_grow.
    + preserves_counters_grow.
  - (* DRAGON_KILL *)
    destruct (DragonKillPayload.gold_granted p) as [g |] eqn:Hg;
      [| apply preserves_ret].
    specialize (Hgold g eq_refl). preserves_counters_grow.
  - (* TURRET_DESTROY *)
    destruct Hgold as [Hgold1 Hgold2].
    destruct (TurretDestroyPayload.killer_id p); [| apply preserves_ret].
    preserves_counters_grow.
    by apply TurretDestroy_player_counters_grow.
  - (* MATCH_END *)
    preserves_counters_grow.
Qed.

(** X6. Only MatchStartProcessor writes [alive]: a sequence of events
    without MATCH_START leaves the [alive] field of every hash as it was,
    also when the processing stops on an exception. *)
Theorem process_events_keep_alive (events : list GameEvent.t) (s : State) :
  Forall (fun e => GameEvent.type_ e ≠ MATCH_START) events →
  ∀ k, field (process_events settings iso events s).1 k "alive" = field s k "alive".
Proof.
  intros Hev.
  apply (preserves_for_each_Forall (same_field "alive")
           (fun e => GameEvent.type_ e ≠ MATCH_START)); [| exact Hev].
  intros e He. by apply process_event_alive.
Qed.

(** X7. Only MatchStartProcessor writes the player registry: a sequence
    of events without MATCH_START leaves it as it was. *)
Theorem process_events_keep_registry (events : list GameEvent.t) (s : State) :
  Forall (fun e => GameEvent.type_ e ≠ MATCH_START) events →
  registry (process_events settings iso events s).1 = registry s.
Proof.
  intros Hev.
  apply (preserves_for_each_Forall same_registry
           (fun e => GameEvent.type_ e ≠ MATCH_START)); [| exact Hev].
  intros e He. by apply process_event_registry.
Qed.

(** X8. Along a sequence of events without MATCH_START whose gold amounts
    are not negative, no counter ([gold], [minion_kills], [human_kills],
    [human_kills_assists], [dragon_kills], [tower_kills]) of any hash is
    lowered, also when the processing stops on an exception. *)
Theorem process_events_counters_grow (events : list GameEvent.t) (s : State) :
  Forall (fun e => GameEvent.type_ e ≠ MATCH_START ∧ gold_nonneg e) events →
  ∀ k f n, f ∈ counter_fields → field s k f = Some (VInt n) →
    ∃ n', field (process_events settings iso events s).1 k f = Some (VInt n')
          ∧ n <= n'.
Proof.
  intros Hev.
  apply (preserves_for_each_Forall counters_grow
           (fun e => GameEvent.type_ e ≠ MATCH_START ∧ gold_nonneg e));
    [| exact Hev].
  intros e [Hty Hgold]. by apply process_event_counters_grow.
Qed.

End Sequences.

Lemma process_events_keep_alive_witness :
  field (process_events default_settings Iso.utc_timestamp sample_events
           sample_state).1 (PlayerKey "game_1" "player_1") "alive"
  = Some (VInt 1).
Proof.
  rewrite (process_events_keep_alive default_settings Iso.utc_timestamp
             sample_events sample_state).
  - reflexivity.
  - repeat constructor; discriminate.
Defined.

Lemma process_events_keep_registry_witness :
  registry (process_events default_settings Iso.utc_timestamp sample_events
              sample_state).1 = registry sample_state.
Proof.
  apply process_events_keep_registry.
  repeat constructor; discriminate.
Defined.

Lemma process_events_counters_grow_witness :
  ∃ n', field (process_events default_settings Iso.utc_timestamp sample_events
                 sample_state).1 (PlayerKey "game_1" "player_1") "gold"
        = Some (VInt n') ∧ 500 <= n'.
Proof.
  apply (process_events_counters_grow default_settings Iso.utc_timestamp
           sample_events sample_state).
  - repeat constructor; try discriminate; simpl; unfold nonneg;
      intros a [= <-]; lia.
  - unfold counter_fields. left.
  - reflexivity.
Defined.

(** ** Running the steps of a processor *)

Lemma bind_return {A B} (m : M A) (k : A → M B) s s1 a :
  m s = (s1, Return a) → bind m k s = k a s1.
Proof. intros Hm. unfold bind. by rewrite Hm. Qed.

Lemma bind_raise {A B} (m : M A) (k : A → M B) s s1 e :
  m s = (s1, Raise e) → bind m k s = (s1, Raise e).
Proof. intros Hm. unfold bind. by rewrite Hm. Qed.

Lemma get_player_state_key_registered player_id m s :
  PlayerRegistry.get_match_id_for_player (registry s) player_id = Some m →
  get_player_state_key player_id None s = (s, Return (PlayerKey m player_id)).
Proof.
  intros Hm. unfold get_player_state_key, bind, get_registry. by rewrite Hm.
Qed.

Lemma get_player_state_key_unregistered player_id s :
  PlayerRegistry.get_match_id_for_player (registry s) player_id = None →
  get_player_state_key player_id None s = (s, Raise ValueError).
Proof.
  intros Hm. unfold get_player_state_key, bind, get_registry. by rewrite Hm.
Qed.

Lemma get_player_kill_history_key_registered player_id m s :
  PlayerRegistry.get_match_id_for_player (registry s) player_id = Some m →
  get_player_kill_history_key player_id s
  = (s, Return (KillHistoryKey m player_id)).
Proof.
  intros Hm. unfold get_player_kill_history_key, bind, get_registry.
  by rewrite Hm.
Qed.

Lemma get_player_death_history_key_registered player_id m s :
  PlayerRegistry.get_match_id_for_player (registry s) player_id = Some m →
  get_player_death_history_key player_id s
  = (s, Return (DeathHistoryKey m player_id)).
Proof.
  intros Hm. unfold get_player_death_history_key, bind, get_registry.
  by rewrite Hm.
Qed.

Lemma get_team_state_key_registered team_id m s :
  PlayerRegistry.get_match_id_for_team (registry s) team_id = Some m →
  get_team_state_key (Some team_id) None s = (s, Return (TeamKey m team_id)).
Proof.
  intros Hm. unfold get_team_state_key, bind, get_registry. simpl.
  by rewrite Hm.
Qed.

Lemma hincrby_run k f a s :
  accepts s k f a →
  hincrby k f (Some a) s = ((hincrby k f (Some a) s).1, Return tt).
Proof.
  intros Hint. destruct (hincrby_field_same k f a s Hint) as [Hret _].
  destruct (hincrby k f (Some a) s) as [s' r]. simpl in *. by subst r.
Qed.

Lemma hincrby_counter k f a s k' f' :
  accepts s k f a →
  counter (hincrby k f (Some a) s).1 k' f'
  = if decide (k = k' ∧ f = f') then counter s k f + a else counter s k' f'.
Proof.
  intros Hint. unfold counter at 1.
  destruct (decide (k = k' ∧ f = f')) as [[<- <-] | Hne].
  - by destruct (hincrby_field_same k f a s Hint) as [_ ->].
  - by rewrite hincrby_field_other.
Qed.

(** An increment of another field does not change what the store accepts. *)
Lemma accepts_same_field s s' k f a :
  field s' k f = field s k f → accepts s k f a → accepts s' k f a.
Proof.
  unfold accepts, integer_field, counter. by intros ->.
Qed.

Lemma hincrby_accepts k f amount s k' f' a' :
  ¬ (k = k' ∧ f = f') →
  accepts s k' f' a' → accepts (hincrby k f amount s).1 k' f' a'.
Proof.
  intros Hne. apply accepts_same_field. by apply hincrby_field_other.
Qed.

Lemma hset_run k mapping l s :
  encode_mapping mapping = Some l →
  hset k mapping s = ((hset k mapping s).1, Return tt).
Proof.
  intros Hl. pose proof (hset_return k mapping l s Hl) as Hret.
  destruct (hset k mapping s) as [s' r]. simpl in *. by subst r.
Qed.

(** ** MinionKillProcessor *)

Section MinionKill.

Variable iso : string → option Z.
Variables (event : GameEvent.t) (payload : MinionKillPayload.t).
Hypothesis Hpayload : GameEvent.payload event = PMinionKill payload.

Let player_id := MinionKillPayload.player_id payload.

(** The state after the two increments of a MINION_KILL. *)
Lemma MinionKill_increments s m g :
  PlayerRegistry.get_match_id_for_player (registry s) player_id = Some m →
  accepts s (PlayerKey m player_id) "gold" g →
  accepts s (PlayerKey m player_id) "minion_kills" 1 →
  let k := PlayerKey m player_id in
  let s2 := (hincrby k "minion_kills" (Some 1) (hincrby k "gold" (Some g) s).1).1 in
  field s2 k "gold" = Some (VInt (counter s k "gold" + g))
  ∧ field s2 k "minion_kills" = Some (VInt (counter s k "minion_kills" + 1))
  ∧ (∀ k' f, ¬ (k' = k ∧ (f = "gold" ∨ f = "minion_kills")) →
             field s2 k' f = field s k' f)
  ∧ registry s2 = registry s
  ∧ kill_zsets (redis s2) = kill_zsets (redis s)
  ∧ death_zsets (redis s2) = death_zsets (redis s).
Proof.
  intros Hm Hgold Hminion k s2. subst s2.
  set (s1 := (hincrby k "gold" (Some g) s).1).
  assert (Hminion1 : accepts s1 k "minion_kills" 1)
    by (apply hincrby_accepts; [by intros [_ [=]] | done]).
  destruct (hincrby_field_same k "gold" g s Hgold) as [_ Hg].
  destruct (hincrby_field_same k "minion_kills" 1 s1 Hminion1) as [_ Hk].
  split; [| split; [| split; [| split; [| split]]]].
  - rewrite hincrby_field_other by (intros [_ [=]]). exact Hg.
  - rewrite Hk. subst s1. rewrite hincrby_counter by done.
    rewrite decide_False by (intros [_ [=]]). done.
  - intros k' f Hne.
    rewrite hincrby_field_other by (intros [<- <-]; apply Hne; auto).
    subst s1. apply hincrby_field_other. intros [<- <-]; apply Hne; auto.
  - subst s1. by rewrite !hincrby_registry.
  - subst s1.
    by rewrite (proj1 (hincrby_zsets _ _ _ _)), (proj1 (hincrby_zsets _ _ _ _)).
  - subst s1.
    by rewrite (proj2 (hincrby_zsets _ _ _ _)), (proj2 (hincrby_zsets _ _ _ _)).
Qed.



(** X11. A MINION_KILL without [goldGranted] is dropped: the processor
    returns and the state is unchanged, also for an unknown player. *)
Theorem MinionKillProcessor_without_gold (s : State) :
  MinionKillPayload.gold_granted payload = None →
  MinionKillProcessor iso event s = (s, Return tt).
Proof.
  intros Hg. unfold MinionKillProcessor. by rewrite Hpayload, Hg.
Qed.

End MinionKill.



Lemma MinionKillProcessor_without_gold_witness :
  MinionKillProcessor Iso.utc_timestamp sample_minion_kill_no_gold sample_state
  = (sample_state, Return tt).
Proof.
  by apply (MinionKillProcessor_without_gold Iso.utc_timestamp
              sample_minion_kill_no_gold _ eq_refl).
Defined.

(** ** PlayerKillProcessor *)

Section PlayerKill.

Variable iso : string → option Z.
Variables (event : GameEvent.t) (payload : PlayerKillPayload.t).
Hypothesis Hpayload : GameEvent.payload event = PPlayerKill payload.

(** X12. A PLAYER_KILL that lists an assistant but carries no
    [assistGold] never completes: the processor raises. When it has no
    killer and the first assistant is registered, the exception is
    [DataError] and the state is unchanged: the victim's death history and
    the first blood are not updated. *)
Theorem PlayerKillProcessor_without_assist_gold (s : State)
    (assistant : string) (others : list string) :
  PlayerKillPayload.assistants payload = Some (assistant :: others) →
  PlayerKillPayload.assist_gold payload = None →
  (∃ e, (PlayerKillProcessor iso event s).2 = Raise e)
  ∧ (PlayerKillPayload.killer_id payload = None →
     is_Some (PlayerRegistry.get_match_id_for_player (registry s) assistant) →
     PlayerKillProcessor iso event s = (s, Raise DataError)).
Proof.
  intros Hassist Hgold. split.
  - unfold PlayerKillProcessor. rewrite Hpayload. unfold bind at 1.
    destruct (PlayerKill_killer iso event payload s) as [s1 [[] | e]];
      [| by eexists].
    unfold bind at 1. unfold PlayerKill_assistants.
    rewrite Hassist, Hgold. simpl. unfold bind at 1 2.
    destruct (get_player_state_key assistant None s1) as [s2 [k |]];
      by eexists.
  - intros Hkiller [m Hm]. unfold PlayerKillProcessor. rewrite Hpayload.
    unfold PlayerKill_killer. rewrite Hkiller.
    unfold bind at 1. simpl. unfold bind at 1. unfold PlayerKill_assistants.
    rewrite Hassist, Hgold. simpl. unfold bind at 1 2.
    by rewrite (get_player_state_key_registered _ _ _ Hm).
Qed.

(** X13. A PLAYER_KILL with no killer, no victim and no assistants is
    dropped: the processor returns and the state is unchanged, whether or
    not the event carries a timestamp. *)
Theorem PlayerKillProcessor_anonymous (s : State) :
  PlayerKillPayload.killer_id payload = None →
  PlayerKillPayload.victim_id payload = None →
  PlayerKillPayload.assistants payload = None →
  PlayerKillProcessor iso event s = (s, Return tt).
Proof.
  intros Hkiller Hvictim Hassist.
  unfold PlayerKillProcessor, PlayerKill_killer, PlayerKill_assistants,
    PlayerKill_victim, PlayerKill_first_blood.
  rewrite Hpayload, Hkiller, Hvictim, Hassist.
  by destruct (GameEvent.timestamp event).
Qed.

End PlayerKill.

Lemma PlayerKillProcessor_without_assist_gold_witness :
  PlayerKillProcessor Iso.utc_timestamp sample_assist_without_gold sample_state
  = (sample_state, Raise DataError).
Proof.
  destruct (PlayerKillProcessor_without_assist_gold Iso.utc_timestamp
              sample_assist_without_gold _ eq_refl sample_state "player_2" []
              eq_refl eq_refl) as [_ H].
  apply H; [reflexivity |]. by exists "game_1".
Defined.

Lemma PlayerKillProcessor_anonymous_witness :
  PlayerKillProcessor Iso.utc_timestamp sample_anonymous_kill sample_state
  = (sample_state, Return tt).
Proof.
  by apply (PlayerKillProcessor_anonymous Iso.utc_timestamp
              sample_anonymous_kill _ eq_refl).
Defined.

(** ** First blood *)

#[global] Instance first_blood_falls_refl : Reflexive first_blood_falls.
Proof. intros s k c Hc. exists c. split; [done | lia]. Qed.

#[global] Instance first_blood_falls_trans : Transitive first_blood_falls.
Proof.
  intros s1 s2 s3 H12 H23 k c Hc.
  destruct (H12 k c Hc) as (c2 & Hc2 & Hle2).
  destruct (H23 k c2 Hc2) as (c3 & Hc3 & Hle3).
  exists c3. split; [done | lia].
Qed.

Lemma same_field_first_blood_falls {A} (m : M A) :
  preserves (same_field "first_blood") m → preserves first_blood_falls m.
Proof.
  intros Hm s k c Hc. exists c. rewrite (Hm s k). split; [done | lia].
Qed.

Lemma first_blood_write_float c t :
  first_blood_write (Some (VFloat c)) t = Some (VFloat (Z.min c t)).
Proof.
  unfold first_blood_write. simpl.
  destruct (t <? c) eqn:Ht.
  - apply Z.ltb_lt in Ht. by rewrite Z.min_r by lia.
  - apply Z.ltb_ge in Ht. by rewrite Z.min_l by lia.
Qed.

Lemma fold_first_blood_write_float ts : ∀ c,
  fold_left first_blood_write ts (Some (VFloat c)) = Some (VFloat (minimum c ts)).
Proof.
  unfold minimum. induction ts as [| t ts IH]; intros c; simpl; [done |].
  by rewrite first_blood_write_float, IH.
Qed.

Lemma minimum_spec ts : ∀ t,
  (minimum t ts = t ∨ minimum t ts ∈ ts)
  ∧ minimum t ts <= t ∧ (∀ x, x ∈ ts → minimum t ts <= x).
Proof.
  unfold minimum. induction ts as [| y ts IH]; intros t; simpl.
  - split; [by left |]. split; [lia |]. intros x Hx. by apply elem_of_nil in Hx.
  - destruct (IH (Z.min t y)) as (Hin & Hle & Hall).
    split; [| split].
    + destruct Hin as [-> | Hin]; [| right; by right].
      destruct (Z.min_spec t y) as [[_ ->] | [_ ->]]; [by left | right; by left].
    + lia.
    + intros x Hx. apply elem_of_cons in Hx as [-> | Hx]; [lia | by apply Hall].
Qed.

Section FirstBlood.

Variable settings : Settings.
Variable iso : string → option Z.

(** The first-blood block of PlayerKillProcessor. *)
Lemma PlayerKill_first_blood_spec event payload s :
  let r := PlayerKill_first_blood iso event payload s in
  registry r.1 = registry s
  ∧ (∀ k, field r.1 k "first_blood" = field s k "first_blood"
          ∨ ∃ t, first_blood_timestamp iso event payload = Some t
                 ∧ k = first_blood_key (registry s) payload
                 ∧ field r.1 k "first_blood"
                   = first_blood_write (field s k "first_blood") t)
  ∧ (r.2 = Return tt →
     ∀ k, field r.1 k "first_blood"
          = match first_blood_timestamp iso event payload with
            | Some t =>
                if decide (first_blood_key (registry s) payload = k)
                then first_blood_write (field s k "first_blood") t
                else field s k "first_blood"
            | None => field s k "first_blood"
            end).
Proof.
  unfold PlayerKill_first_blood, first_blood_timestamp.
  destruct (GameEvent.timestamp event) as [ts |]; [| by repeat split; auto].
  set (body := bind (event_timestamp iso (Some ts)) _).
  assert (Hbody :
    let r := body s in
    registry r.1 = registry s
    ∧ (∀ k, field r.1 k "first_blood" = field s k "first_blood"
            ∨ ∃ t, iso ts = Some t
                   ∧ k = first_blood_key (registry s) payload
                   ∧ field r.1 k "first_blood"
                     = first_blood_write (field s k "first_blood") t)
    ∧ (r.2 = Return tt →
       ∀ k, field r.1 k "first_blood"
            = match iso ts with
              | Some t =>
                  if decide (first_blood_key (registry s) payload = k)
                  then first_blood_write (field s k "first_blood") t
                  else field s k "first_blood"
              | None => field s k "first_blood"
              end)).
  { subst body. unfold bind, event_timestamp, get_registry, hget, lift.
    destruct (iso ts) as [t |]; [| by repeat split; auto].
    unfold ret. cbn.
    fold (first_blood_key (registry s) payload).
    set (key := first_blood_key (registry s) payload).
    unfold first_blood_write.
    destruct (is_sentinel (field s key "first_blood")) eqn:Hsent.
    - split; [apply hset_registry |]. split.
      + intros k. destruct (decide (key = k)) as [<- | Hk].
        * right. exists t. rewrite hset_field_single, decide_True by done.
          by rewrite Hsent.
        * left. rewrite hset_field_single.
          rewrite decide_False by (by intros [? _]). done.
      + intros _ k. rewrite hset_field_single.
        destruct (decide (key = k)) as [<- | Hk].
        * rewrite decide_True by done. by rewrite Hsent.
        * rewrite decide_False by (by intros [? _]). done.
    - destruct (float (field s key "first_blood")) as [c | e] eqn:Hfloat;
        [| by repeat split; auto].
      destruct (t <? c) eqn:Hlt.
      + split; [apply hset_registry |]. split.
        * intros k. destruct (decide (key = k)) as [<- | Hk].
          -- right. exists t. rewrite hset_field_single, decide_True by done.
             by rewrite Hsent, Hfloat, Hlt.
          -- left. rewrite hset_field_single.
             rewrite decide_False by (by intros [? _]). done.
        * intros _ k. rewrite hset_field_single.
          destruct (decide (key = k)) as [<- | Hk].
          -- rewrite decide_True by done. by rewrite Hsent, Hfloat, Hlt.
          -- rewrite decide_False by (by intros [? _]). done.
      + split; [done |]. split; [by left |].
        intros _ k. simpl. destruct (decide (key = k)) as [<- | Hk]; [| done].
        by rewrite Hsent, Hfloat, Hlt. }
  destruct (PlayerKillPayload.killer_id payload),
    (PlayerKillPayload.victim_id payload); try exact Hbody.
  by repeat split; auto.
Qed.

End FirstBlood.

Lemma bind_returns {A B} (m : M A) (k : A → M B) s s' b :
  bind m k s = (s', Return b) →
  ∃ s1 a, m s = (s1, Return a) ∧ k a s1 = (s', Return b).
Proof.
  unfold bind. destruct (m s) as [s1 [a | e]]; [| done].
  intros Hk. by exists s1, a.
Qed.

Lemma for_each_cons_returns {A} (body : A → M unit) x l s s' :
  for_each (x :: l) body s = (s', Return tt) →
  ∃ s1, body x s = (s1, Return tt) ∧ for_each l body s1 = (s', Return tt).
Proof.
  simpl. intros (s1 & [] & Hx & Hl)%bind_returns. by exists s1.
Qed.

Section FirstBloodSequences.

Variable settings : Settings.
Variable iso : string → option Z.

Lemma PlayerKill_parts_first_blood event payload :
  preserves (same_field "first_blood") (PlayerKill_killer iso event payload)
  ∧ preserves (same_field "first_blood") (PlayerKill_assistants payload)
  ∧ preserves (same_field "first_blood") (PlayerKill_victim iso event payload).
Proof.
  unfold PlayerKill_killer, PlayerKill_assistants, PlayerKill_victim.
  repeat split; preserves_same_field.
Qed.

Lemma PlayerKill_parts_registry event payload :
  preserves same_registry (PlayerKill_killer iso event payload)
  ∧ preserves same_registry (PlayerKill_assistants payload)
  ∧ preserves same_registry (PlayerKill_victim iso event payload).
Proof.
  unfold PlayerKill_killer, PlayerKill_assistants, PlayerKill_victim.
  repeat split; preserves_same_registry.
Qed.

Lemma process_event_other_first_blood e :
  GameEvent.type_ e ≠ MATCH_START → GameEvent.type_ e ≠ PLAYER_KILL →
  preserves (same_field "first_blood") (process_event settings iso e).
Proof.
  intros Hstart Hkill. unfold process_event.
  destruct (GameEvent.type_ e); try done;
    unfold MinionKillProcessor, DragonKillProcessor, TurretDestroyProcessor,
      TurretDestroy_player, MatchEndProcessor, MatchEnd_calculate_kill_streaks,
      MatchEnd_calculate_max_killing_sprees;
    preserves_same_field.
Qed.

Lemma process_event_first_blood_falls e :
  GameEvent.type_ e ≠ MATCH_START →
  preserves first_blood_falls (process_event settings iso e).
Proof.
  intros Hstart.
  destruct (decide (GameEvent.type_ e = PLAYER_KILL)) as [Hkill | Hkill];
    [| by apply same_field_first_blood_falls, process_event_other_first_blood].
  unfold process_event. rewrite Hkill. unfold PlayerKillProcessor.
  destruct (GameEvent.payload e) as [| | p | | | |]; try apply preserves_raise.
  destruct (PlayerKill_parts_first_blood e p) as (H1 & H2 & H3).
  repeat (apply preserves_bind; [by apply same_field_first_blood_falls |];
          intros _).
  intros s k c Hc.
  destruct (PlayerKill_first_blood_spec iso e p s) as (_ & Hstep & _).
  destruct (Hstep k) as [-> | (t & _ & _ & ->)].
  - exists c. split; [done | lia].
  - rewrite Hc, first_blood_write_float. exists (Z.min c t). split; [done | lia].
Qed.

(** X14. Once [first_blood] holds a timestamp it only falls: after any
    sequence of events without MATCH_START it holds the same timestamp or
    an earlier one, also when the processing stops on an exception. *)
Theorem process_events_first_blood_falls (events : list GameEvent.t) (s : State) :
  Forall (fun e => GameEvent.type_ e ≠ MATCH_START) events →
  ∀ k c, field s k "first_blood" = Some (VFloat c) →
    ∃ c', field (process_events settings iso events s).1 k "first_blood"
          = Some (VFloat c') ∧ c' <= c.
Proof.
  intros Hev.
  apply (preserves_for_each_Forall first_blood_falls
           (fun e => GameEvent.type_ e ≠ MATCH_START)); [| exact Hev].
  intros e He. by apply process_event_first_blood_falls.
Qed.

(** One completed step, seen from the match hash [k]. *)
Lemma process_event_first_blood e s s' :
  GameEvent.type_ e ≠ MATCH_START →
  process_event settings iso e s = (s', Return tt) →
  ∀ k, field s' k "first_blood"
       = match first_blood_candidate iso (registry s) k e with
         | Some t => first_blood_write (field s k "first_blood") t
         | None => field s k "first_blood"
         end.
Proof.
  intros Hstart Hrun k. unfold first_blood_candidate.
  destruct (decide (GameEvent.type_ e = PLAYER_KILL)) as [Hkill | Hkill].
  - rewrite Hkill. unfold process_event in Hrun. rewrite Hkill in Hrun.
    unfold PlayerKillProcessor in Hrun.
    destruct (GameEvent.payload e) as [| | p | | | |]; try done.
    destruct (PlayerKill_parts_first_blood e p) as (Hf1 & Hf2 & Hf3).
    destruct (PlayerKill_parts_registry e p) as (Hr1 & Hr2 & Hr3).
    apply bind_returns in Hrun as (s1 & [] & Hs1 & Hrun).
    apply bind_returns in Hrun as (s2 & [] & Hs2 & Hrun).
    apply bind_returns in Hrun as (s3 & [] & Hs3 & Hrun).
    specialize (Hf1 s k). specialize (Hr1 s). rewrite Hs1 in Hf1, Hr1.
    specialize (Hf2 s1 k). specialize (Hr2 s1). rewrite Hs2 in Hf2, Hr2.
    specialize (Hf3 s2 k). specialize (Hr3 s2). rewrite Hs3 in Hf3, Hr3.
    simpl in *. unfold same_registry in *.
    destruct (PlayerKill_first_blood_spec iso e p s3) as (_ & _ & Hdone).
    rewrite Hrun in Hdone. simpl in Hdone. rewrite (Hdone eq_refl k).
    rewrite Hr3, Hr2, Hr1, Hf3, Hf2, Hf1.
    destruct (first_blood_timestamp iso e p); [| by destruct (decide _)].
    by destruct (decide _).
  - pose proof (process_event_other_first_blood e Hstart Hkill s k) as Hsame.
    rewrite Hrun in Hsame. simpl in Hsame. rewrite Hsame.
    by destruct (GameEvent.type_ e).
Qed.

Lemma process_events_first_blood_fold events : ∀ s s',
  Forall (fun e => GameEvent.type_ e ≠ MATCH_START) events →
  process_events settings iso events s = (s', Return tt) →
  ∀ k, field s' k "first_blood"
       = fold_left first_blood_write
           (omap (first_blood_candidate iso (registry s) k) events)
           (field s k "first_blood").
Proof.
  induction events as [| e events IH]; intros s s' Hev Hrun k.
  - injection Hrun as <-. done.
  - inversion_clear Hev as [| ? ? He Hrest].
    apply for_each_cons_returns in Hrun as (s1 & Hstep & Hrun).
    pose proof (process_event_registry settings iso e He s) as Hreg.
    rewrite Hstep in Hreg. simpl in Hreg. unfold same_registry in Hreg.
    rewrite (IH s1 s' Hrest Hrun k), Hreg.
    rewrite (process_event_first_blood e s s1 He Hstep k). simpl.
    by destruct (first_blood_candidate iso (registry s) k e).
Qed.

(** X15. When a sequence of events without MATCH_START is processed to
    the end, the [first_blood] of a match hash that held the sentinel is
    the least of the timestamps of the PLAYER_KILL events that carry a
    timestamp and a killer or a victim and whose killer (else victim) is
    registered to that match; it stays the sentinel when there is no such
    event. A timestamp already stored takes part in the minimum. *)
Theorem process_events_first_blood_minimum
    (events : list GameEvent.t) (s s' : State) (k : key) :
  Forall (fun e => GameEvent.type_ e ≠ MATCH_START) events →
  process_events settings iso events s = (s', Return tt) →
  let candidates := omap (first_blood_candidate iso (registry s) k) events in
  (field s k "first_blood" = Some (VInt (-1)) →
   match candidates with
   | [] => field s' k "first_blood" = Some (VInt (-1))
   | t :: ts =>
       field s' k "first_blood" = Some (VFloat (minimum t ts))
       ∧ minimum t ts ∈ candidates
       ∧ (∀ x, x ∈ candidates → minimum t ts <= x)
   end)
  ∧ (∀ c, field s k "first_blood" = Some (VFloat c) →
          field s' k "first_blood" = Some (VFloat (minimum c candidates))).
Proof.
  intros Hev Hrun candidates.
  pose proof (process_events_first_blood_fold events s s' Hev Hrun k) as Hfold.
  fold candidates in Hfold. split.
  - intros Hsent. rewrite Hfold, Hsent.
    destruct candidates as [| t ts]; [done |]. simpl.
    change (first_blood_write (Some (VInt (-1))) t) with (Some (VFloat t)).
    rewrite fold_first_blood_write_float.
    destruct (minimum_spec ts t) as (Hin & Hle & Hall).
    split; [done |]. split.
    + destruct Hin as [-> | Hin]; [by left | by right].
    + intros x Hx. apply elem_of_cons in Hx as [-> | Hx]; [done | by apply Hall].
  - intros c Hc. rewrite Hfold, Hc. apply fold_first_blood_write_float.
Qed.

End FirstBloodSequences.

Lemma process_events_first_blood_falls_witness :
  ∃ c', field (process_events default_settings Iso.utc_timestamp
                 [sample_earlier_kill; sample_match_end]
                 (process_events default_settings Iso.utc_timestamp
                    [sample_player_kill] sample_state).1).1
              (GameKey "game_1") "first_blood" = Some (VFloat c')
        ∧ c' <= 1704110470.
Proof.
  apply (process_events_first_blood_falls default_settings Iso.utc_timestamp).
  - repeat constructor; discriminate.
  - reflexivity.
Defined.

Lemma process_events_first_blood_minimum_witness :
  field (process_events default_settings Iso.utc_timestamp sample_kills
           sample_state).1 (GameKey "game_1") "first_blood"
  = Some (VFloat 1704110460).
Proof.
  assert (Hev : Forall (fun e => GameEvent.type_ e ≠ MATCH_START) sample_kills)
    by (repeat constructor; discriminate).
  assert (Hrun : process_events default_settings Iso.utc_timestamp sample_kills
                   sample_state
                 = ((process_events default_settings Iso.utc_timestamp
                       sample_kills sample_state).1, Return tt))
    by (by vm_compute).
  destruct (process_events_first_blood_minimum default_settings
              Iso.utc_timestamp sample_kills sample_state _
              (GameKey "game_1") Hev Hrun) as [H _].
  specialize (H eq_refl).
  exact (proj1 H).
Defined.

(** ** TurretDestroyProcessor *)

Section TurretDestroy.

Variables (payload : TurretDestroyPayload.t) (killer_id : string).

Lemma TurretDestroy_player_spec s p m :
  PlayerRegistry.get_match_id_for_player (registry s) p = Some m →
  match turret_gold payload killer_id p with
  | Some g => accepts s (PlayerKey m p) "gold" g
  | None => True
  end →
  let r := TurretDestroy_player payload killer_id p s in
  r.2 = Return tt
  ∧ registry r.1 = registry s
  ∧ kill_zsets (redis r.1) = kill_zsets (redis s)
  ∧ death_zsets (redis r.1) = death_zsets (redis s)
  ∧ field r.1 (PlayerKey m p) "gold"
    = match turret_gold payload killer_id p with
      | Some g => Some (VInt (counter s (PlayerKey m p) "gold" + g))
      | None => field s (PlayerKey m p) "gold"
      end
  ∧ (∀ k f, ¬ (k = PlayerKey m p ∧ f = "gold") → field r.1 k f = field s k f).
Proof.
  intros Hm Hint. unfold TurretDestroy_player.
  destruct (turret_gold payload killer_id p) as [g |]; [| done].
  rewrite (bind_return _ _ _ _ _ (get_player_state_key_registered _ _ _ Hm)).
  destruct (hincrby_field_same (PlayerKey m p) "gold" g s Hint) as [Hret Hf].
  repeat split; try done.
  - apply hincrby_registry.
  - apply hincrby_zsets.
  - apply hincrby_zsets.
  - intros k f Hne. apply hincrby_field_other. intros [<- <-]. by apply Hne.
Qed.

Lemma TurretDestroy_loop players : ∀ s,
  NoDup players → turret_ready payload killer_id s players →
  let r := for_each players (TurretDestroy_player payload killer_id) s in
  r.2 = Return tt
  ∧ registry r.1 = registry s
  ∧ kill_zsets (redis r.1) = kill_zsets (redis s)
  ∧ death_zsets (redis r.1) = death_zsets (redis s)
  ∧ (∀ p m, p ∈ players →
       PlayerRegistry.get_match_id_for_player (registry s) p = Some m →
       field r.1 (PlayerKey m p) "gold"
       = match turret_gold payload killer_id p with
         | Some g => Some (VInt (counter s (PlayerKey m p) "gold" + g))
         | None => field s (PlayerKey m p) "gold"
         end)
  ∧ (∀ k f,
       (∀ p m, p ∈ players →
          PlayerRegistry.get_match_id_for_player (registry s) p = Some m →
          ¬ (k = PlayerKey m p ∧ f = "gold")) →
       field r.1 k f = field s k f).
Proof.
  induction players as [| p players IH]; intros s Hnodup Hready.
  - simpl. repeat split; try done. intros p m Hp. by apply elem_of_nil in Hp.
  - apply NoDup_cons in Hnodup as [Hp Hnodup].
    destruct (Hready p) as (m & Hm & Hint); [by left |].
    destruct (TurretDestroy_player_spec s p m Hm Hint)
      as (Hret1 & Hreg1 & Hkz1 & Hdz1 & Hgold1 & Hother1).
    simpl for_each. unfold bind.
    destruct (TurretDestroy_player payload killer_id p s) as [s1 r1].
    simpl in Hret1, Hreg1, Hkz1, Hdz1, Hgold1, Hother1. subst r1.
    assert (Hready1 : turret_ready payload killer_id s1 players).
    { intros q Hq. destruct (Hready q) as (mq & Hmq & Hintq); [by right |].
      exists mq. rewrite Hreg1. split; [done |].
      destruct (turret_gold payload killer_id q); [| done].
      apply (accepts_same_field s); [| done].
      apply Hother1. intros [[= _ ->] _]. done. }
    destruct (IH s1 Hnodup Hready1) as (Hret & Hreg & Hkz & Hdz & Hgold & Hother).
    split; [done |]. split; [congruence |]. split; [congruence |].
    split; [congruence |]. split.
    + intros q mq Hq Hmq. apply elem_of_cons in Hq as [-> | Hq].
      * assert (mq = m) as -> by congruence.
        rewrite Hother; [exact Hgold1 |].
        intros q' mq' Hq' _ [[= _ ->] _]. done.
      * rewrite Hgold by (by rewrite ?Hreg1).
        unfold counter. rewrite !Hother1; try done;
          intros [[= _ ->] _]; done.
    + intros k f Hk. rewrite Hother.
      * apply Hother1. apply (Hk p m); [by left | done].
      * intros q mq Hq Hmq. rewrite Hreg1 in Hmq. apply (Hk q mq); [by right | done].
Qed.

End TurretDestroy.

Lemma NoDup_filter_keys {V} (sel : string * V → bool) (d : list (string * V)) :
  NoDup (map fst d) → NoDup (map fst (List.filter sel d)).
Proof.
  induction d as [| [k v] d IH]; simpl; intros Hd; [constructor |].
  apply NoDup_cons in Hd as [Hk Hd].
  destruct (sel (k, v)); simpl; [| by apply IH].
  apply NoDup_cons. split; [| by apply IH].
  intros Hin. apply Hk.
  apply list_elem_of_fmap in Hin as ([k' v'] & -> & Hin).
  apply list_elem_of_In, filter_In in Hin as [Hin _].
  apply list_elem_of_fmap. exists (k', v'). split; [done |].
  by apply list_elem_of_In.
Qed.

Lemma players_for_team_NoDup cls team :
  registry_wf cls → NoDup (PlayerRegistry.players_for_team cls team).
Proof. apply NoDup_filter_keys. Qed.

Lemma players_for_match_NoDup cls m :
  registry_wf cls → NoDup (PlayerRegistry.players_for_match cls m).
Proof. apply NoDup_filter_keys. Qed.

Section TurretDestroyEffect.

Variables (event : GameEvent.t) (payload : TurretDestroyPayload.t).
Hypothesis Hpayload : GameEvent.payload event = PTurretDestroy payload.


(** X17. A TURRET_DESTROY without a killer is dropped: the processor
    returns and the state is unchanged. With a killer but without a
    killer team, or with a team the registry does not know, it raises
    [ValueError] and the state is unchanged. *)
Theorem TurretDestroyProcessor_dropped (s : State) :
  (TurretDestroyPayload.killer_id payload = None →
   TurretDestroyProcessor event s = (s, Return tt))
  ∧ (is_Some (TurretDestroyPayload.killer_id payload) →
     TurretDestroyPayload.killer_team_id payload
       ≫= PlayerRegistry.get_match_id_for_team (registry s) = None →
     TurretDestroyProcessor event s = (s, Raise ValueError)).
Proof.
  unfold TurretDestroyProcessor. rewrite Hpayload. split.
  - by intros ->.
  - intros [killer ->] Hteam. cbv zeta.
    unfold bind at 1. unfold get_team_state_key, bind, get_registry.
    by rewrite Hteam.
Qed.

End TurretDestroyEffect.

Lemma sample_state_registry_wf : registry_wf (registry sample_state).
Proof.
  unfold registry_wf.
  assert (H : map fst (PlayerRegistry._matches (registry sample_state))
              = ["player_1"; "player_2"; "player_3"; "player_4"]) by reflexivity.
  rewrite H.
  repeat (apply NoDup_cons; split; [not_a_field |]). apply NoDup_nil_2.
Qed.

Lemma sample_state_turret_ready :
  turret_ready
    {| TurretDestroyPayload.killer_id := Some "player_1";
       TurretDestroyPayload.killer_team_id := Some "team_1";
       TurretDestroyPayload.turret_tier := Some 1;
       TurretDestroyPayload.turret_lane := Some "mid";
       TurretDestroyPayload.player_gold_granted := Some 250;
       TurretDestroyPayload.team_gold_granted := Some 100 |}
    "player_1" sample_state
    (PlayerRegistry.players_for_team (registry sample_state) "team_1").
Proof.
  assert (H : PlayerRegistry.players_for_team (registry sample_state) "team_1"
              = ["player_1"; "player_2"]) by reflexivity.
  rewrite H. intros p Hp.
  apply elem_of_cons in Hp as [-> | Hp].
  - exists "game_1". split; [reflexivity |]. by vm_compute.
  - apply list_elem_of_singleton in Hp as ->.
    exists "game_1". split; [reflexivity |]. by vm_compute.
Qed.


Lemma TurretDestroyProcessor_dropped_witness :
  TurretDestroyProcessor sample_turret_without_team sample_state
  = (sample_state, Raise ValueError).
Proof.
  destruct (TurretDestroyProcessor_dropped sample_turret_without_team _ eq_refl
              sample_state) as [_ H].
  apply H; [by eexists | reflexivity].
Defined.

(** ** DragonKillProcessor *)

Section DragonKill.

Variable iso : string → option Z.
Variables (event : GameEvent.t) (payload : DragonKillPayload.t).
Hypothesis Hpayload : GameEvent.payload event = PDragonKill payload.

Let killer_id := DragonKillPayload.killer_id payload.


End DragonKill.


(** ** Parsing and dispatch *)

Lemma validate_type_value type_ :
  GameEvent.validate_type (EVENT_TYPE_value type_) = type_.
Proof. by destruct type_. Qed.

Lemma validate_type_inv value t :
  GameEvent.validate_type value = t → t ≠ UNKNOWN → value = EVENT_TYPE_value t.
Proof.
  unfold GameEvent.validate_type.
  repeat match goal with
         | |- context [String.eqb value ?x] =>
             destruct (String.eqb value x) eqn:?;
             [ intros <- _; by apply String.eqb_eq |]
         end.
  by intros <-.
Qed.

(** X19. [validate_type] returns the member whose value is the tag, and
    [UNKNOWN] for every other string: it is the inverse of the members'
    values and never fails. *)
Theorem validate_type_members (value : string) (type_ : EVENT_TYPE) :
  GameEvent.validate_type (EVENT_TYPE_value type_) = type_
  ∧ (GameEvent.validate_type value = type_ →
     type_ ≠ UNKNOWN → value = EVENT_TYPE_value type_)
  ∧ ((∀ t, value ≠ EVENT_TYPE_value t) → GameEvent.validate_type value = UNKNOWN).
Proof.
  split; [apply validate_type_value |].
  split; [apply validate_type_inv |].
  intros Hnone.
  destruct (GameEvent.validate_type value) eqn:Hv; try reflexivity;
    exfalso; (eapply Hnone; apply validate_type_inv; [exact Hv | discriminate]).
Qed.

Section ServiceProperties.

Variable settings : Settings.
Variable iso : string → option Z.
Variable JSON : Type.
Variable json_loads : string → option JSON.
Variable MatchStartPayload_validate : JSON → result MatchStartPayload.t.
Variable MinionKillPayload_validate : JSON → result MinionKillPayload.t.
Variable PlayerKillPayload_validate : JSON → result PlayerKillPayload.t.
Variable DragonKillPayload_validate : JSON → result DragonKillPayload.t.
Variable TurretDestroyPayload_validate : JSON → result TurretDestroyPayload.t.
Variable MatchEndPayload_validate : JSON → result MatchEndPayload.t.

Let parse := parse_event JSON MatchStartPayload_validate
               MinionKillPayload_validate PlayerKillPayload_validate
               DragonKillPayload_validate TurretDestroyPayload_validate
               MatchEndPayload_validate.

Let run := process_game_event settings iso JSON json_loads
             MatchStartPayload_validate MinionKillPayload_validate
             PlayerKillPayload_validate DragonKillPayload_validate
             TurretDestroyPayload_validate MatchEndPayload_validate.

(** X20. An event whose type tag is absent, or is not the value of one of
    the six processed types, is parsed as [UNKNOWN] with no payload,
    whatever its payload data, and [process_game_event] then returns
    without changing the state. *)
Theorem process_game_event_unknown
    (event_data : gmap string string) (text : string) (payload_data : JSON)
    (s : State) :
  event_data !! "payload" = Some text →
  json_loads text = Some payload_data →
  (event_data !! "type" = None
   ∨ ∃ value, event_data !! "type" = Some value
              ∧ ∀ t, t ≠ UNKNOWN → value ≠ EVENT_TYPE_value t) →
  parse event_data payload_data
  = Return {| GameEvent.match_id := event_data !! "matchID";
              GameEvent.type_ := UNKNOWN;
              GameEvent.payload := PNone;
              GameEvent.timestamp := event_data !! "timestamp" |}
  ∧ run event_data s = (s, Return tt).
Proof.
  intros Htext Hjson Htype.
  assert (Hparse :
    parse event_data payload_data
    = Return {| GameEvent.match_id := event_data !! "matchID";
                GameEvent.type_ := UNKNOWN;
                GameEvent.payload := PNone;
                GameEvent.timestamp := event_data !! "timestamp" |}).
  { subst parse. unfold parse_event.
    destruct Htype as [-> | (value & -> & Hvalue)]; [done |].
    destruct (GameEvent.validate_type value) eqn:Hv; try reflexivity;
      exfalso;
      (eapply Hvalue; [| apply validate_type_inv; [exact Hv |]]; discriminate). }
  split; [exact Hparse |].
  subst run. unfold process_game_event.
  destruct (decide (event_data = ∅)) as [-> | _]; [done |].
  rewrite Htext, Hjson. fold parse. by rewrite Hparse.
Qed.

(** X21. [process_game_event] drops what it cannot read: no event data,
    event data without a payload, a payload that is not JSON, or event
    data that fails validation. In each case it returns and the state is
    unchanged. *)
Theorem process_game_event_dropped (event_data : gmap string string) (s : State) :
  (event_data = ∅ → run event_data s = (s, Return tt))
  ∧ (event_data !! "payload" = None → run event_data s = (s, Return tt))
  ∧ (∀ text, event_data !! "payload" = Some text → json_loads text = None →
             run event_data s = (s, Return tt))
  ∧ (∀ text payload_data,
       event_data !! "payload" = Some text →
       json_loads text = Some payload_data →
       parse event_data payload_data = Raise ValueError →
       run event_data s = (s, Return tt)).
Proof.
  subst run. unfold process_game_event. repeat split.
  - by intros ->.
  - intros ->. by destruct (decide _).
  - intros text -> ->. by destruct (decide _).
  - intros text payload_data -> -> Hparse. fold parse. rewrite Hparse.
    by destruct (decide _).
Qed.

End ServiceProperties.

Lemma validate_type_members_witness :
  GameEvent.validate_type "RESPAWN" = UNKNOWN.
Proof.
  destruct (validate_type_members "RESPAWN" UNKNOWN) as (_ & _ & H).
  apply H. intros t. destruct t; discriminate.
Defined.

Lemma process_game_event_unknown_witness :
  sample_process_game_event sample_respawn_data sample_state
  = (sample_state, Return tt).
Proof.
  refine (proj2 (process_game_event_unknown default_settings Iso.utc_timestamp
                   string sample_json_loads _ _ _ _ _ _
                   sample_respawn_data "{}" "{}" sample_state
                   eq_refl eq_refl _)).
  right. exists "RESPAWN". split; [reflexivity |].
  intros t _. destruct t; discriminate.
Defined.

Lemma process_game_event_dropped_witness :
  sample_process_game_event sample_invalid_data sample_state
  = (sample_state, Return tt).
Proof.
  destruct (process_game_event_dropped default_settings Iso.utc_timestamp
              string sample_json_loads
              (fun _ => Raise ValueError) (fun _ => Raise ValueError)
              (fun _ => Raise ValueError) (fun _ => Raise ValueError)
              (fun _ => Raise ValueError) (fun _ => Raise ValueError)
              sample_invalid_data sample_state) as (_ & _ & _ & H).
  by apply (H "{}" "{}").
Defined.

(** ** MatchEndProcessor *)

Lemma dict_get_in {V} (d : list (string * V)) k v :
  NoDup (map fst d) → (k, v) ∈ d → dict_get d k = Some v.
Proof.
  induction d as [| [k' v'] d IH]; intros Hd Hin; [by apply elem_of_nil in Hin |].
  simpl in Hd. apply NoDup_cons in Hd as [Hk Hd]. simpl.
  apply elem_of_cons in Hin as [[= -> ->] | Hin].
  - by rewrite String.eqb_refl.
  - destruct (String.eqb k' k) eqn:Heq; [| by apply IH].
    apply String.eqb_eq in Heq as ->. exfalso. apply Hk.
    apply list_elem_of_fmap. by exists (k, v).
Qed.

Lemma players_for_match_lookup cls m p :
  registry_wf cls → p ∈ PlayerRegistry.players_for_match cls m →
  PlayerRegistry.get_match_id_for_player cls p = m.
Proof.
  intros Hwf Hp. unfold PlayerRegistry.players_for_match in Hp.
  apply list_elem_of_fmap in Hp as ([p' data] & -> & Hin).
  apply list_elem_of_In, filter_In in Hin as [Hin Hsel].
  apply bool_decide_eq_true in Hsel. simpl in *.
  unfold PlayerRegistry.get_match_id_for_player.
  by rewrite (dict_get_in _ p' data Hwf) by (by apply list_elem_of_In).
Qed.

(** A loop whose body returns and acts on the fields by [upd] as long as
    [I] holds, and keeps [I]. *)
Lemma for_each_invariant {A} (I : State → Prop) (l : list A) (body : A → M unit)
    (upd : A → key → string → option value → option value) :
  (∀ x s, x ∈ l → I s →
     (body x s).2 = Return tt ∧ I (body x s).1
     ∧ ∀ k f, field (body x s).1 k f = upd x k f (field s k f)) →
  ∀ s, I s →
    (for_each l body s).2 = Return tt ∧ I (for_each l body s).1
    ∧ ∀ k f, field (for_each l body s).1 k f
             = fold_left (fun old x => upd x k f old) l (field s k f).
Proof.
  induction l as [| x l IH]; intros Hbody s Hs; simpl; [done |].
  unfold bind. destruct (Hbody x s) as (Hret & HI & Hfield); [by left | done |].
  destruct (body x s) as [s1 r]; simpl in *. subst r.
  destruct (IH (fun y s' Hy => Hbody y s' (list_elem_of_further _ _ _ Hy)) s1 HI)
    as (Hret' & HI' & Hfield').
  split; [done |]. split; [done |].
  intros k f. by rewrite Hfield', Hfield.
Qed.

Lemma same_histories_hset s0 s k mapping :
  same_histories s0 s → same_histories s0 (hset k mapping s).1.
Proof.
  intros (Hreg & Hkz & Hdz). unfold same_histories.
  rewrite hset_registry.
  destruct (hset_zsets k mapping s) as [-> ->]. done.
Qed.

Lemma fold_hset_update_player (m : string)
    (mapping_of : string → list (string * option value))
    (players : list string) p f init v :
  NoDup players → p ∈ players →
  encode_mapping (mapping_of p) ≫= (fun l => written l f) = Some v →
  fold_left (fun old q => hset_update (PlayerKey m q) (mapping_of q)
                            (PlayerKey m p) f old) players init
  = Some v.
Proof.
  intros Hnodup Hp Hv.
  apply list_elem_of_split in Hp as (l1 & l2 & ->).
  apply NoDup_app in Hnodup as (_ & _ & Hnodup).
  apply NoDup_cons in Hnodup as [Hp _].
  apply (fold_hset_update_last (fun q => PlayerKey m q) mapping_of l1 l2 p);
    [| done].
  intros q Hq [= ->]. done.
Qed.

Section MatchEnd.

Variable settings : Settings.
Variable m : string.

Lemma MatchEnd_streaks_loop s0 s :
  registry_wf (registry s0) →
  same_histories s0 s →
  let players := PlayerRegistry.players_for_match (registry s0) (Some m) in
  (∀ p, p ∈ players → ∃ labels, kill_streaks_of settings s0 m p = Return labels) →
  let r := MatchEnd_calculate_kill_streaks settings (Some m) s in
  r.2 = Return tt ∧ same_histories s0 r.1
  ∧ ∀ k f, field r.1 k f
           = fold_left (fun old p => hset_update (PlayerKey m p)
                                       (streaks_mapping settings m s0 p) k f old)
                       players (field s k f).
Proof.
  intros Hwf Hs players Hstreaks r. subst r.
  unfold MatchEnd_calculate_kill_streaks.
  rewrite (bind_return _ _ s s (registry s)) by reflexivity.
  destruct Hs as (Hreg & Hkz & Hdz). rewrite Hreg. fold players.
  apply (for_each_invariant (same_histories s0)); [| by repeat split].
  intros p s' Hp (Hreg' & Hkz' & Hdz').
  assert (Hm : PlayerRegistry.get_match_id_for_player (registry s') p = Some m)
    by (rewrite Hreg'; by apply players_for_match_lookup).
  destruct (Hstreaks p Hp) as [labels Hlabels].
  rewrite (bind_return _ _ _ _ _ (get_player_kill_history_key_registered _ _ _ Hm)).
  assert (Hhist : kill_history_of s' m p = kill_history_of s0 m p)
    by (unfold kill_history_of; by rewrite Hkz').
  rewrite (bind_return _ _ s' s' (kill_history_of s0 m p))
    by (by rewrite <- Hhist).
  rewrite (bind_return _ _ s' s' labels) by (unfold lift; by rewrite <- Hlabels).
  rewrite (bind_return _ _ _ _ _ (get_player_state_key_registered _ _ _ Hm)).
  split; [by apply (hset_return _ _ [("kill_streaks", VStrList labels)]) |].
  split; [by apply same_histories_hset |].
  intros k f. unfold streaks_mapping. rewrite Hlabels.
  by apply (hset_field _ _ [("kill_streaks", VStrList labels)]).
Qed.

Lemma MatchEnd_sprees_loop s0 s :
  registry_wf (registry s0) →
  same_histories s0 s →
  let players := PlayerRegistry.players_for_match (registry s0) (Some m) in
  let r := MatchEnd_calculate_max_killing_sprees (Some m) s in
  r.2 = Return tt ∧ same_histories s0 r.1
  ∧ ∀ k f, field r.1 k f
           = fold_left (fun old p => hset_update (PlayerKey m p)
                                       (spree_mapping m s0 p) k f old)
                       players (field s k f).
Proof.
  intros Hwf Hs players r. subst r.
  unfold MatchEnd_calculate_max_killing_sprees.
  rewrite (bind_return _ _ s s (registry s)) by reflexivity.
  destruct Hs as (Hreg & Hkz & Hdz). rewrite Hreg. fold players.
  apply (for_each_invariant (same_histories s0)); [| by repeat split].
  intros p s' Hp (Hreg' & Hkz' & Hdz').
  assert (Hm : PlayerRegistry.get_match_id_for_player (registry s') p = Some m)
    by (rewrite Hreg'; by apply players_for_match_lookup).
  rewrite (bind_return _ _ _ _ _ (get_player_kill_history_key_registered _ _ _ Hm)).
  rewrite (bind_return _ _ _ _ _ (get_player_death_history_key_registered _ _ _ Hm)).
  assert (Hkills : kill_history_of s' m p = kill_history_of s0 m p)
    by (unfold kill_history_of; by rewrite Hkz').
  assert (Hdeaths : death_history_of s' m p = death_history_of s0 m p)
    by (unfold death_history_of; by rewrite Hdz').
  rewrite (bind_return _ _ s' s' (kill_history_of s0 m p))
    by (by rewrite <- Hkills).
  rewrite (bind_return _ _ s' s' (death_history_of s0 m p))
    by (by rewrite <- Hdeaths).
  rewrite (bind_return _ _ _ _ _ (get_player_state_key_registered _ _ _ Hm)).
  split; [by eapply hset_return |].
  split; [by apply same_histories_hset |].
  intros k f. by eapply hset_field.
Qed.

End MatchEnd.

Lemma fold_hset_update_unwritten {A} (key_of : A → key)
    (mapping_of : A → list (string * option value)) (l : list A) k f init :
  (∀ x, x ∈ l → f ∉ map fst (mapping_of x)) →
  fold_left (fun old x => hset_update (key_of x) (mapping_of x) k f old) l init
  = init.
Proof.
  intros Hf. apply fold_left_unchanged.
  intros x old Hx. apply hset_update_unwritten. by apply Hf.
Qed.

Section MatchEndEffect.

Variable settings : Settings.
Variables (event : GameEvent.t) (payload : MatchEndPayload.t) (m : string).
Hypothesis Hpayload : GameEvent.payload event = PMatchEnd payload.
Hypothesis Hmatch : GameEvent.match_id event = Some m.


End MatchEndEffect.

Lemma sample_played_state_registry_wf : registry_wf (registry sample_played_state).
Proof.
  unfold registry_wf.
  assert (H : map fst (PlayerRegistry._matches (registry sample_played_state))
              = ["player_1"; "player_2"; "player_3"; "player_4"]) by (by vm_compute).
  rewrite H.
  repeat (apply NoDup_cons; split; [not_a_field |]). apply NoDup_nil_2.
Qed.

Lemma sample_played_state_players :
  PlayerRegistry.players_for_match (registry sample_played_state) (Some "game_1")
  = ["player_1"; "player_2"; "player_3"; "player_4"].
Proof. by vm_compute. Qed.

Lemma sample_played_state_double_kill :
  kill_streaks_of default_settings sample_played_state "game_1" "player_1"
  = Return ["Double Kill at 2024-01-01 12:01:10"].
Proof. by vm_compute. Qed.

Lemma sample_played_state_no_streak p :
  p ∈ ["player_2"; "player_3"; "player_4"] →
  kill_streaks_of default_settings sample_played_state "game_1" p = Return [].
Proof.
  intros Hp.
  repeat (apply elem_of_cons in Hp as [-> | Hp]; [by vm_compute |]).
  by apply elem_of_nil in Hp.
Qed.

Lemma sample_played_state_streaks p :
  p ∈ PlayerRegistry.players_for_match (registry sample_played_state) (Some "game_1") →
  ∃ labels, kill_streaks_of default_settings sample_played_state "game_1" p
            = Return labels.
Proof.
  rewrite sample_played_state_players. intros Hp.
  apply elem_of_cons in Hp as [-> | Hp].
  - eexists. apply sample_played_state_double_kill.
  - eexists. apply (sample_played_state_no_streak _ Hp).
Qed.


(** ** The killing spree is the longest run of kills that a death ends *)

Lemma kills_within_nonneg lo hi kills : 0 <= kills_within lo hi kills.
Proof. unfold kills_within. lia. Qed.

Lemma kills_within_le lo hi kills :
  kills_within lo hi kills <= Z.of_nat (length kills).
Proof.
  unfold kills_within. pose proof (List.filter_length_le
    (fun k => match lo with Some l => l <=? k | None => true end && (k <? hi)) kills).
  lia.
Qed.

Lemma longest_nonneg counts : 0 <= longest counts.
Proof. unfold longest. induction counts; simpl; lia. Qed.

Lemma longest_le counts (n : Z) :
  0 <= n → Forall (fun c => c <= n) counts → longest counts <= n.
Proof.
  intros Hn Hall. unfold longest.
  induction Hall as [| c counts Hc Hall IH]; simpl; lia.
Qed.

Lemma sprees_le lo deaths kills :
  Forall (fun c => c <= Z.of_nat (length kills)) (sprees lo deaths kills).
Proof.
  revert lo. induction deaths as [| d deaths IH]; intros lo; simpl; constructor.
  - apply kills_within_le.
  - apply IH.
Qed.

Lemma sprees_no_kills deaths : ∀ lo, longest (sprees lo deaths []) = 0.
Proof.
  induction deaths as [| d deaths IH]; intros lo; simpl; [done |].
  unfold longest in *. simpl. rewrite IH. reflexivity.
Qed.

(** A kill before the death [lo] belongs to no later spree. *)
Lemma sprees_early_kill deaths : ∀ lo k kills,
  k < lo → Sorted Z.le (lo :: deaths) →
  sprees (Some lo) deaths (k :: kills) = sprees (Some lo) deaths kills.
Proof.
  induction deaths as [| d deaths IH]; intros lo k kills Hk Hs; simpl; [done |].
  apply Sorted_inv in Hs as [Hs Hd]. apply HdRel_inv in Hd.
  f_equal.
  - unfold kills_within. simpl.
    rewrite (proj2 (Z.leb_gt lo k)) by lia. reflexivity.
  - apply IH; [lia | done].
Qed.

(** When no kill is before the death [lo], the bound [lo] filters nothing. *)
Lemma kills_within_late lo hi kills :
  Forall (fun k => lo <= k) kills →
  kills_within (Some lo) hi kills = kills_within None hi kills.
Proof.
  intros Hall. unfold kills_within. do 2 f_equal.
  induction Hall as [| k kills Hk Hall IH]; simpl; [done |].
  rewrite (proj2 (Z.leb_le lo k)) by lia. simpl. by rewrite IH.
Qed.

Lemma sprees_late_kills deaths lo kills :
  Forall (fun k => lo <= k) kills →
  match deaths with
  | [] => 0
  | d :: deaths' =>
      Z.max (0 + kills_within None d kills) (longest (sprees (Some d) deaths' kills))
  end = longest (sprees (Some lo) deaths kills).
Proof.
  intros Hall. destruct deaths as [| d deaths]; [done |].
  cbn [sprees]. unfold longest. cbn [fold_right].
  rewrite (kills_within_late lo d kills Hall). lia.
Qed.

Lemma Sorted_le_Forall (k : Z) kills :
  Sorted Z.le (k :: kills) → Forall (fun k' => k <= k') kills.
Proof.
  intros Hs. apply Sorted_StronglySorted in Hs; [| intros x y z; lia].
  by apply StronglySorted_inv in Hs as [_ Hall].
Qed.

Lemma spree_walk_sprees kills : ∀ deaths streak recorded,
  Sorted Z.le kills → Sorted Z.le deaths → 0 <= streak →
  spree_walk kills streak recorded deaths
  = Z.max recorded
      match deaths with
      | [] => streak
      | d :: deaths' =>
          Z.max (streak + kills_within None d kills)
                (longest (sprees (Some d) deaths' kills))
      end.
Proof.
  induction kills as [| k kills IHk]; intros deaths streak recorded Hk Hd Hs.
  { simpl. destruct deaths as [| d deaths]; [done |].
    rewrite sprees_no_kills. unfold kills_within. simpl. lia. }
  revert streak recorded Hs.
  induction deaths as [| d deaths IHd]; intros streak recorded Hs.
  { simpl. by rewrite spree_walk_no_deaths. }
  assert (Hk' : Sorted Z.le kills) by (by apply Sorted_inv in Hk as [? _]).
  assert (Hd' : Sorted Z.le deaths) by (by apply Sorted_inv in Hd as [? _]).
  destruct (Z.leb_spec d k) as [Hle | Hlt].
  - (* the death is passed: the walk goes on from the next death *)
    assert (Hpass : spree_walk (k :: kills) streak recorded (d :: deaths)
                    = spree_walk (k :: kills) 0 (Z.max recorded streak) deaths).
    { simpl. by rewrite (proj2 (Z.leb_le d k)). }
    rewrite Hpass, (IHd Hd') by lia.
    assert (Hall : Forall (fun k' => d <= k') (k :: kills)).
    { constructor; [done |]. eapply Forall_impl; [apply (Sorted_le_Forall k), Hk |].
      simpl. lia. }
    rewrite (sprees_late_kills deaths d (k :: kills) Hall).
    assert (Hnone : kills_within None d (k :: kills) = 0).
    { unfold kills_within. simpl.
      assert (Hf : List.filter (fun k0 => true && (k0 <? d)) (k :: kills) = []).
      { clear -Hall. induction Hall as [| x l Hx Hall IH]; [done |].
        simpl. rewrite (proj2 (Z.ltb_ge x d)) by lia. exact IH. }
      simpl in Hf. by rewrite Hf. }
    rewrite Hnone. lia.
  - (* the kill is before the death: it counts *)
    assert (Hstay : spree_walk (k :: kills) streak recorded (d :: deaths)
                    = spree_walk kills (streak + 1) recorded (d :: deaths)).
    { simpl. by rewrite (proj2 (Z.leb_gt d k)). }
    rewrite Hstay, (IHk (d :: deaths)) by (done || lia).
    rewrite (sprees_early_kill deaths d k kills Hlt Hd).
    assert (Hcount : kills_within None d (k :: kills)
                     = 1 + kills_within None d kills).
    { unfold kills_within. simpl. rewrite (proj2 (Z.ltb_lt k d)) by lia.
      simpl length. lia. }
    rewrite Hcount. lia.
Qed.

Lemma calculate_max_killing_spree_longest kill_history death_history :
  Sorted Z.le (human_kills kill_history) →
  Sorted Z.le death_history →
  calculate_max_killing_spree kill_history death_history
  = longest (sprees None death_history (human_kills kill_history)).
Proof.
  intros Hk Hd.
  rewrite calculate_max_killing_spree_spec, spree_walk_sprees by done.
  destruct death_history as [| d deaths]; simpl; [done |].
  unfold longest. simpl.
  pose proof (kills_within_nonneg None d (human_kills kill_history)).
  pose proof (longest_nonneg (sprees (Some d) deaths (human_kills kill_history))).
  unfold longest in *. lia.
Qed.

(** X23. On chronological histories [calculate_max_killing_spree] is the
    greatest number of human kills that fall between two consecutive
    deaths, or before the first death: a kill at the instant of a death
    counts for the spree after it, and the kills from the last death on
    are in no spree. The result is never negative and never exceeds the
    number of human kills. *)
Theorem calculate_max_killing_spree_between_deaths
    (kill_history : list kill) (death_history : list Z) :
  Sorted Z.le (human_kills kill_history) →
  Sorted Z.le death_history →
  calculate_max_killing_spree kill_history death_history
  = longest (sprees None death_history (human_kills kill_history))
  ∧ 0 <= calculate_max_killing_spree kill_history death_history
         <= Z.of_nat (length (human_kills kill_history)).
Proof.
  intros Hk Hd.
  rewrite (calculate_max_killing_spree_longest _ _ Hk Hd).
  split; [done |]. split; [apply longest_nonneg |].
  apply longest_le; [lia | apply sprees_le].
Qed.

Lemma calculate_max_killing_spree_between_deaths_witness :
  calculate_max_killing_spree
    [{| timestamp := 1; kill_type := "human" |};
     {| timestamp := 2; kill_type := "minion" |};
     {| timestamp := 5; kill_type := "human" |};
     {| timestamp := 6; kill_type := "human" |};
     {| timestamp := 9; kill_type := "human" |}] [5; 8]
  = 2.
Proof.
  assert (Hk : Sorted Z.le (human_kills
    [{| timestamp := 1; kill_type := "human" |};
     {| timestamp := 2; kill_type := "minion" |};
     {| timestamp := 5; kill_type := "human" |};
     {| timestamp := 6; kill_type := "human" |};
     {| timestamp := 9; kill_type := "human" |}])).
  { change (Sorted Z.le [1; 5; 6; 9]). repeat constructor; lia. }
  assert (Hd : Sorted Z.le [5; 8]) by (repeat constructor; lia).
  destruct (calculate_max_killing_spree_between_deaths _ _ Hk Hd) as [H _].
  exact H.
Defined.

(** ** The histories are kept in chronological order *)

Lemma ascii_compare_lt_trans (a b c : ascii) :
  Ascii.compare a b = Lt → Ascii.compare b c = Lt → Ascii.compare a c = Lt.
Proof. unfold Ascii.compare. rewrite !N.compare_lt_iff. lia. Qed.

Lemma string_compare_lt_trans (s1 : string) : ∀ s2 s3,
  String.compare s1 s2 = Lt → String.compare s2 s3 = Lt →
  String.compare s1 s3 = Lt.
Proof.
  induction s1 as [| a s1 IH]; intros [| b s2] [| c s3]; simpl; try done.
  destruct (Ascii.compare a b) eqn:Hab; try done;
    destruct (Ascii.compare b c) eqn:Hbc; try done; intros H12 H23.
  - apply Ascii.compare_eq_iff in Hab, Hbc. subst.
    assert (Hcc : Ascii.compare c c = Eq).
    { unfold Ascii.compare. apply N.compare_refl. }
    rewrite Hcc. by apply (IH s2).
  - apply Ascii.compare_eq_iff in Hab. subst. by rewrite Hbc.
  - apply Ascii.compare_eq_iff in Hbc. subst. by rewrite Hab.
  - by rewrite (ascii_compare_lt_trans a b c).
Qed.

Lemma string_ltb_trans s1 s2 s3 :
  String.ltb s1 s2 = true → String.ltb s2 s3 = true → String.ltb s1 s3 = true.
Proof.
  unfold String.ltb. intros H12 H23.
  destruct (String.compare s1 s2) eqn:E12; try done.
  destruct (String.compare s2 s3) eqn:E23; try done.
  by rewrite (string_compare_lt_trans s1 s2 s3).
Qed.

Lemma string_ltb_total s1 s2 :
  String.eqb s1 s2 = false → String.ltb s1 s2 = false → String.ltb s2 s1 = true.
Proof.
  unfold String.ltb. intros Hne Hlt.
  rewrite String.compare_antisym.
  destruct (String.compare s1 s2) eqn:E; try done.
  apply String.compare_eq_iff in E. subst.
  by rewrite String.eqb_refl in Hne.
Qed.

Lemma string_ltb_irrefl s : String.ltb s s = false.
Proof.
  unfold String.ltb.
  destruct (String.compare s s) eqn:E; try done.
  pose proof (String.compare_antisym s s) as H. rewrite E in H. done.
Qed.

Lemma kill_eqb_eq a b : kill_eqb a b = true ↔ a = b.
Proof.
  unfold kill_eqb. destruct a as [ta ka], b as [tb kb]. simpl.
  rewrite andb_true_iff, Z.eqb_eq, String.eqb_eq.
  split; [intros [-> ->]; done | intros [= -> ->]; done].
Qed.

Lemma kill_before_trans a b c :
  kill_before a b = true → kill_before b c = true → kill_before a c = true.
Proof.
  unfold kill_before.
  rewrite !orb_true_iff, !andb_true_iff, !Z.ltb_lt, !Z.eqb_eq.
  intros [Hab | [Hab Hk1]] [Hbc | [Hbc Hk2]]; try (left; lia).
  right. split; [lia |]. by apply (string_ltb_trans _ (kill_type b)).
Qed.

Lemma kill_before_total a b :
  kill_eqb a b = false → kill_before b a = false → kill_before a b = true.
Proof.
  unfold kill_eqb, kill_before.
  rewrite andb_false_iff, !orb_false_iff, orb_true_iff, andb_false_iff,
    andb_true_iff, Z.ltb_ge, Z.ltb_lt, !Z.eqb_neq, !Z.eqb_eq.
  intros Hne [Hge Hnlt].
  destruct (decide (timestamp a = timestamp b)) as [Heq | Hts]; [| left; lia].
  right. split; [done |].
  destruct Hne as [Hne | Hne]; [done |].
  destruct Hnlt as [Hnlt | Hnlt]; [congruence |].
  apply string_ltb_total; [| done].
  rewrite String.eqb_sym. exact Hne.
Qed.

Lemma kill_before_irrefl a : kill_before a a = false.
Proof.
  unfold kill_before. rewrite Z.ltb_irrefl, string_ltb_irrefl.
  by rewrite andb_false_r.
Qed.

Lemma zset_add_kill_elem_of member l x :
  x ∈ zset_add_kill member l ↔ x = member ∨ x ∈ l.
Proof.
  induction l as [| y l IH]; simpl.
  - rewrite elem_of_cons. tauto.
  - destruct (kill_eqb y member) eqn:Heq.
    + apply kill_eqb_eq in Heq. subst. rewrite elem_of_cons. tauto.
    + destruct (kill_before member y).
      * rewrite !elem_of_cons. tauto.
      * rewrite !elem_of_cons, IH. tauto.
Qed.

Lemma zset_add_kill_sorted member l :
  kills_sorted l → kills_sorted (zset_add_kill member l).
Proof.
  unfold kills_sorted. induction 1 as [| y l Hl IH Hy]; simpl.
  - repeat constructor.
  - destruct (kill_eqb y member) eqn:Heq; [by constructor |].
    destruct (kill_before member y) eqn:Hbefore.
    + constructor; [by constructor |].
      constructor; [done |].
      eapply Forall_impl; [exact Hy |]. simpl. intros z Hz.
      by apply (kill_before_trans _ y).
    + constructor; [exact IH |].
      apply Forall_forall. intros z Hz.
      apply zset_add_kill_elem_of in Hz as [-> | Hz].
      * by apply kill_before_total.
      * rewrite Forall_forall in Hy. by apply Hy.
Qed.

Lemma zset_add_kill_present member l :
  kills_sorted l → member ∈ l → zset_add_kill member l = l.
Proof.
  unfold kills_sorted. induction 1 as [| y l Hl IH Hy]; intros Hin.
  - by apply elem_of_nil in Hin.
  - simpl. destruct (kill_eqb y member) eqn:Heq; [done |].
    apply elem_of_cons in Hin as [-> | Hin].
    { assert (kill_eqb y y = true) by (by apply kill_eqb_eq). congruence. }
    rewrite Forall_forall in Hy. specialize (Hy member Hin).
    destruct (kill_before member y) eqn:Hbefore.
    + pose proof (kill_before_trans _ _ _ Hy Hbefore) as Hirr.
      by rewrite kill_before_irrefl in Hirr.
    + by rewrite IH.
Qed.

Lemma zset_add_kill_length member l :
  member ∉ l → length (zset_add_kill member l) = S (length l).
Proof.
  induction l as [| y l IH]; intros Hnin; simpl; [done |].
  destruct (kill_eqb y member) eqn:Heq.
  { apply kill_eqb_eq in Heq. subst. exfalso. apply Hnin. left. }
  destruct (kill_before member y); simpl; [done |].
  rewrite IH; [done |]. intros Hin. apply Hnin. by right.
Qed.

Lemma zset_add_death_elem_of t l x :
  x ∈ zset_add_death t l ↔ x = t ∨ x ∈ l.
Proof.
  induction l as [| y l IH]; simpl.
  - rewrite elem_of_cons. tauto.
  - destruct (Z.eqb_spec y t) as [-> | Hne]; [rewrite elem_of_cons; tauto |].
    destruct (t <? y).
    + rewrite !elem_of_cons. tauto.
    + rewrite !elem_of_cons, IH. tauto.
Qed.

Lemma zset_add_death_sorted t l :
  deaths_sorted l → deaths_sorted (zset_add_death t l).
Proof.
  unfold deaths_sorted. induction 1 as [| y l Hl IH Hy]; simpl.
  - repeat constructor.
  - destruct (Z.eqb_spec y t) as [-> | Hne]; [by constructor |].
    destruct (Z.ltb_spec t y) as [Hlt | Hge].
    + constructor; [by constructor |].
      constructor; [done |].
      eapply Forall_impl; [exact Hy |]. simpl. lia.
    + constructor; [exact IH |].
      apply Forall_forall. intros z Hz.
      apply zset_add_death_elem_of in Hz as [-> | Hz]; [lia |].
      rewrite Forall_forall in Hy. by apply Hy.
Qed.

#[global] Instance keeps_sorted_refl : Reflexive keeps_sorted.
Proof. intros s Hs. exact Hs. Qed.

#[global] Instance keeps_sorted_trans : Transitive keeps_sorted.
Proof. unfold keeps_sorted. intros s1 s2 s3 H12 H23 H1. auto. Qed.

Lemma keeps_sorted_same_zsets s s' :
  kill_zsets (redis s') = kill_zsets (redis s) →
  death_zsets (redis s') = death_zsets (redis s) →
  keeps_sorted s s'.
Proof. unfold keeps_sorted, histories_sorted. by intros -> ->. Qed.

Lemma keeps_sorted_hset k mapping : preserves keeps_sorted (hset k mapping).
Proof.
  intros s. apply keeps_sorted_same_zsets; apply hset_zsets.
Qed.

Lemma keeps_sorted_hincrby k f amount :
  preserves keeps_sorted (hincrby k f amount).
Proof.
  intros s. apply keeps_sorted_same_zsets; apply hincrby_zsets.
Qed.

Lemma keeps_sorted_set_registry cls : preserves keeps_sorted (set_registry cls).
Proof. intros s. by apply keeps_sorted_same_zsets. Qed.

Lemma keeps_sorted_add_kill_history k t kt :
  preserves keeps_sorted (add_kill_history k t kt).
Proof.
  intros s [Hk Hd]. split; [| exact Hd]. simpl. intros k' l.
  destruct (decide (k = k')) as [<- | Hne].
  - rewrite lookup_insert_eq. intros [= <-].
    apply zset_add_kill_sorted.
    destruct (kill_zsets (redis s) !! k) as [l0 |] eqn:Hl0; simpl.
    + by apply (Hk k).
    + constructor.
  - rewrite lookup_insert_ne by done. apply Hk.
Qed.

Lemma keeps_sorted_zadd_death k t : preserves keeps_sorted (zadd_death k t).
Proof.
  intros s [Hk Hd]. split; [exact Hk |]. simpl. intros k' l.
  destruct (decide (k = k')) as [<- | Hne].
  - rewrite lookup_insert_eq. intros [= <-].
    apply zset_add_death_sorted.
    destruct (death_zsets (redis s) !! k) as [l0 |] eqn:Hl0; simpl.
    + by apply (Hd k).
    + constructor.
  - rewrite lookup_insert_ne by done. apply Hd.
Qed.

Ltac preserves_keeps_sorted :=
  repeat first
    [ progress cbv beta zeta
    | apply keeps_sorted_hset
    | apply keeps_sorted_hincrby
    | apply keeps_sorted_set_registry
    | apply keeps_sorted_add_kill_history
    | apply keeps_sorted_zadd_death
    | preserves_step ].

Lemma kills_sorted_timestamps l :
  kills_sorted l → StronglySorted Z.le (map timestamp l).
Proof.
  unfold kills_sorted. induction 1 as [| y l Hl IH Hy]; simpl; constructor.
  - exact IH.
  - apply Forall_map. eapply Forall_impl; [exact Hy |]. simpl.
    intros z. unfold kill_before.
    rewrite orb_true_iff, andb_true_iff, Z.ltb_lt, Z.eqb_eq. lia.
Qed.

Lemma kills_sorted_filter (sel : kill → bool) l :
  kills_sorted l → kills_sorted (List.filter sel l).
Proof.
  unfold kills_sorted. induction 1 as [| y l Hl IH Hy]; simpl; [constructor |].
  destruct (sel y); [| exact IH].
  constructor; [exact IH |].
  apply Forall_forall. intros z Hz.
  apply list_elem_of_In, filter_In in Hz as [Hz _].
  rewrite Forall_forall in Hy. apply Hy. by apply list_elem_of_In.
Qed.

Lemma deaths_sorted_le l : deaths_sorted l → Sorted Z.le l.
Proof.
  unfold deaths_sorted. intros Hs. apply StronglySorted_Sorted.
  induction Hs as [| y l Hl IH Hy]; constructor; [done |].
  eapply Forall_impl; [exact Hy |]. simpl. lia.
Qed.

Section SortedHistories.

Variable settings : Settings.
Variable iso : string → option Z.

Lemma process_event_keeps_sorted e :
  preserves keeps_sorted (process_event settings iso e).
Proof.
  unfold process_event.
  destruct (GameEvent.type_ e);
    unfold MatchStartProcessor, MatchStart_team, MatchStart_player,
      register_player,
      MinionKillProcessor, PlayerKillProcessor, PlayerKill_killer,
      PlayerKill_assistants, PlayerKill_victim, PlayerKill_first_blood,
      DragonKillProcessor, TurretDestroyProcessor, TurretDestroy_player,
      MatchEndProcessor, MatchEnd_calculate_kill_streaks,
      MatchEnd_calculate_max_killing_sprees;
    preserves_keeps_sorted.
Qed.

(** X24. Every processor keeps the histories in [zrange] order: after any
    sequence of events (of any type, also when the processing stops on an
    exception) from a state whose histories are in order, as the empty
    store is, every kill history is ordered by timestamp, then kill type,
    and every death history is increasing. MatchEndProcessor therefore
    hands chronological lists to [calculate_kill_streaks] and to
    [calculate_max_killing_spree]. *)
Theorem process_events_keep_histories_sorted
    (events : list GameEvent.t) (s : State) :
  histories_sorted s →
  let s' := (process_events settings iso events s).1 in
  histories_sorted s'
  ∧ ∀ m p,
      Sorted Z.le (map timestamp (kill_history_of s' m p))
      ∧ Sorted Z.le (human_kills (kill_history_of s' m p))
      ∧ Sorted Z.le (death_history_of s' m p).
Proof.
  intros Hs s'.
  assert (Hs' : histories_sorted s').
  { revert Hs. apply (preserves_for_each (R := keeps_sorted)).
    apply process_event_keeps_sorted. }
  split; [exact Hs' |]. destruct Hs' as [Hk Hd]. intros m p.
  assert (Hkills : kills_sorted (kill_history_of s' m p)).
  { unfold kill_history_of.
    destruct (kill_zsets (redis s') !! KillHistoryKey m p) as [l |] eqn:Hl; simpl.
    - by apply (Hk (KillHistoryKey m p)).
    - constructor. }
  split; [| split].
  - by apply StronglySorted_Sorted, kills_sorted_timestamps.
  - unfold human_kills.
    by apply StronglySorted_Sorted, kills_sorted_timestamps, kills_sorted_filter.
  - apply deaths_sorted_le. unfold death_history_of.
    destruct (death_zsets (redis s') !! DeathHistoryKey m p) as [l |] eqn:Hl; simpl.
    + by apply (Hd (DeathHistoryKey m p)).
    + constructor.
Qed.

End SortedHistories.

Lemma empty_state_histories_sorted : histories_sorted empty_state.
Proof. split; intros k l; simpl; by rewrite lookup_empty. Qed.

Lemma process_events_keep_histories_sorted_witness :
  Sorted Z.le
    (map timestamp
       (kill_history_of
          (process_events default_settings Iso.utc_timestamp
             (sample_match_start :: sample_events) empty_state).1
          "game_1" "player_1")).
Proof.
  destruct (process_events_keep_histories_sorted default_settings
              Iso.utc_timestamp (sample_match_start :: sample_events)
              empty_state empty_state_histories_sorted) as [_ H].
  destruct (H "game_1" "player_1") as [Hk _]. exact Hk.
Defined.

(** ** A kill history is a set *)



(** ** A MINION_KILL that is delivered twice *)

Section MinionKillRedelivered.

Variable iso : string → option Z.
Variables (event : GameEvent.t) (payload : MinionKillPayload.t).
Hypothesis Hpayload : GameEvent.payload event = PMinionKill payload.

Lemma MinionKillProcessor_run s m g t ts :
  MinionKillPayload.gold_granted payload = Some g →
  PlayerRegistry.get_match_id_for_player (registry s)
    (MinionKillPayload.player_id payload) = Some m →
  accepts s (PlayerKey m (MinionKillPayload.player_id payload)) "gold" g →
  accepts s (PlayerKey m (MinionKillPayload.player_id payload))
    "minion_kills" 1 →
  GameEvent.timestamp event = Some ts →
  iso ts = Some t →
  let k := PlayerKey m (MinionKillPayload.player_id payload) in
  MinionKillProcessor iso event s
  = add_kill_history (KillHistoryKey m (MinionKillPayload.player_id payload))
      t "minion"
      (hincrby k "minion_kills" (Some 1) (hincrby k "gold" (Some g) s).1).1.
Proof.
  intros Hg Hm Hgold Hminion Hts Hiso k.
  destruct (MinionKill_increments payload s m g Hm Hgold Hminion)
    as (_ & _ & _ & Hreg & _).
  set (s1 := (hincrby k "gold" (Some g) s).1) in *.
  set (s2 := (hincrby k "minion_kills" (Some 1) s1).1) in *.
  unfold MinionKillProcessor. rewrite Hpayload, Hg. cbv zeta.
  rewrite (bind_return _ _ _ _ _ (get_player_state_key_registered _ _ _ Hm)).
  rewrite (bind_return _ _ _ _ _ (hincrby_run _ _ _ _ Hgold)).
  fold k s1.
  rewrite (bind_return _ _ _ s2 tt).
  2:{ apply hincrby_run. apply hincrby_accepts; [by intros [_ [=]] | done]. }
  assert (Hm2 : PlayerRegistry.get_match_id_for_player (registry s2)
                  (MinionKillPayload.player_id payload)
                = Some m) by (unfold s2, s1, k; by rewrite Hreg).
  rewrite (bind_return _ _ _ _ _
             (get_player_kill_history_key_registered _ _ _ Hm2)).
  rewrite (bind_return _ _ s2 s2 t); [done |].
  unfold event_timestamp. by rewrite Hts, Hiso.
Qed.


End MinionKillRedelivered.


(** ** The label of a killing spree *)

Lemma max_killing_spree_label_cases n :
  (n < 3 ∧ max_killing_spree_label n = None)
  ∨ (n = 3 ∧ max_killing_spree_label n = Some "Killing Spree")
  ∨ (n = 4 ∧ max_killing_spree_label n = Some "Rampage")
  ∨ (n = 5 ∧ max_killing_spree_label n = Some "Unstoppable")
  ∨ (n = 6 ∧ max_killing_spree_label n = Some "Dominating")
  ∨ (7 <= n ∧ max_killing_spree_label n = Some "Godlike").
Proof.
  unfold max_killing_spree_label.
  destruct (Z.ltb_spec 7 n) as [Hgt | Hle].
  { do 5 right. split; [lia | done]. }
  destruct (Z_lt_le_dec n 3) as [Hlt | Hge].
  - left. split; [done |].
    destruct n as [| [[| |] | [| |] |] |]; (done || lia).
  - assert (Hn : n = 3 ∨ n = 4 ∨ n = 5 ∨ n = 6 ∨ n = 7) by lia.
    destruct Hn as [-> | [-> | [-> | [-> | ->]]]].
    + right. left. done.
    + do 2 right. left. done.
    + do 3 right. left. done.
    + do 4 right. left. done.
    + do 5 right. done.
Qed.

Lemma longest_reached counts (n : Z) :
  0 < n → n <= longest counts → ∃ c, c ∈ counts ∧ n <= c.
Proof.
  intros Hn. unfold longest.
  induction counts as [| c counts IH]; simpl; [lia |].
  intros Hle. destruct (Z_le_gt_dec n c) as [Hc | Hc].
  - exists c. split; [left | done].
  - destruct IH as (c' & Hin & Hc'); [lia |].
    exists c'. split; [by right | done].
Qed.

Lemma longest_ge counts c : c ∈ counts → c <= longest counts.
Proof.
  unfold longest. induction counts as [| c' counts IH]; intros Hin.
  - by apply elem_of_nil in Hin.
  - simpl. apply elem_of_cons in Hin as [-> | Hin]; [lia |].
    specialize (IH Hin). lia.
Qed.

(** X27. [max_killing_spree_label] and the label the read side derives
    from the stored killing spree. No label below three kills, also for
    zero and negative values; the sprees of three to six kills have each
    their own label; every spree of seven kills or more is capped to
    ["Godlike"], and only those are. Hence a player that never died has
    no label, however many kills; and on chronological histories a player
    has a label exactly when some death ended a run of at least three
    human kills. *)
Theorem max_killing_spree_label_of_history
    (kill_history : list kill) (death_history : list Z) :
  let label := max_killing_spree_label
                 (calculate_max_killing_spree kill_history death_history) in
  (∀ n, (max_killing_spree_label n = None ↔ n < 3)
        ∧ (max_killing_spree_label n = Some "Godlike" ↔ 7 <= n))
  ∧ (∀ n n', 3 <= n <= 7 → 3 <= n' <= 7 →
             max_killing_spree_label n = max_killing_spree_label n' → n = n')
  ∧ max_killing_spree_label (calculate_max_killing_spree kill_history []) = None
  ∧ (Sorted Z.le (human_kills kill_history) →
     Sorted Z.le death_history →
     (label ≠ None
      ↔ ∃ c, c ∈ sprees None death_history (human_kills kill_history)
             ∧ 3 <= c)).
Proof.
  intros label. subst label.
  split; [| split; [| split]].
  - intros n.
    destruct (max_killing_spree_label_cases n)
      as [[H ->] | [[H ->] | [[H ->] | [[H ->] | [[H ->] | [H ->]]]]]];
      repeat split; (done || lia).
  - intros n n' Hn Hn'.
    destruct (max_killing_spree_label_cases n)
      as [[H ->] | [[H ->] | [[H ->] | [[H ->] | [[H ->] | [H ->]]]]]];
    destruct (max_killing_spree_label_cases n')
      as [[H' ->] | [[H' ->] | [[H' ->] | [[H' ->] | [[H' ->] | [H' ->]]]]]];
    intros Heq; (lia || discriminate Heq).
  - by rewrite calculate_max_killing_spree_spec, spree_walk_no_deaths.
  - intros Hk Hd.
    rewrite (calculate_max_killing_spree_longest _ _ Hk Hd).
    set (counts := sprees None death_history (human_kills kill_history)).
    assert (Hlabel : max_killing_spree_label (longest counts) ≠ None
                     ↔ 3 <= longest counts).
    { destruct (max_killing_spree_label_cases (longest counts))
        as [[H ->] | [[H ->] | [[H ->] | [[H ->] | [[H ->] | [H ->]]]]]];
        split; (done || lia). }
    rewrite Hlabel. split.
    + intros Hle. apply longest_reached; [lia | done].
    + intros (c & Hin & Hc). pose proof (longest_ge counts c Hin). lia.
Qed.

Lemma max_killing_spree_label_of_history_witness :
  max_killing_spree_label
    (calculate_max_killing_spree
       [{| timestamp := 1; kill_type := "human" |};
        {| timestamp := 2; kill_type := "human" |};
        {| timestamp := 3; kill_type := "human" |};
        {| timestamp := 9; kill_type := "human" |}] [5])
  ≠ None.
Proof.
  assert (Hk : Sorted Z.le (human_kills
    [{| timestamp := 1; kill_type := "human" |};
     {| timestamp := 2; kill_type := "human" |};
     {| timestamp := 3; kill_type := "human" |};
     {| timestamp := 9; kill_type := "human" |}])).
  { change (Sorted Z.le [1; 2; 3; 9]). repeat constructor; lia. }
  assert (Hd : Sorted Z.le [5]) by (repeat constructor).
  destruct (max_killing_spree_label_of_history
              [{| timestamp := 1; kill_type := "human" |};
               {| timestamp := 2; kill_type := "human" |};
               {| timestamp := 3; kill_type := "human" |};
               {| timestamp := 9; kill_type := "human" |}] [5])
    as (_ & _ & _ & H).
  apply (H Hk Hd). exists 3. split; [left | lia].
Defined.

(** ** Key names *)

Lemma colon_free_split (m : string) : ∀ m' r r',
  colon_free m = true → colon_free m' = true →
  key_suffix r → key_suffix r' →
  m +:+ r = m' +:+ r' → m = m' ∧ r = r'.
Proof.
  induction m as [| c m IH]; intros [| c' m'] r r' Hm Hm' Hr Hr';
    rewrite ?append_String, ?append_empty_l.
  - done.
  - intros ->. destruct Hr as [[=] | (r0 & [= -> _])].
    simpl in Hm'; try rewrite Ascii.eqb_refl in Hm'; done.
  - intros <-. destruct Hr' as [[=] | (r0 & [= -> _])].
    simpl in Hm; try rewrite Ascii.eqb_refl in Hm; done.
  - intros [= -> Heq]. simpl in Hm, Hm'.
    apply andb_true_iff in Hm as [_ Hm]. apply andb_true_iff in Hm' as [_ Hm'].
    destruct (IH m' r r' Hm Hm' Hr Hr' Heq) as [-> ->]. done.
Qed.

Ltac key_suffix :=
  first [ by left | right; rewrite ?append_String; eexists; reflexivity ].

(** Write both sides of an equation between names as an identifier
    followed by a suffix. *)
Ltac pad_names H :=
  lazymatch type of H with
  | _ +:+ _ = _ +:+ _ => idtac
  | _ +:+ _ = ?b => replace b with (b +:+ "") in H by apply append_empty_r
  | ?a = _ +:+ _ => replace a with (a +:+ "") in H by apply append_empty_r
  end.

(** X28. The key functions give different keys to different records as
    long as the identifiers hold no colon: under one namespace, two keys
    made of colon-free match, team and player ids have the same name only
    if they are the same kind of key with the same ids. With a colon in an
    id two records can share a key: the state of the match ["a:team:b"]
    and the state of team ["b"] in match ["a"] are the same hash. *)
Theorem key_name_injective (settings : Settings) (k k' : key) :
  (Forall (fun id => colon_free id = true) (key_ids k) →
   Forall (fun id => colon_free id = true) (key_ids k') →
   key_name settings k = key_name settings k' → k = k')
  ∧ key_name settings (GameKey "a:team:b") = key_name settings (TeamKey "a" "b").
Proof.
  split; [| reflexivity].
  intros Hk Hk' Hname.
  assert (Hm : ∀ ids m, Forall (fun id => colon_free id = true) (m :: ids) →
                        colon_free m = true).
  { intros ids m H. by apply Forall_cons in H as [? _]. }
  assert (Hp : ∀ m p, Forall (fun id => colon_free id = true) [m; p] →
                      colon_free p = true).
  { intros m p H. apply Forall_cons in H as [_ H].
    by apply Forall_cons in H as [? _]. }
  destruct k as [m | m t | m p | m p | m p],
           k' as [m' | m' t' | m' p' | m' p' | m' p'];
    unfold key_name in Hname; apply append_inj_l, append_inj_l in Hname;
    simpl in Hk, Hk';
    pose proof (Hm _ _ Hk) as Hcm; pose proof (Hm _ _ Hk') as Hcm';
    try (by subst);
    pad_names Hname;
    apply colon_free_split in Hname as [-> Hrest];
    try done; try key_suffix;
    try discriminate Hrest;
    apply append_inj_l in Hrest; try (by subst);
    pose proof (Hp _ _ Hk) as Hcp; pose proof (Hp _ _ Hk') as Hcp';
    pad_names Hrest;
    apply colon_free_split in Hrest as [-> Hrest];
    try done; try key_suffix; discriminate Hrest.
Qed.

Lemma key_name_injective_witness :
  TeamKey "game_1" "team_1" = TeamKey "game_1" "team_1".
Proof.
  destruct (key_name_injective default_settings
              (TeamKey "game_1" "team_1") (TeamKey "game_1" "team_1")) as [H _].
  apply H; [repeat constructor .. | reflexivity].
Defined.

(** ** [PlayerRegistry]: one team per player, and teams that outlive it *)

Lemma dict_get_elem {V} (d : list (string * V)) k v :
  dict_get d k = Some v → (k, v) ∈ d.
Proof.
  induction d as [| [k' v'] d IH]; simpl; [done |].
  destruct (String.eqb k' k) eqn:Hk.
  - apply String.eqb_eq in Hk as ->. intros [= ->]. left.
  - intros H. right. by apply IH.
Qed.

Lemma dict_set_keys {V} (d : list (string * V)) k v :
  map fst (dict_set d k v) = map fst d
  ∨ ((k ∉ map fst d) ∧ map fst (dict_set d k v) = map fst d ++ [k]).
Proof.
  induction d as [| [k' v'] d IH]; simpl.
  - right. split; [apply not_elem_of_nil | done].
  - destruct (String.eqb k' k) eqn:Hk; simpl.
    + apply String.eqb_eq in Hk as ->. by left.
    + apply String.eqb_neq in Hk.
      destruct IH as [-> | [Hnin ->]]; [by left |].
      right. split; [| done].
      intros Hin. apply elem_of_cons in Hin as [-> | Hin]; done.
Qed.

Lemma dict_set_NoDup {V} (d : list (string * V)) k v :
  NoDup (map fst d) → NoDup (map fst (dict_set d k v)).
Proof.
  intros Hd. destruct (dict_set_keys d k v) as [-> | [Hnin ->]]; [done |].
  apply NoDup_app. split; [done |]. split.
  - intros x Hx Hk. apply list_elem_of_singleton in Hk as ->. done.
  - apply NoDup_singleton.
Qed.

Lemma dict_select_lookup {V} (d : list (string * V)) (sel : V → bool) k :
  NoDup (map fst d) →
  k ∈ map fst (List.filter (fun kv => sel (snd kv)) d)
  ↔ ∃ v, dict_get d k = Some v ∧ sel v = true.
Proof.
  intros Hd. split.
  - intros Hin. apply list_elem_of_fmap in Hin as ([k' v] & -> & Hin).
    apply list_elem_of_In, filter_In in Hin as [Hin Hsel]. simpl in *.
    exists v. split; [| done].
    apply dict_get_in; [done | by apply list_elem_of_In].
  - intros (v & Hget & Hsel). apply list_elem_of_fmap. exists (k, v).
    split; [done |]. apply list_elem_of_In, filter_In. split; [| done].
    by apply list_elem_of_In, dict_get_elem.
Qed.

(** X29. A player is in one team and one match at a time: registering a
    player again moves it, the players of every team and match are
    otherwise the same, and the registry still holds every player once.
    Teams are kept apart from the players: the teams registered before
    stay registered, and [unregister_team] forgets the match of the team
    only, so the players of the team are still listed under it while the
    key of the team state can no longer be resolved ([ValueError]). *)
Theorem player_registry_teams
    (cls : PlayerRegistry.t) (p : string) (m : option string) (t : string) :
  registry_wf cls →
  (let cls' := PlayerRegistry.register_player cls p m t in
   registry_wf cls'
   ∧ (∀ q t', q ∈ PlayerRegistry.players_for_team cls' t'
              ↔ (q = p ∧ t' = t)
                ∨ (q ≠ p ∧ q ∈ PlayerRegistry.players_for_team cls t'))
   ∧ (∀ q m', q ∈ PlayerRegistry.players_for_match cls' m'
              ↔ (q = p ∧ m' = m)
                ∨ (q ≠ p ∧ q ∈ PlayerRegistry.players_for_match cls m'))
   ∧ (∀ t', t' ≠ t → PlayerRegistry.get_match_id_for_team cls' t'
                     = PlayerRegistry.get_match_id_for_team cls t'))
  ∧ (let cls' := PlayerRegistry.unregister_team cls t in
     PlayerRegistry.get_match_id_for_team cls' t = None
     ∧ (∀ t', t' ≠ t → PlayerRegistry.get_match_id_for_team cls' t'
                       = PlayerRegistry.get_match_id_for_team cls t')
     ∧ (∀ q, PlayerRegistry.get_team_id cls' q = PlayerRegistry.get_team_id cls q)
     ∧ (∀ t', PlayerRegistry.players_for_team cls' t'
              = PlayerRegistry.players_for_team cls t')
     ∧ (∀ s, registry s = cls' →
             (get_team_state_key (Some t) None s).2 = Raise ValueError)).
Proof.
  intros Hwf. split.
  - set (cls' := PlayerRegistry.register_player cls p m t).
    assert (Hwf' : registry_wf cls').
    { unfold registry_wf, cls'. simpl. by apply dict_set_NoDup. }
    split; [exact Hwf' |]. split; [| split].
    + intros q t'. unfold PlayerRegistry.players_for_team.
      pose proof (dict_select_lookup _
                    (fun e => String.eqb (PlayerRegistry.team_id e) t') q Hwf')
        as H1.
      pose proof (dict_select_lookup _
                    (fun e => String.eqb (PlayerRegistry.team_id e) t') q Hwf)
        as H2.
      cbv beta in H1, H2. rewrite H1, H2. clear H1 H2.
      unfold cls'. simpl.
      destruct (decide (q = p)) as [-> | Hq].
      * rewrite dict_get_set_eq. split.
        -- intros (e & [= <-] & He). simpl in He.
           apply String.eqb_eq in He. by left.
        -- intros [[_ ->] | [Hne _]]; [| done].
           eexists. split; [done |]. simpl. apply String.eqb_refl.
      * rewrite dict_get_set_ne by done. split.
        -- intros H. by right.
        -- intros [[-> _] | [_ H]]; done.
    + intros q m'. unfold PlayerRegistry.players_for_match.
      pose proof (dict_select_lookup _
                    (fun e => bool_decide (PlayerRegistry.match_id e = m')) q Hwf')
        as H1.
      pose proof (dict_select_lookup _
                    (fun e => bool_decide (PlayerRegistry.match_id e = m')) q Hwf)
        as H2.
      cbv beta in H1, H2. rewrite H1, H2. clear H1 H2.
      unfold cls'. simpl.
      destruct (decide (q = p)) as [-> | Hq].
      * rewrite dict_get_set_eq. split.
        -- intros (e & [= <-] & He). simpl in He.
           apply bool_decide_eq_true in He. by left.
        -- intros [[_ ->] | [Hne _]]; [| done].
           eexists. split; [done |]. simpl. by apply bool_decide_eq_true.
      * rewrite dict_get_set_ne by done. split.
        -- intros H. by right.
        -- intros [[-> _] | [_ H]]; done.
    + intros t' Ht. unfold PlayerRegistry.get_match_id_for_team, cls'. simpl.
      by rewrite dict_get_set_ne.
  - unfold PlayerRegistry.get_match_id_for_team. simpl.
    split; [by rewrite dict_get_pop_eq |].
    split; [intros t' Ht; by rewrite dict_get_pop_ne |].
    split; [done |]. split; [done |].
    intros s Hs. unfold get_team_state_key, bind, get_registry. simpl.
    unfold PlayerRegistry.get_match_id_for_team. rewrite Hs. simpl.
    by rewrite dict_get_pop_eq.
Qed.

Lemma player_registry_teams_witness :
  "player_1" ∈ PlayerRegistry.players_for_team
                 (PlayerRegistry.register_player (registry sample_state)
                    "player_1" (Some "game_1") "team_2") "team_2".
Proof.
  destruct (player_registry_teams (registry sample_state) "player_1"
              (Some "game_1") "team_2" sample_state_registry_wf)
    as [(_ & H & _) _].
  apply H. by left.
Defined.

(** ** Reading the state back *)

Lemma item_field s k f :
  item (hgetall s k) f
  = match field s k f with
    | Some v => inr v
    | None => inl (KeyError f)
    end.
Proof.
  unfold item, hgetall, field.
  destruct (hashes (redis s) !! k) as [h |]; simpl; [done |].
  by rewrite lookup_empty.
Qed.

Lemma read_bind_inr {A B} (r : read A) (k : A → read B) b :
  read_bind r k = inr b → ∃ a, r = inr a ∧ k a = inr b.
Proof. destruct r as [e | a]; simpl; [done |]. intros H. by exists a. Qed.

Lemma item_inr s k f v : item (hgetall s k) f = inr v → field s k f = Some v.
Proof.
  rewrite item_field. destruct (field s k f); [by intros [= ->] | done].
Qed.

Lemma converted_inr {A} (r : result A) a : converted r = inr a → r = Return a.
Proof. destruct r; simpl; [by intros [= ->] | done]. Qed.

(** Take the first binding of a read that returned. *)
Ltac read_step H :=
  apply read_bind_inr in H as (? & ? & H).

Section FromDatabaseProperties.

Variable JSON : Type.
Variable json_loads : value → result JSON.
Variable teams_of : JSON → result (list (string * list string)).
Variable int_ : value → result Z.
Variable validate_bool : value → option bool.
Variable validate_int : value → option Z.
Variable validate_str_list : JSON → option (list string).

Let player := read_player JSON json_loads int_ validate_bool validate_int
                     validate_str_list.
Let players := read_players JSON json_loads int_ validate_bool validate_int
                      validate_str_list.
Let team_ := read_team JSON json_loads int_ validate_bool validate_int
                   validate_str_list.
Let teams_ := read_teams JSON json_loads int_ validate_bool validate_int
                    validate_str_list.
Let read_game := from_database JSON json_loads teams_of int_ validate_bool
                       validate_int validate_str_list.

Lemma read_player_fields m s p st :
  player m s p = inr st →
  (∃ v, field s (PlayerKey m p) "kill_streaks" = Some v)
  ∧ (∃ v n, field s (PlayerKey m p) "max_killing_spree" = Some v
            ∧ int_ v = Return n
            ∧ PlayerState.max_killing_spree st = max_killing_spree_label n).
Proof.
  unfold player, read_player. intros H.
  do 7 read_step H.
  apply read_bind_inr in H as (ks & Hks & H). apply item_inr in Hks.
  read_step H.
  apply read_bind_inr in H as (v & Hv & H). apply item_inr in Hv.
  apply read_bind_inr in H as (n & Hn & H). apply converted_inr in Hn.
  split; [by exists ks |]. exists v, n. split; [done |]. split; [done |].
  unfold validated in H.
  repeat match type of H with
         | context [?o ≫= _] => destruct o; simpl in H; [| done]
         end.
  by injection H as <-.
Qed.

Lemma read_players_each m s ids : ∀ acc states,
  players m s ids acc = inr states →
  ∀ p, p ∈ ids → ∃ st, player m s p = inr st.
Proof.
  induction ids as [| q ids IH]; intros acc states H p Hp.
  - by apply elem_of_nil in Hp.
  - cbn in H. apply read_bind_inr in H as (st & Hst & H).
    apply elem_of_cons in Hp as [-> | Hp]; [by exists st |].
    by apply (IH _ _ H).
Qed.

Lemma read_teams_each m s teams_data : ∀ acc states,
  teams_ m s teams_data acc = inr states →
  ∀ team, team ∈ teams_data → ∃ st, team_ m s team = inr st.
Proof.
  induction teams_data as [| t teams_data IH]; intros acc states H team Ht.
  - by apply elem_of_nil in Ht.
  - cbn in H. apply read_bind_inr in H as (st & Hst & H).
    apply elem_of_cons in Ht as [-> | Ht]; [by exists st |].
    by apply (IH _ _ H).
Qed.


End FromDatabaseProperties.

